(** * CASSON: a small computer algebra system

    A shallow embedding of [function.py] (the expression tree with its
    [evaluate], [derivative], [simplify], [__str__] and [__repr__] methods),
    of [syntax_parser.py] ([tokenize], [parse_primitive], [parse_partial],
    [parse]) and of the loops of [eval_prompt.py], [ddx_prompt.py] and
    [debug_prompt.py], followed by the properties proved about them.

    Conventions of the embedding.
    - A Python [int] is a [Z]; a Python [float] is an IEEE binary64 value,
      Rocq's primitive [float].
    - A raised exception is the outcome [Raise e]; the code never catches one
      (except around [int(token)] in [parse_primitive], written out there).
    - The C library functions behind [math.log], [math.sin], [math.cos],
      [math.tan], [math.asin], [pow] on floats, and [str] of a float have no
      Rocq definition: they are the fields of the record [pylib], over which
      the methods are parameterised.
    - Strings are [string]s of one-byte characters; [\d] is then [0-9].
    - [parse_partial] recurses on a token list that it lengthens, so its
      recursion is bounded by a fuel argument: the room left for nested
      calls, of which a call of [parse_partial] and a round of the loop of
      [parse] take one each. Where it runs out the outcome is [Unfinished],
      which stands for the interpreter's [RecursionError]; nothing in the
      code catches it.
    - The methods of the tree are given twice: [evaluate], [simplify],
      [derivative] and [toString] with room for any number of nested calls,
      and [evaluate_in], [simplify_in], [derivative_in], [str_in] and
      [repr_in] with the room as an argument and the outcome [Unfinished]
      where it runs out. How much room the interpreter has depends on how it
      was started: the room is a parameter, and of the prompts too.
    - [int] reads and [str] writes an [int] of at most [digit_limit] digits,
      4300 as CPython has it by default; beyond, both raise [ValueError].
      [int_of_token], [str_int], [str_node] and the prompts have the limit;
      [int_str] and [toString] are the texts that [str] writes where it
      returns.
    - Objects have no identity here: a tree is its value. Where Python
      compares by identity before [==] (the elements of two lists), the
      embedding compares the values; the two differ only on a node that
      holds a NaN and is compared with itself.
    - A session at a prompt is a function of the lines that [input]
      returns; what it writes is the list of the prompts and of the texts
      printed, in order. *)

From Stdlib Require Import ZArith QArith Floats SpecFloat String Ascii List Lia Bool.
From Stdlib Require Import DecimalString DecimalZ.
From stdpp Require Import gmap strings.
Import ListNotations.

Local Open Scope string_scope.
Local Open Scope Z_scope.

(** ** Outcomes *)

Inductive exn : Type :=
| AssertionError (msg : string)
| SyntaxError
| IndexError
| ValueError
| ZeroDivisionError
| OverflowError
| AttributeError.

(** [Unfinished] is the outcome of a call that found no room for a
    nested call: of the parser without fuel, of a method of the tree
    without depth. It stands for [RecursionError]. *)
Inductive result (A : Type) : Type :=
| Ok (a : A)
| Raise (e : exn)
| Unfinished.

Arguments Ok {A} a.
Arguments Raise {A} e.
Arguments Unfinished {A}.

Definition bind {A B : Type} (r : result A) (k : A -> result B) : result B :=
  match r with
  | Ok a => k a
  | Raise e => Raise e
  | Unfinished => Unfinished
  end.

Notation "'do' x <- r ; k" := (bind r (fun x => k))
  (at level 10, x name, r at level 100, k at level 200).
Notation "'do' ' p <- r ; k" := (bind r (fun x => let 'p := x in k))
  (at level 10, p pattern, r at level 100, k at level 200).

(** [assert cond, msg] *)
Definition assert (cond : bool) (msg : string) : result unit :=
  if cond then Ok tt else Raise (AssertionError msg).

(** ** Numbers: Python's [int] and [float] *)

Inductive number : Type :=
| PyInt (z : Z)
| PyFloat (f : float).

(** [float(z)]: round to nearest, ties to even; too large an [int] raises. *)
Definition float_of_int (z : Z) : result float :=
  let f := SF2Prim (binary_normalize 53 1024 z 0 false) in
  if PrimFloat.is_infinity f then Raise OverflowError else Ok f.

Definition to_float (n : number) : result float :=
  match n with
  | PyInt z => float_of_int z
  | PyFloat f => Ok f
  end.

Definition exact_of_int (z : Z) : spec_float :=
  match z with
  | Z0 => S754_zero false
  | Zpos p => S754_finite false p 0
  | Zneg p => S754_finite true p 0
  end.

(** The quotient of two integers, correctly rounded to a float. *)
Definition int_quotient (a b : Z) : float :=
  SF2Prim (SFdiv 53 1024 (exact_of_int a) (exact_of_int b)).

Definition py_add (a b : number) : result number :=
  match a, b with
  | PyInt x, PyInt y => Ok (PyInt (x + y))
  | _, _ => do x <- to_float a; do y <- to_float b; Ok (PyFloat (x + y)%float)
  end.

Definition py_sub (a b : number) : result number :=
  match a, b with
  | PyInt x, PyInt y => Ok (PyInt (x - y))
  | _, _ => do x <- to_float a; do y <- to_float b; Ok (PyFloat (x - y)%float)
  end.

Definition py_mul (a b : number) : result number :=
  match a, b with
  | PyInt x, PyInt y => Ok (PyInt (x * y))
  | _, _ => do x <- to_float a; do y <- to_float b; Ok (PyFloat (x * y)%float)
  end.

(** [a / b]: true division, always a float. *)
Definition py_truediv (a b : number) : result number :=
  match a, b with
  | PyInt x, PyInt y =>
      if y =? 0 then Raise ZeroDivisionError
      else let f := int_quotient x y in
           if PrimFloat.is_infinity f then Raise OverflowError else Ok (PyFloat f)
  | _, _ =>
      do x <- to_float a; do y <- to_float b;
      if PrimFloat.eqb y 0%float then Raise ZeroDivisionError
      else Ok (PyFloat (x / y)%float)
  end.

(** [f == z] for a float and an int compares the exact values. *)
Definition float_eq_int (f : float) (z : Z) : bool :=
  match Prim2SF f with
  | S754_zero _ => z =? 0
  | S754_finite s m e =>
      let v := if s then Z.neg m else Z.pos m in
      if 0 <=? e then v * 2 ^ e =? z else v =? z * 2 ^ (- e)
  | _ => false
  end.

Definition py_eq (a b : number) : bool :=
  match a, b with
  | PyInt x, PyInt y => x =? y
  | PyFloat x, PyFloat y => PrimFloat.eqb x y
  | PyFloat x, PyInt y => float_eq_int x y
  | PyInt x, PyFloat y => float_eq_int y x
  end.

(** [n > 0] and [n < 0] *)
Definition py_positive (n : number) : bool :=
  match n with
  | PyInt z => 0 <? z
  | PyFloat f => PrimFloat.ltb 0%float f
  end.

Definition py_negative (n : number) : bool :=
  match n with
  | PyInt z => z <? 0
  | PyFloat f => PrimFloat.ltb f 0%float
  end.

(** What the Python runtime supplies and Rocq cannot define. [float_pow]
    is [pow] on two floats (a float, or an exception; on a negative base
    with a fractional exponent Python returns a complex number, which
    [number] does not have: nothing below is stated about that case);
    [float_repr] is [str] of a float. *)
Record pylib : Type := {
  math_log : number -> result float;
  math_sin : number -> result float;
  math_cos : number -> result float;
  math_tan : number -> result float;
  math_asin : number -> result float;
  float_pow : float -> float -> result number;
  float_repr : float -> string
}.

(** [math.sqrt]: the correctly rounded square root. *)
Definition math_sqrt (n : number) : result float :=
  do x <- to_float n;
  if PrimFloat.ltb x 0%float then Raise ValueError else Ok (PrimFloat.sqrt x).

(** [pow(a, b)]: exact on an int base with a non-negative int exponent,
    the float power otherwise. *)
Definition py_pow (L : pylib) (a b : number) : result number :=
  match a, b with
  | PyInt x, PyInt y =>
      if 0 <=? y then Ok (PyInt (x ^ y))
      else do x' <- to_float a; do y' <- to_float b; float_pow L x' y'
  | _, _ => do x' <- to_float a; do y' <- to_float b; float_pow L x' y'
  end.

(** [math.pi] and [math.e] *)
Definition math_pi : float := 0x1.921fb54442d18p+1%float.
Definition math_e : float := 0x1.5bf0a8b145769p+1%float.

(** ** The expression tree *)

Inductive binary_operator : Type := Add | Subtract | Multiply | Divide | Power.

Inductive unary_function : Type :=
| Sine | Cosine | Ln | Secant | Tangent | Cosecant | Cotangent
| Sqrt | Arcsin | Sign | Abs.

(** [Function.__init__] asserts the number of children of each class:
    two for a [BinaryOperator], one for a [UnaryFunction] and for the
    [PrefixOperator] [Negate]; the constructors carry exactly those. *)
Inductive node : Type :=
| Number (symbol : number)
| Var (symbol : string)          (* class Variable: a reserved word here *)
| Binary (cls : binary_operator) (x y : node)
| Unary (cls : unary_function) (x : node)
| Negate (x : node).

Definition NUMBER_0 : node := Number (PyInt 0).
Definition NUMBER_1 : node := Number (PyInt 1).
Definition NUMBER_2 : node := Number (PyInt 2).

Definition binary_symbol (c : binary_operator) : string :=
  match c with
  | Add => "+" | Subtract => "-" | Multiply => "*" | Divide => "/" | Power => "^"
  end.

Definition unary_symbol (c : unary_function) : string :=
  match c with
  | Sine => "sin" | Cosine => "cos" | Ln => "ln" | Secant => "sec"
  | Tangent => "tan" | Cosecant => "csc" | Cotangent => "cot"
  | Sqrt => "sqrt" | Arcsin => "arcsin" | Sign => "sign" | Abs => "abs"
  end.

Definition children (t : node) : list node :=
  match t with
  | Number _ | Var _ => []
  | Binary _ x y => [x; y]
  | Unary _ x | Negate x => [x]
  end.

(** [Node.__eq__]: equal symbols and equal lists of children. The symbol
    of a leaf is its number or name, that of any other node the symbol of its
    class; [Subtract] and [Negate] share the symbol ["-"] and differ in the
    number of children. (Python compares the elements of two lists by
    identity before [==]; without identities a NaN differs from itself
    wherever it stands.) *)
Fixpoint node_eq (a b : node) : bool :=
  match a, b with
  | Number m, Number n => py_eq m n
  | Var s, Var t => String.eqb s t
  | Binary c x y, Binary d u v =>
      String.eqb (binary_symbol c) (binary_symbol d) && node_eq x u && node_eq y v
  | Unary c x, Unary d u =>
      String.eqb (unary_symbol c) (unary_symbol d) && node_eq x u
  | Negate x, Negate u => node_eq x u
  | _, _ => false
  end.

(** ** Operator attributes *)

(** Class attribute [precedence]; [Negate] has 2.5. *)
Definition binary_precedence (c : binary_operator) : Q :=
  match c with
  | Add | Subtract => 1
  | Multiply | Divide => 2
  | Power => 3
  end.

Definition Negate_precedence : Q := 5 # 2.

(** [BinaryOperator] sets both flags; [Subtract] and [Divide] clear
    [is_right_associative], [Power] clears [is_left_associative]. *)
Definition is_left_associative (c : binary_operator) : bool :=
  match c with
  | Power => false
  | _ => true
  end.

Definition is_right_associative (c : binary_operator) : bool :=
  match c with
  | Subtract | Divide => false
  | _ => true
  end.

(** [str_spacing] *)
Definition str_spacing (c : binary_operator) : string :=
  match c with
  | Add | Subtract => " "
  | _ => ""
  end.

Definition Qltb (a b : Q) : bool := negb (Qle_bool b a).

(** [isinstance(t, Operator)] *)
Definition is_Operator (t : node) : bool :=
  match t with
  | Binary _ _ _ | Negate _ => true
  | _ => false
  end.

(** [t.precedence], read only on operators. *)
Definition precedence (t : node) : Q :=
  match t with
  | Binary c _ _ => binary_precedence c
  | Negate _ => Negate_precedence
  | _ => 0
  end.

(** ** Bindings *)

Definition default_bindings : gmap string number :=
  <["Pi" := PyFloat math_pi]> (<["E" := PyFloat math_e]> ∅).

(** Python's [a | b] on dictionaries: on a shared key the right operand
    wins (stdpp's union keeps the left one). *)
Definition dict_or (a b : gmap string number) : gmap string number := b ∪ a.

Section Casson.

Variable L : pylib.

(** ** [evaluate] *)

Definition Variable_evaluate (symbol : string) (bindings : gmap string number)
  : result number :=
  let bindings := dict_or bindings default_bindings in
  match bindings !! symbol with
  | Some v => Ok v
  | None => Raise (AssertionError "Cannot evaluate unbound variable")
  end.

Definition binary_evaluate (c : binary_operator) (a b : number) : result number :=
  match c with
  | Add => py_add a b
  | Subtract => py_sub a b
  | Multiply => py_mul a b
  | Divide => py_truediv a b
  | Power => py_pow L a b
  end.

Definition reciprocal (r : result float) : result number :=
  do f <- r; py_truediv (PyInt 1) (PyFloat f).

(** The body of each unary function's [evaluate] once its child has a
    value. [Abs] is not here: [math.abs] does not exist, and looking it up
    fails before the child is evaluated. *)
Definition unary_evaluate (c : unary_function) (a : number) : result number :=
  match c with
  | Ln => do f <- math_log L a; Ok (PyFloat f)
  | Sine => do f <- math_sin L a; Ok (PyFloat f)
  | Cosine => do f <- math_cos L a; Ok (PyFloat f)
  | Tangent => do f <- math_tan L a; Ok (PyFloat f)
  | Secant => reciprocal (math_cos L a)
  | Cotangent => reciprocal (math_tan L a)
  | Cosecant => reciprocal (math_sin L a)
  | Sqrt => do f <- math_sqrt a; Ok (PyFloat f)
  | Arcsin => do f <- math_asin L a; Ok (PyFloat f)
  | Sign =>
      if py_positive a then Ok (PyInt 1)
      else if py_negative a then Ok (PyInt (-1))
      else Ok (PyInt 0)
  | Abs => Raise AttributeError
  end.

Fixpoint evaluate (t : node) (bindings : gmap string number) : result number :=
  match t with
  | Number symbol => Ok symbol
  | Var symbol => Variable_evaluate symbol bindings
  | Binary c x y =>
      do a <- evaluate x bindings;
      do b <- evaluate y bindings;
      binary_evaluate c a b
  | Unary Abs _ => Raise AttributeError
  | Unary c x =>
      do a <- evaluate x bindings;
      unary_evaluate c a
  | Negate x =>
      do a <- evaluate x bindings;
      py_mul (PyInt (-1)) a
  end.

(** ** [simplify] *)

(** [isinstance(child, Number) and isinstance(child.symbol, float)] *)
Definition is_float_Number (child : node) : bool :=
  match child with
  | Number (PyFloat _) => true
  | _ => false
  end.

(** [Function.simplify] after [super().simplify()] has rebuilt the node
    from its simplified children: [self] is that rebuilt node. *)
Definition Function_simplify (self : node) : result node :=
  if forallb is_float_Number (children self)
  then do v <- evaluate self ∅; Ok (Number v)
  else Ok self.

(** The part of each class's [simplify] that follows
    [self = super().simplify()]. A [Number] (the folded constant) is returned
    as it is; the classes that do not override [simplify] have no rule. *)
Definition class_simplify (self : node) : node :=
  match self with
  | Binary Add x y =>
      if node_eq x NUMBER_0 then y
      else if node_eq y NUMBER_0 then x
      else self
  | Binary Multiply x y =>
      if node_eq x NUMBER_0 || node_eq y NUMBER_0 then NUMBER_0
      else if node_eq x NUMBER_1 then y
      else if node_eq y NUMBER_1 then x
      else self
  | Binary Subtract x y =>
      if node_eq x NUMBER_0 then Negate y
      else if node_eq y NUMBER_0 then x
      else self
  | Binary Divide x y =>
      if node_eq x NUMBER_0 then NUMBER_0
      else if node_eq y NUMBER_1 then x
      else if node_eq x y then NUMBER_1
      else self
  | Binary Power x y =>
      if node_eq x NUMBER_0 && negb (node_eq y NUMBER_0) then NUMBER_0
      else if node_eq y NUMBER_0 && negb (node_eq x NUMBER_0) then NUMBER_1
      else if node_eq x NUMBER_1 then NUMBER_1
      else if node_eq y NUMBER_1 then x
      else self
  | Unary Ln x =>
      if node_eq x NUMBER_1 then NUMBER_0
      else if node_eq x (Var "E") then NUMBER_1
      else self
  | Negate x =>
      match x with
      | Negate z => z
      | _ => if node_eq x NUMBER_0 then x else self
      end
  | _ => self
  end.

Fixpoint simplify (t : node) : result node :=
  match t with
  | Number _ | Var _ => Ok t
  | Binary c x y =>
      do x' <- simplify x;
      do y' <- simplify y;
      do self <- Function_simplify (Binary c x' y');
      Ok (class_simplify self)
  | Unary c x =>
      do x' <- simplify x;
      do self <- Function_simplify (Unary c x');
      Ok (class_simplify self)
  | Negate x =>
      do x' <- simplify x;
      do self <- Function_simplify (Negate x');
      Ok (class_simplify self)
  end.

(** ** [derivative] *)

Definition unary_derivative (c : unary_function) (x x' : node) : result node :=
  match c with
  | Ln => simplify (Binary Divide x' x)
  | Sine => simplify (Binary Multiply (Unary Cosine x) x')
  | Cosine => simplify (Binary Multiply (Negate (Unary Sine x)) x')
  | Tangent =>
      simplify (Binary Multiply (Binary Power (Unary Secant x) NUMBER_2) x')
  | Secant =>
      simplify (Binary Multiply
                  (Binary Multiply (Unary Secant x) (Unary Tangent x)) x')
  | Cotangent =>
      simplify (Binary Multiply
                  (Negate (Binary Power (Unary Cosecant x) NUMBER_2)) x')
  | Cosecant =>
      simplify (Binary Multiply
                  (Binary Multiply (Negate (Unary Cosecant x)) (Unary Cotangent x))
                  x')
  | Sqrt =>
      simplify (Binary Multiply
                  (Binary Divide NUMBER_1 (Binary Multiply NUMBER_2 (Unary Sqrt x)))
                  x')
  | Abs => simplify (Binary Multiply (Unary Sign x) x')
  | Sign => Ok NUMBER_0
  | Arcsin =>
      simplify (Binary Multiply
                  (Binary Divide NUMBER_1
                     (Unary Sqrt (Binary Subtract NUMBER_1 (Binary Power x NUMBER_2))))
                  x')
  end.

Fixpoint derivative (t : node) (symbol : string) : result node :=
  match t with
  | Number _ => Ok NUMBER_0
  | Var s => if String.eqb s symbol then Ok NUMBER_1 else Ok NUMBER_0
  | Binary Add x y =>
      do x' <- derivative x symbol;
      do y' <- derivative y symbol;
      simplify (Binary Add x' y')
  | Binary Multiply x y =>
      do x' <- derivative x symbol;
      do y' <- derivative y symbol;
      simplify (Binary Add (Binary Multiply x' y) (Binary Multiply y' x))
  | Binary Subtract x y =>
      do x' <- derivative x symbol;
      do y' <- derivative y symbol;
      simplify (Binary Subtract (Binary Multiply x' y) (Binary Multiply y' x))
  | Binary Divide x y =>
      do x' <- derivative x symbol;
      do y' <- derivative y symbol;
      simplify (Binary Divide
                  (Binary Subtract (Binary Multiply x' y) (Binary Multiply y' x))
                  (Binary Power y NUMBER_2))
  | Binary Power z y =>
      do y' <- derivative y symbol;
      do z' <- derivative z symbol;
      simplify (Binary Multiply t
                  (Binary Add (Binary Multiply y' (Unary Ln z))
                              (Binary Divide (Binary Multiply z' y) z)))
  | Unary Sign _ => Ok NUMBER_0
  | Unary c x =>
      do x' <- derivative x symbol;
      unary_derivative c x x'
  | Negate x =>
      do x' <- derivative x symbol;
      simplify (Negate x')
  end.

(** ** [__str__] *)

(** [str] of an [int] where it returns: decimal digits, a leading ["-"]
    when negative. Beyond [digit_limit] digits [str] raises, see
    [str_int]. *)
Definition int_str (z : Z) : string := NilZero.string_of_int (Z.to_int z).

Definition number_str (n : number) : string :=
  match n with
  | PyInt z => int_str z
  | PyFloat f => float_repr L f
  end.

Definition parenthesize (s : string) : string := "(" ++ s ++ ")".

(** [Leaf.__str__], [Node.__str__] (the unary functions),
    [PrefixOperator.__str__] and [BinaryOperator.__str__], where they
    return: [str_in] has the room for the nested calls and the limit on the
    digits of an [int]. *)
Fixpoint toString (t : node) : string :=
  match t with
  | Number symbol => number_str symbol
  | Var symbol => symbol
  | Unary c x => unary_symbol c ++ "(" ++ toString x ++ ")"
  | Negate child =>
      if is_Operator child && Qltb (precedence child) Negate_precedence
      then "-" ++ "(" ++ toString child ++ ")"
      else "-" ++ toString child
  | Binary c lhs rhs =>
      let left_str := toString lhs in
      let right_str := toString rhs in
      let left_str :=
        if is_Operator lhs
           && (Qltb (precedence lhs) (binary_precedence c)
               || (Qeq_bool (precedence lhs) (binary_precedence c)
                   && negb (is_left_associative c)))
        then parenthesize left_str else left_str in
      let right_str :=
        if is_Operator rhs
           && (Qltb (precedence rhs) (binary_precedence c)
               || (Qeq_bool (precedence rhs) (binary_precedence c)
                   && negb (is_right_associative c)))
        then parenthesize right_str else right_str in
      left_str ++ str_spacing c ++ binary_symbol c ++ str_spacing c ++ right_str
  end.

End Casson.

(** ** [tokenize] *)

Definition is_digit (c : ascii) : bool := (("0" <=? c) && (c <=? "9"))%char.

Definition is_letter (c : ascii) : bool :=
  ((("A" <=? c) && (c <=? "Z")) || (("a" <=? c) && (c <=? "z")))%char.

(** [[\(\)\+\-\/\*\^]] *)
Definition is_operator_char (c : ascii) : bool :=
  existsb (Ascii.eqb c) (list_ascii_of_string "()+-/*^").

(** The longest prefix of [s] whose characters satisfy [p], and the rest. *)
Fixpoint span (p : ascii -> bool) (s : string) : string * string :=
  match s with
  | String c rest =>
      if p c then let (a, b) := span p rest in (String c a, b) else ("", s)
  | EmptyString => ("", s)
  end.

(** One match of the token pattern at the start of [s]: the alternatives
    in the pattern's order, each quantifier greedy. The last alternative, a
    lone ["-"], is never reached (the first one takes it). *)
Definition match_token (s : string) : option (string * string) :=
  match s with
  | EmptyString => None
  | String c rest =>
      if is_operator_char c then Some (String c "", rest)
      else if is_digit c then
        let (digits, r1) := span is_digit s in
        match r1 with
        | String "."%char r2 =>
            let (fraction, r3) := span is_digit r2 in
            Some (digits ++ "." ++ fraction, r3)
        | _ => Some (digits, r1)
        end
      else if Ascii.eqb c "." then
        let (fraction, r2) := span is_digit rest in
        match fraction with
        | EmptyString => None
        | _ => Some ("." ++ fraction, r2)
        end
      else if is_letter c then Some (span is_letter s)
      else None
  end.

(** [re.findall]: scan left to right; where nothing matches, skip one
    character. Every step consumes a character, so the length of the string
    is fuel enough. *)
Fixpoint findall (fuel : nat) (s : string) : list string :=
  match fuel with
  | O => []
  | S fuel =>
      match s with
      | EmptyString => []
      | String _ rest =>
          match match_token s with
          | Some (token, r) => token :: findall fuel r
          | None => findall fuel rest
          end
      end
  end.

Definition tokenize (s : string) : list string := findall (String.length s) s.

(** ** [parse_primitive] *)

(** The classes a token can stand for. *)
Inductive function_class : Type :=
| BinaryClass (c : binary_operator)
| UnaryClass (c : unary_function)
| NegateClass.

(** What [parse_primitive] returns: a leaf, or a class to be applied. *)
Inductive primitive : Type :=
| Instance (t : node)
| Class (c : function_class).

Definition binary_operators_dict (token : string) : option binary_operator :=
  if String.eqb token "+" then Some Add
  else if String.eqb token "-" then Some Subtract
  else if String.eqb token "*" then Some Multiply
  else if String.eqb token "/" then Some Divide
  else if String.eqb token "^" then Some Power
  else None.

Definition unary_functions_dict (token : string) : option unary_function :=
  if String.eqb token "sin" then Some Sine
  else if String.eqb token "cos" then Some Cosine
  else if String.eqb token "ln" then Some Ln
  else if String.eqb token "sec" then Some Secant
  else if String.eqb token "tan" then Some Tangent
  else if String.eqb token "csc" then Some Cosecant
  else if String.eqb token "cot" then Some Cotangent
  else if String.eqb token "sqrt" then Some Sqrt
  else if String.eqb token "arcsin" then Some Arcsin
  else if String.eqb token "sign" then Some Sign
  else if String.eqb token "abs" then Some Abs
  else None.

(** [token in prefix_operators_dict]: the only key is ["-"]. *)
Definition prefix_operators_dict (token : string) : option function_class :=
  if String.eqb token "-" then Some NegateClass else None.

(** [re.match(NUMBER_REGEXP, token)]: a match at the start of the token. *)
Definition match_number (token : string) : bool :=
  match token with
  | String c rest =>
      is_digit c
      || (Ascii.eqb c "."
          && match rest with String d _ => is_digit d | EmptyString => false end)
  | EmptyString => false
  end.

(** [re.match(NAME_REGEXP, token)] *)
Definition match_name (token : string) : bool :=
  match token with
  | String c _ => is_letter c
  | EmptyString => false
  end.

(** CPython's limit on the digits of an [int] that is read from a [str]
    or written to one ([sys.int_info.default_max_str_digits]): beyond it
    [int] and [str] raise [ValueError]. *)
Definition digit_limit : nat := 4300.

(** [int(token)] on the tokens [tokenize] makes: the integer when the token
    is all digits, not more than the limit allows; [None] (it raises) when
    the token has a point or more digits. *)
Definition int_of_token (token : string) : option Z :=
  match token with
  | EmptyString => None
  | _ =>
      if (digit_limit <? String.length token)%nat then None
      else option_map Z.of_uint (NilEmpty.uint_of_string token)
  end.

(** [float(token)] on the tokens [tokenize] makes, [digits] and
    [digits.digits] (of the latter either part may be empty, not both): the
    decimal value, correctly rounded, infinity where it is too large. Other
    texts that [float] would accept (an exponent, underscores, blanks
    around) are no tokens of the lexer and are not read here. *)
Definition float_of_token (token : string) : option float :=
  let (whole, r) := span is_digit token in
  match r with
  | EmptyString =>
      match whole with
      | EmptyString => None
      | _ =>
          match NilEmpty.uint_of_string whole with
          | Some d => Some (int_quotient (Z.of_uint d) 1)
          | None => None
          end
      end
  | String "."%char r2 =>
      let (fraction, r3) := span is_digit r2 in
      match r3, (whole ++ fraction)%string with
      | EmptyString, String _ _ =>
          match NilEmpty.uint_of_string (whole ++ fraction) with
          | Some d =>
              Some (int_quotient (Z.of_uint d) (10 ^ Z.of_nat (String.length fraction)))
          | None => None
          end
      | _, _ => None
      end
  | _ => None
  end.

Definition parse_primitive (token : string) (has_previous : bool)
  : result primitive :=
  if match_number token then
    match int_of_token token with
    | Some z => Ok (Instance (Number (PyInt z)))
    | None =>
        match float_of_token token with
        | Some f => Ok (Instance (Number (PyFloat f)))
        | None => Raise ValueError
        end
    end
  else
    match (if has_previous then None else prefix_operators_dict token) with
    | Some c => Ok (Class c)
    | None =>
    match binary_operators_dict token with
    | Some c => Ok (Class (BinaryClass c))
    | None =>
    match (if has_previous then prefix_operators_dict token else None) with
    | Some c => Ok (Class c)
    | None =>
        if match_name token then
          match unary_functions_dict token with
          | Some c => Ok (Class (UnaryClass c))
          | None => Ok (Instance (Var token))
          end
        else Raise SyntaxError
    end end end.

(** ** [parse_partial] and [parse] *)

(** The limiting operator of [parse_partial]: the base class [Operator]
    (precedence 0) at the outermost level and inside parentheses, or the
    operator class whose operand is being parsed. *)
Inductive limit : Type :=
| Operator
| LimitNegate
| LimitBinary (c : binary_operator).

Definition limit_precedence (l : limit) : Q :=
  match l with
  | Operator => 0
  | LimitNegate => Negate_precedence
  | LimitBinary c => binary_precedence c
  end.

(** [tokens.insert(i, x)] *)
Definition insert_at {A : Type} (i : nat) (x : A) (l : list A) : list A :=
  take i l ++ x :: drop i l.

(** [new_index < len(tokens) and tokens[new_index] == s] *)
Definition token_is (tokens : list string) (i : nat) (s : string) : bool :=
  match tokens !! i with
  | Some t => String.eqb t s
  | None => false
  end.

(** Lines 58-66 of [parse_partial]: classify the token at [new_index]
    (known to exist and not to be [")"]) as the next operator; when it is not
    a binary operator, insert ["*"] into the token list in front of it and
    take [Multiply]. Returns the token list as it is afterwards. *)
Definition next_operator (tokens : list string) (new_index : nat)
  : result (list string * binary_operator) :=
  do classified <-
    (if token_is tokens new_index "(" then Ok None
     else match tokens !! new_index with
          | Some token => do p <- parse_primitive token true; Ok (Some p)
          | None => Raise IndexError
          end);
  match classified with
  | Some (Class (BinaryClass c)) => Ok (tokens, c)
  | _ => Ok (insert_at new_index "*" tokens, Multiply)
  end.

(** Lines 68-70: whether parsing goes on to the right. *)
Definition continues (next : binary_operator) (limiting_operator : limit) : bool :=
  Qltb (limit_precedence limiting_operator) (binary_precedence next)
  || (is_right_associative next && negb (is_left_associative next)
      && Qeq_bool (binary_precedence next) (limit_precedence limiting_operator)).

(** [parse_partial] calls itself; its body is written over [rec], the
    function called at those places, in three parts as the comments of the
    source divide it. The token list is mutated by the code, so it is passed
    in and handed back. *)
Section ParsePartialBody.

Variable rec : list string -> nat -> limit -> option node
               -> result (node * nat * list string).

(** Lines 25-31: subexpression parsing, or primitive parsing. *)
Definition parse_first (tokens : list string) (index : nat) (token : string)
    (previous : option node) : result (primitive * nat * list string) :=
  if String.eqb token "(" then
    do '(parsed, new_index, tokens) <- rec tokens (index + 1)%nat Operator None;
    do _ <- assert (token_is tokens new_index ")") "Mismatched parentheses";
    Ok (Instance parsed, new_index, tokens)
  else
    do parsed <- parse_primitive token (bool_decide (previous <> None));
    Ok (parsed, index, tokens).

(** Lines 33-53: a class is applied to the subexpressions it needs. *)
Definition apply_class (parsed : primitive) (new_index : nat)
    (tokens : list string) (previous : option node)
  : result (node * nat * list string) :=
  match parsed with
  | Instance t => Ok (t, new_index, tokens)
  | Class (UnaryClass c) =>
      do _ <- assert (token_is tokens new_index "(")
                "Unary function calls require parentheses";
      do '(argument, new_index, tokens) <-
        rec tokens (new_index + 1)%nat Operator None;
      do _ <- assert (token_is tokens new_index ")")
                "Mismatched parentheses in unary function call";
      Ok (Unary c argument, (new_index + 1)%nat, tokens)
  | Class NegateClass =>
      do '(argument, new_index, tokens) <- rec tokens new_index LimitNegate None;
      Ok (Negate argument, new_index, tokens)
  | Class (BinaryClass c) =>
      match previous with
      | None => Raise (AssertionError "Binary operator missing first argument")
      | Some previous =>
          do '(next_parsed, new_index, tokens) <-
            rec tokens new_index (LimitBinary c) (Some previous);
          Ok (Binary c previous next_parsed, new_index, tokens)
      end
  end.

(** Lines 54-72: return the current node or continue to the right. *)
Definition parse_rest (parsed : node) (new_index : nat) (tokens : list string)
    (limiting_operator : limit) : result (node * nat * list string) :=
  if bool_decide (new_index < length tokens)%nat
     && negb (token_is tokens new_index ")")
  then
    do '(tokens, next) <- next_operator tokens new_index;
    if continues next limiting_operator
    then rec tokens new_index limiting_operator (Some parsed)
    else Ok (parsed, new_index, tokens)
  else Ok (parsed, new_index, tokens).

Definition parse_partial_body (tokens : list string) (index : nat)
    (limiting_operator : limit) (previous : option node)
  : result (node * nat * list string) :=
  match tokens !! index with
  | None => Raise IndexError
  | Some token =>
      do '(parsed, new_index, tokens) <- parse_first tokens index token previous;
      let new_index := (new_index + 1)%nat in
      do '(parsed, new_index, tokens) <-
        apply_class parsed new_index tokens previous;
      parse_rest parsed new_index tokens limiting_operator
  end.

End ParsePartialBody.

(** The recursion is bounded by [fuel], the room for nested calls. *)
Fixpoint parse_partial (fuel : nat) (tokens : list string) (index : nat)
    (limiting_operator : limit) (previous : option node)
  : result (node * nat * list string) :=
  match fuel with
  | O => Unfinished
  | S fuel =>
      parse_partial_body (parse_partial fuel) tokens index limiting_operator previous
  end.

(** The loop of [parse]: it returns [previous] ([None] when the loop body
    never ran) and, here, the token list as the code leaves it. *)
Fixpoint parse_loop (fuel : nat) (tokens : list string) (previous : option node)
    (index : nat) : result (option node * list string) :=
  if bool_decide (index < length tokens)%nat then
    match fuel with
    | O => Unfinished
    | S fuel =>
        do '(previous, index, tokens) <-
          parse_partial fuel tokens index Operator previous;
        parse_loop fuel tokens (Some previous) index
    end
  else Ok (previous, tokens).

Definition parse (fuel : nat) (tokens : list string)
  : result (option node * list string) :=
  parse_loop fuel tokens None 0.

(** [parse(tokenize(s))] where the caller goes on to use the tree: a
    method called on [None] raises [AttributeError]. *)
Definition parse_text (fuel : nat) (s : string) : result node :=
  do '(t, _) <- parse fuel (tokenize s);
  match t with
  | Some t => Ok t
  | None => Raise AttributeError
  end.

(** ** [__repr__] *)

(** Class attribute [name]. *)
Definition binary_name (c : binary_operator) : string :=
  match c with
  | Add => "Add" | Subtract => "Subtract" | Multiply => "Multiply"
  | Divide => "Divide" | Power => "Power"
  end.

Definition unary_name (c : unary_function) : string :=
  match c with
  | Sine => "Sine" | Cosine => "Cosine" | Ln => "Ln" | Secant => "Secant"
  | Tangent => "Tangent" | Cosecant => "Cosecant" | Cotangent => "Cotangent"
  | Sqrt => "Sqrt" | Arcsin => "Arcsin" | Sign => "Sign" | Abs => "Abs"
  end.

(** [repr] of a [str] that holds no quote, backslash or unprintable
    character, as the tokens of the lexer and the names of the variables it
    yields do. *)
Definition str_repr (s : string) : string := "'" ++ s ++ "'".

(** [repr] of a list of such strings. *)
Definition list_repr (l : list string) : string :=
  "[" ++ String.concat ", " (map str_repr l) ++ "]".

(** [Leaf.__repr__] and [Node.__repr__]; [repr] of a number is its [str]. *)
Fixpoint toRepr (L : pylib) (t : node) : string :=
  match t with
  | Number symbol => "Number(" ++ number_str L symbol ++ ")"
  | Var symbol => "Variable(" ++ str_repr symbol ++ ")"
  | Binary c x y => binary_name c ++ "([" ++ toRepr L x ++ ", " ++ toRepr L y ++ "])"
  | Unary c x => unary_name c ++ "([" ++ toRepr L x ++ "])"
  | Negate x => "Negate([" ++ toRepr L x ++ "])"
  end.

(** ** The limits of the interpreter *)

(** *** The digits of an [int] *)

(** The number of decimal digits of an [int]. *)
Definition int_digits (z : Z) : nat := String.length (int_str (Z.abs z)).

(** [str] and [repr] of an [int]: the text [int_str] while the digits are
    within the limit, [ValueError] beyond. *)
Definition str_int (z : Z) : result string :=
  if (digit_limit <? int_digits z)%nat then Raise ValueError else Ok (int_str z).

(** [str] of a number, as [print] and [Leaf.__str__] ask for it. *)
Definition str_number (L : pylib) (n : number) : result string :=
  match n with
  | PyInt z => str_int z
  | PyFloat f => Ok (float_repr L f)
  end.

(** No [int] of the tree has more digits than the limit allows. *)
Fixpoint printable (t : node) : bool :=
  match t with
  | Number (PyInt z) => (int_digits z <=? digit_limit)%nat
  | Number (PyFloat _) | Var _ => true
  | Binary _ x y => printable x && printable y
  | Unary _ x | Negate x => printable x
  end.

(** [str(t)] and [repr(t)] with room for any number of nested calls: the
    text of [toString] or of [toRepr], or the [ValueError] of an [int] with
    too many digits. *)
Definition str_node (L : pylib) (t : node) : result string :=
  if printable t then Ok (toString L t) else Raise ValueError.

Definition repr_node (L : pylib) (t : node) : result string :=
  if printable t then Ok (toRepr L t) else Raise ValueError.

(** *** The room for nested calls *)

(** The methods of the tree call themselves on the children of a node,
    and the interpreter has room for a limited number of nested calls only:
    beyond it, it raises [RecursionError], which nothing in the code catches.
    The functions below are the methods with that room, [depth], as an
    argument, counted in nested calls of the method; where it runs out their
    outcome is [Unfinished], as it is for [parse_partial] where the fuel runs
    out. [evaluate], [simplify], [derivative] and [toString] above are the
    same methods with room for any number of calls. What a call takes
    besides (the frames of a constructor, of [__eq__] on the trees it
    compares, of [math]) is not counted: it is bounded for a given tree, so
    that the statements say that some room is enough, and what happens
    with less, not how many frames the interpreter needs. *)

(** The number of nodes on the longest path from the root to a leaf. *)
Fixpoint height (t : node) : nat :=
  match t with
  | Number _ | Var _ => 1
  | Binary _ x y => S (Nat.max (height x) (height y))
  | Unary _ x | Negate x => S (height x)
  end.

Section Bounded.

Variable L : pylib.

Fixpoint evaluate_in (depth : nat) (t : node) (bindings : gmap string number)
  : result number :=
  match depth with
  | O => Unfinished
  | S depth =>
      match t with
      | Number symbol => Ok symbol
      | Var symbol => Variable_evaluate symbol bindings
      | Binary c x y =>
          do a <- evaluate_in depth x bindings;
          do b <- evaluate_in depth y bindings;
          binary_evaluate L c a b
      | Unary Abs _ => Raise AttributeError
      | Unary c x =>
          do a <- evaluate_in depth x bindings;
          unary_evaluate L c a
      | Negate x =>
          do a <- evaluate_in depth x bindings;
          py_mul (PyInt (-1)) a
      end
  end.

Definition Function_simplify_in (depth : nat) (self : node) : result node :=
  if forallb is_float_Number (children self)
  then do v <- evaluate_in depth self ∅; Ok (Number v)
  else Ok self.

Fixpoint simplify_in (depth : nat) (t : node) : result node :=
  match depth with
  | O => Unfinished
  | S depth =>
      match t with
      | Number _ | Var _ => Ok t
      | Binary c x y =>
          do x' <- simplify_in depth x;
          do y' <- simplify_in depth y;
          do self <- Function_simplify_in depth (Binary c x' y');
          Ok (class_simplify self)
      | Unary c x =>
          do x' <- simplify_in depth x;
          do self <- Function_simplify_in depth (Unary c x');
          Ok (class_simplify self)
      | Negate x =>
          do x' <- simplify_in depth x;
          do self <- Function_simplify_in depth (Negate x');
          Ok (class_simplify self)
      end
  end.

Definition unary_derivative_in (depth : nat) (c : unary_function) (x x' : node)
  : result node :=
  match c with
  | Ln => simplify_in depth (Binary Divide x' x)
  | Sine => simplify_in depth (Binary Multiply (Unary Cosine x) x')
  | Cosine => simplify_in depth (Binary Multiply (Negate (Unary Sine x)) x')
  | Tangent =>
      simplify_in depth (Binary Multiply (Binary Power (Unary Secant x) NUMBER_2) x')
  | Secant =>
      simplify_in depth
        (Binary Multiply (Binary Multiply (Unary Secant x) (Unary Tangent x)) x')
  | Cotangent =>
      simplify_in depth
        (Binary Multiply (Negate (Binary Power (Unary Cosecant x) NUMBER_2)) x')
  | Cosecant =>
      simplify_in depth
        (Binary Multiply
           (Binary Multiply (Negate (Unary Cosecant x)) (Unary Cotangent x)) x')
  | Sqrt =>
      simplify_in depth
        (Binary Multiply
           (Binary Divide NUMBER_1 (Binary Multiply NUMBER_2 (Unary Sqrt x))) x')
  | Abs => simplify_in depth (Binary Multiply (Unary Sign x) x')
  | Sign => Ok NUMBER_0
  | Arcsin =>
      simplify_in depth
        (Binary Multiply
           (Binary Divide NUMBER_1
              (Unary Sqrt (Binary Subtract NUMBER_1 (Binary Power x NUMBER_2))))
           x')
  end.

Fixpoint derivative_in (depth : nat) (t : node) (symbol : string) : result node :=
  match depth with
  | O => Unfinished
  | S depth =>
      match t with
      | Number _ => Ok NUMBER_0
      | Var s => if String.eqb s symbol then Ok NUMBER_1 else Ok NUMBER_0
      | Binary Add x y =>
          do x' <- derivative_in depth x symbol;
          do y' <- derivative_in depth y symbol;
          simplify_in depth (Binary Add x' y')
      | Binary Multiply x y =>
          do x' <- derivative_in depth x symbol;
          do y' <- derivative_in depth y symbol;
          simplify_in depth (Binary Add (Binary Multiply x' y) (Binary Multiply y' x))
      | Binary Subtract x y =>
          do x' <- derivative_in depth x symbol;
          do y' <- derivative_in depth y symbol;
          simplify_in depth
            (Binary Subtract (Binary Multiply x' y) (Binary Multiply y' x))
      | Binary Divide x y =>
          do x' <- derivative_in depth x symbol;
          do y' <- derivative_in depth y symbol;
          simplify_in depth
            (Binary Divide
               (Binary Subtract (Binary Multiply x' y) (Binary Multiply y' x))
               (Binary Power y NUMBER_2))
      | Binary Power z y =>
          do y' <- derivative_in depth y symbol;
          do z' <- derivative_in depth z symbol;
          simplify_in depth
            (Binary Multiply t
               (Binary Add (Binary Multiply y' (Unary Ln z))
                           (Binary Divide (Binary Multiply z' y) z)))
      | Unary Sign _ => Ok NUMBER_0
      | Unary c x =>
          do x' <- derivative_in depth x symbol;
          unary_derivative_in depth c x x'
      | Negate x =>
          do x' <- derivative_in depth x symbol;
          simplify_in depth (Negate x')
      end
  end.

(** [__str__]: [Leaf.__str__] is [str] of the symbol, which fails on an
    [int] of too many digits. *)
Fixpoint str_in (depth : nat) (t : node) : result string :=
  match depth with
  | O => Unfinished
  | S depth =>
      match t with
      | Number symbol => str_number L symbol
      | Var symbol => Ok symbol
      | Unary c x =>
          do s <- str_in depth x;
          Ok (unary_symbol c ++ "(" ++ s ++ ")")
      | Negate child =>
          do s <- str_in depth child;
          Ok (if is_Operator child && Qltb (precedence child) Negate_precedence
              then "-" ++ "(" ++ s ++ ")"
              else "-" ++ s)
      | Binary c lhs rhs =>
          do left_str <- str_in depth lhs;
          do right_str <- str_in depth rhs;
          let left_str :=
            if is_Operator lhs
               && (Qltb (precedence lhs) (binary_precedence c)
                   || (Qeq_bool (precedence lhs) (binary_precedence c)
                       && negb (is_left_associative c)))
            then parenthesize left_str else left_str in
          let right_str :=
            if is_Operator rhs
               && (Qltb (precedence rhs) (binary_precedence c)
                   || (Qeq_bool (precedence rhs) (binary_precedence c)
                       && negb (is_right_associative c)))
            then parenthesize right_str else right_str in
          Ok (left_str ++ str_spacing c ++ binary_symbol c ++ str_spacing c
              ++ right_str)
      end
  end.

(** [__repr__] *)
Fixpoint repr_in (depth : nat) (t : node) : result string :=
  match depth with
  | O => Unfinished
  | S depth =>
      match t with
      | Number symbol => do s <- str_number L symbol; Ok ("Number(" ++ s ++ ")")
      | Var symbol => Ok ("Variable(" ++ str_repr symbol ++ ")")
      | Binary c x y =>
          do a <- repr_in depth x;
          do b <- repr_in depth y;
          Ok (binary_name c ++ "([" ++ a ++ ", " ++ b ++ "])")
      | Unary c x => do a <- repr_in depth x; Ok (unary_name c ++ "([" ++ a ++ "])")
      | Negate x => do a <- repr_in depth x; Ok ("Negate([" ++ a ++ "])")
      end
  end.

End Bounded.

(** The outcome [r] of a call with limited room, against the outcome [r']
    of the same call with room for any number of nested calls: the room ran
    out, or the outcomes are the same. *)
Definition within {A : Type} (r r' : result A) : Prop := r = Unfinished \/ r = r'.

(** ** The prompts: [eval_prompt.py], [ddx_prompt.py], [debug_prompt.py] *)

(** How a session at a prompt ends: [exit()] was entered; [input] found
    the input at its end (it raises [EOFError], kept apart from the
    exceptions of the library); a line raised an exception, which nothing
    catches; or a line found no room for its nested calls, which is the
    interpreter's [RecursionError]. *)
Inductive ending : Type :=
| Exited
| EndOfInput
| Failed (e : exn)
| Unanswered.

(** What the body of a loop writes for one line, and how it ends. The
    texts that [print] writes are listed without their newline, the
    prompts that [input] writes as they are. *)
Definition reply : Type := list string * result unit.

(** The loop common to the three files: [body] is what follows the test
    for [exit()]. The lines are those that [input] returns. *)
Fixpoint prompt_loop (prompt : string) (body : string -> reply) (lines : list string)
  : list string * ending :=
  match lines with
  | [] => ([prompt], EndOfInput)
  | text :: lines =>
      if String.eqb text "exit()" then ([prompt], Exited)
      else
        let (printed, outcome) := body text in
        match outcome with
        | Ok _ =>
            let (rest, e) := prompt_loop prompt body lines in
            (prompt :: (printed ++ rest)%list, e)
        | Raise e => (prompt :: printed, Failed e)
        | Unfinished => (prompt :: printed, Unanswered)
        end
  end.

(** A statement of a body, run when [printed] has been written: where it
    does not return, the body ends with what was written. *)
Definition after {A : Type} (printed : list string) (r : result A)
    (k : A -> reply) : reply :=
  match r with
  | Ok a => k a
  | Raise e => (printed, Raise e)
  | Unfinished => (printed, Unfinished)
  end.

(** [parse(tokenized)], the tree only. [room] is the room for nested calls
    that the interpreter has at the prompt, the same for every call of a
    body. *)
Definition parse_tokens (room : nat) (tokenized : list string)
  : result (option node) :=
  do '(parsed, _) <- parse room tokenized; Ok parsed.

(** Lines 8-12 of [eval_prompt.py]. *)
Definition eval_body (L : pylib) (room : nat) (text : string) : reply :=
  let tokenized := tokenize text in
  after [] (parse_tokens room tokenized) (fun parsed =>
  match parsed with
  | Some parsed =>
      after [] (evaluate_in L room parsed ∅) (fun evaluated =>
      after [] (str_number L evaluated) (fun s =>
      ([">>> " ++ s], Ok tt)))
  | None => ([], Ok tt)
  end).

Definition eval_prompt (L : pylib) (room : nat)
  : list string -> list string * ending :=
  prompt_loop "evl> " (eval_body L room).

(** Lines 8-12 of [ddx_prompt.py]. *)
Definition ddx_body (L : pylib) (room : nat) (text : string) : reply :=
  let tokenized := tokenize text in
  after [] (parse_tokens room tokenized) (fun parsed =>
  match parsed with
  | Some parsed =>
      after [] (derivative_in L room parsed "x") (fun d =>
      after [] (str_in L room d) (fun s =>
      ([">>> " ++ s], Ok tt)))
  | None => ([], Ok tt)
  end).

Definition ddx_prompt (L : pylib) (room : nat)
  : list string -> list string * ending :=
  prompt_loop "ddx> " (ddx_body L room).

(** Lines 8-17 of [debug_prompt.py]: the tokens are printed before
    [parse] lengthens the list; [parsed] is used without a test for [None],
    on which [repr] and [str] give ["None"] and a method call raises
    [AttributeError]. *)
Definition debug_body (L : pylib) (room : nat) (text : string) : reply :=
  let tokenized := tokenize text in
  let printed := ["tok >> " ++ list_repr tokenized] in
  after printed (parse_tokens room tokenized) (fun parsed =>
  match parsed with
  | None =>
      ((printed ++ ["prs >> None"; "str >> None"])%list, Raise AttributeError)
  | Some parsed =>
      after printed (repr_in L room parsed) (fun r =>
      let printed := (printed ++ [("prs >> " ++ r)%string])%list in
      after printed (str_in L room parsed) (fun stringified =>
      let printed := (printed ++ [("str >> " ++ stringified)%string])%list in
      after printed (simplify_in L room parsed) (fun simplified =>
      after printed (str_in L room simplified) (fun s =>
      let printed := (printed ++ [("smp >> " ++ s)%string])%list in
      after printed (derivative_in L room parsed "x") (fun d =>
      after printed (str_in L room d) (fun s =>
      ((printed ++ [("ddx >> " ++ s)%string])%list, Ok tt)))))))
  end).

Definition debug_prompt (L : pylib) (room : nat)
  : list string -> list string * ending :=
  prompt_loop "> " (debug_body L room).

(** ** Notions used in the statements *)

Definition finished {A : Type} (r : result A) : Prop := r <> Unfinished.

Definition refines (rec1 rec2 : list string -> nat -> limit -> option node
                             -> result (node * nat * list string)) : Prop :=
  forall tokens index limiting_operator previous,
    finished (rec1 tokens index limiting_operator previous) ->
    rec2 tokens index limiting_operator previous
    = rec1 tokens index limiting_operator previous.

(** [type(self)(children)]: the node of the same class over other children. *)
Definition rebuild (t : node) (cs : list node) : node :=
  match t, cs with
  | Binary c _ _, [x; y] => Binary c x y
  | Unary c _, [x] => Unary c x
  | Negate _, [x] => Negate x
  | _, _ => t
  end.

(** [[f(c) for c in cs]], stopping at the first exception. *)
Fixpoint for_each {A B : Type} (f : A -> result B) (cs : list A) : result (list B) :=
  match cs with
  | [] => Ok []
  | c :: cs => do b <- f c; do bs <- for_each f cs; Ok (b :: bs)
  end.

(** Characters that start or continue no token. *)
Definition skipped_char (c : ascii) : bool :=
  negb (is_operator_char c || is_digit c || is_letter c).

Fixpoint all_chars (p : ascii -> bool) (s : string) : bool :=
  match s with
  | EmptyString => true
  | String c rest => p c && all_chars p rest
  end.

(** [simplify(derivative(parse(tokenize(s)), v))] rendered by [__str__]. *)
Definition rendered_derivative (L : pylib) (fuel : nat) (s v : string) : result string :=
  do t <- parse_text fuel s;
  do d <- derivative L t v;
  do r <- simplify L d;
  Ok (toString L r).

(** [Negate([y])] is left as it is by [Negate.simplify] when [y] itself
    is: [y] is no float to fold, no [Negate] to cancel, and not zero. *)
Definition settles_under_Negate (y : node) : bool :=
  negb (is_float_Number y)
  && match y with
     | Negate _ => false
     | _ => negb (node_eq y NUMBER_0)
     end.

(** Whether [simplify t] applies, at some node, [Subtract]'s rule
    [0 - y -> -y] to a [y] that does not settle under [Negate]: a [Subtract]
    node that is not folded to a constant, whose simplified left operand
    equals zero and whose simplified right operand is such a [y]. *)
Fixpoint leaves_unsettled_Negate (L : pylib) (t : node) : bool :=
  match t with
  | Number _ | Var _ => false
  | Binary c x y =>
      leaves_unsettled_Negate L x || leaves_unsettled_Negate L y
      || match c, simplify L x, simplify L y with
         | Subtract, Ok x', Ok y' =>
             negb (forallb is_float_Number [x'; y'])
             && (node_eq x' NUMBER_0 && negb (settles_under_Negate y'))
         | _, _, _ => false
         end
  | Unary _ x | Negate x => leaves_unsettled_Negate L x
  end.

Fixpoint has_Subtract (t : node) : bool :=
  match t with
  | Number _ | Var _ => false
  | Binary c x y =>
      match c with Subtract => true | _ => has_Subtract x || has_Subtract y end
  | Unary _ x | Negate x => has_Subtract x
  end.

(** No float in the tree is a NaN (the one number that differs from itself). *)
Fixpoint nan_free (t : node) : bool :=
  match t with
  | Number (PyInt _) | Var _ => true
  | Number (PyFloat f) => negb (PrimFloat.is_nan f)
  | Binary _ x y => nan_free x && nan_free y
  | Unary _ x | Negate x => nan_free x
  end.

(** [t] and all its subtrees are left as they are by [simplify]. *)
Fixpoint all_stable (L : pylib) (t : node) : Prop :=
  simplify L t = Ok t
  /\ match t with
     | Number _ | Var _ => True
     | Binary _ x y => all_stable L x /\ all_stable L y
     | Unary _ x | Negate x => all_stable L x
     end.

(** [l'] is [l] with some ["*"] tokens inserted and nothing else changed. *)
Inductive star_inserted : list string -> list string -> Prop :=
| star_inserted_nil : star_inserted [] []
| star_inserted_keep t l l' :
    star_inserted l l' -> star_inserted (t :: l) (t :: l')
| star_inserted_star l l' :
    star_inserted l l' -> star_inserted l ("*" :: l').

(** Implicit multiplication applies at [new_index]: the token there is
    ["("], or it is classified (with a previous operand) as something
    other than a binary operator. *)
Definition juxtaposed (tokens : list string) (new_index : nat) : Prop :=
  exists token, tokens !! new_index = Some token
    /\ (token = "("
        \/ exists p, parse_primitive token true = Ok p
             /\ forall c, p <> Class (BinaryClass c)).

Definition hands_back_stars
    (rec : list string -> nat -> limit -> option node
           -> result (node * nat * list string)) : Prop :=
  forall tokens index limiting_operator previous t i tokens',
    rec tokens index limiting_operator previous = Ok (t, i, tokens') ->
    star_inserted tokens tokens'.

(** [parse(tokenize(str(t)))], with [fuel] as the room for the nested
    calls of [__str__] and of [parse_partial]. *)
Definition reparsed (L : pylib) (fuel : nat) (t : node) : result node :=
  do s <- str_in L fuel t; parse_text fuel s.

(** *** Rendering, token by token *)

(** The three tests of [__str__] for putting a child in parentheses. *)
Definition wraps_child_of_Negate (child : node) : bool :=
  is_Operator child && Qltb (precedence child) Negate_precedence.

Definition wraps_left (c : binary_operator) (lhs : node) : bool :=
  is_Operator lhs
  && (Qltb (precedence lhs) (binary_precedence c)
      || (Qeq_bool (precedence lhs) (binary_precedence c)
          && negb (is_left_associative c))).

Definition wraps_right (c : binary_operator) (rhs : node) : bool :=
  is_Operator rhs
  && (Qltb (precedence rhs) (binary_precedence c)
      || (Qeq_bool (precedence rhs) (binary_precedence c)
          && negb (is_right_associative c))).

Definition wrap (b : bool) (ts : list string) : list string :=
  if b then "(" :: ts ++ [")"] else ts.

(** The tokens of the text [toString L t], for the trees considered below. *)
Fixpoint tokens_of (L : pylib) (t : node) : list string :=
  match t with
  | Number _ | Var _ => [toString L t]
  | Unary c x => unary_symbol c :: "(" :: tokens_of L x ++ [")"]
  | Negate child => "-" :: wrap (wraps_child_of_Negate child) (tokens_of L child)
  | Binary c lhs rhs =>
      wrap (wraps_left c lhs) (tokens_of L lhs)
      ++ binary_symbol c :: wrap (wraps_right c rhs) (tokens_of L rhs)
  end.

(** The text of [t] begins with the minus sign of a [Negate] or of a
    negative integer. *)
Fixpoint starts_minus (t : node) : bool :=
  match t with
  | Negate _ => true
  | Binary c lhs _ => negb (wraps_left c lhs) && starts_minus lhs
  | Number (PyInt z) => z <? 0
  | _ => false
  end.

(** A variable name that is one token and not the name of a function. *)
Definition plain_name (s : string) : bool :=
  match s with
  | EmptyString => false
  | _ => all_chars is_letter s
  end
  && match unary_functions_dict s with Some _ => false | None => true end.

(** A right operand that [__str__] does not put in parentheses although
    the parser will not group it to the right: a sum or difference under
    [Add], a product or quotient under [Multiply]. *)
Definition regroups (c : binary_operator) (rhs : node) : bool :=
  match c, rhs with
  | Add, Binary (Add | Subtract) _ _ => true
  | Multiply, Binary (Multiply | Divide) _ _ => true
  | _, _ => false
  end.

(** Digits, a point, digits: at least one digit before the point. *)
Definition plain_decimal (s : string) : bool :=
  let (whole, r) := span is_digit s in
  match whole, r with
  | String _ _, String "."%char fraction => all_chars is_digit fraction
  | _, _ => false
  end.

(** A number whose text is unsigned and reads back as the number: an
    integer that is not negative and has no more digits than [str] and [int]
    allow; a float when [str] writes it in plain decimal notation and [float]
    of that text is the float again. *)
Definition reads_back (L : pylib) (n : number) : Prop :=
  match n with
  | PyInt z => 0 <= z /\ (int_digits z <= digit_limit)%nat
  | PyFloat f =>
      plain_decimal (float_repr L f) = true
      /\ float_of_token (float_repr L f) = Some f
  end.

(** The trees considered: number leaves read back, variables have plain
    names; no right operand regroups; and a right operand rendered without
    parentheses does not begin with a minus sign. *)
Fixpoint renders_unambiguously (L : pylib) (t : node) : Prop :=
  match t with
  | Number n => reads_back L n
  | Var s => plain_name s = true
  | Unary _ x | Negate x => renders_unambiguously L x
  | Binary c lhs rhs =>
      renders_unambiguously L lhs /\ renders_unambiguously L rhs
      /\ regroups c rhs = false
      /\ (wraps_right c rhs = true \/ starts_minus rhs = false)
  end.

(** The operator at the top of [t], if any, lets a parse limited by
    [limiting_operator] go on. *)
Definition chain_continues (t : node) (limiting_operator : limit) : bool :=
  match t with
  | Binary c _ _ => continues c limiting_operator
  | _ => true
  end.

(** A parse limited by [limiting_operator] stops in front of [next]: no
    token, [")"], or a binary operator that does not continue. *)
Definition halts (next : option string) (limiting_operator : limit) : bool :=
  match next with
  | None => true
  | Some token =>
      String.eqb token ")"
      || match binary_operators_dict token with
         | Some c => negb (continues c limiting_operator)
         | None => false
         end
  end.

Definition right_edge_halts (next : option string) (t : node) : bool :=
  match t with
  | Binary c _ _ => halts next (LimitBinary c)
  | Negate _ => halts next LimitNegate
  | _ => true
  end.

(** [parse_partial], and [parse_rest] inside it, with fuel enough to finish. *)
Definition Parses (tokens : list string) (index : nat) (limiting_operator : limit)
    (previous : option node) (r : node * nat * list string) : Prop :=
  exists fuel, parse_partial fuel tokens index limiting_operator previous = Ok r.

Definition Rest (tokens : list string) (parsed : node) (new_index : nat)
    (limiting_operator : limit) (r : node * nat * list string) : Prop :=
  exists fuel,
    parse_rest (parse_partial fuel) parsed new_index tokens limiting_operator = Ok r.

(** What the induction on the tokens proves of a tree [x]. *)
Definition parses_back (L : pylib) (x : node) : Prop :=
  forall (T : list string) i (post : list string) lim prev r,
    drop i T = (tokens_of L x ++ post)%list ->
    prev = None \/ starts_minus x = false ->
    chain_continues x lim = true ->
    right_edge_halts (head post) x = true ->
    Rest T x (i + length (tokens_of L x)) lim r ->
    Parses T i lim prev r.

(** A text that cannot lengthen a number or a name standing before it. *)
Definition delimited (rest : string) : bool :=
  match rest with
  | EmptyString => true
  | String c _ => negb (is_digit c || is_letter c || Ascii.eqb c ".")
  end.

(** What the induction on the text proves of a tree [x]. *)
Definition tokenizes_back (L : pylib) (x : node) : Prop :=
  forall rest, delimited rest = true ->
    tokenize (toString L x ++ rest) = (tokens_of L x ++ tokenize rest)%list.

(** An instance of [pylib] for closed examples: every entry raises. None
    of the examples stated with it reaches an entry, so each holds for every
    other instance as well. *)
Definition no_floats : pylib := {|
  math_log := fun _ => Raise ValueError;
  math_sin := fun _ => Raise ValueError;
  math_cos := fun _ => Raise ValueError;
  math_tan := fun _ => Raise ValueError;
  math_asin := fun _ => Raise ValueError;
  float_pow := fun _ _ => Raise ValueError;
  float_repr := fun _ => EmptyString
|}.


(** *** A measure for the parser *)

(** A binary operator symbol weighs 1, any other token 2: the ["*"] that
    [parse_partial] inserts weighs less than the operand in front of it. *)
Definition token_weight (token : string) : nat :=
  match binary_operators_dict token with
  | Some _ => 1
  | None => 2
  end.

Definition weight (tokens : list string) : nat :=
  foldr (fun token n => (token_weight token + n)%nat) 0%nat tokens.

(** A call of [parse_partial] at [index] has come to an end and, where it
    returned, [new_index] lies further right and the tokens from there on
    weigh less than the tokens from [index] on did before the call. *)
Definition advances (tokens : list string) (index : nat)
    (r : result (node * nat * list string)) : Prop :=
  match r with
  | Ok (_, new_index, tokens') =>
      (index < new_index)%nat
      /\ (weight (drop new_index tokens') < weight (drop index tokens))%nat
  | Raise _ => True
  | Unfinished => False
  end.

Definition advancing (n : nat)
    (rec : list string -> nat -> limit -> option node
           -> result (node * nat * list string)) : Prop :=
  forall tokens index limiting_operator previous,
    (weight (drop index tokens) < n)%nat ->
    advances tokens index (rec tokens index limiting_operator previous).


(** *** The tokens of the lexer *)

(** The three kinds of token the pattern of [tokenize] matches: one
    operator character or parenthesis; digits with, optionally, a point and
    digits after it, or a point and digits; letters. *)
Definition operator_token (token : string) : bool :=
  match token with
  | String c EmptyString => is_operator_char c
  | _ => false
  end.

Definition number_token (token : string) : bool :=
  let (whole, r) := span is_digit token in
  match r with
  | EmptyString => negb (String.eqb whole "")
  | String "."%char fraction =>
      all_chars is_digit fraction && negb (String.eqb (whole ++ fraction) "")
  | _ => false
  end.

Definition name_token (token : string) : bool :=
  all_chars is_letter token && negb (String.eqb token "").

Definition lexeme (token : string) : bool :=
  operator_token token || number_token token || name_token token.

(** Characters that always reach a token. *)
Definition significant (c : ascii) : bool :=
  is_operator_char c || is_digit c || is_letter c.

Fixpoint filter_chars (p : ascii -> bool) (s : string) : string :=
  match s with
  | EmptyString => ""
  | String c rest => if p c then String c (filter_chars p rest) else filter_chars p rest
  end.

(** [''.join(tokens)] *)
Definition joined (tokens : list string) : string := foldr String.append "" tokens.

(** The exceptions [parse] raises on tokens of the lexer. *)
Definition parser_message (msg : string) : bool :=
  String.eqb msg "Mismatched parentheses"
  || String.eqb msg "Unary function calls require parentheses"
  || String.eqb msg "Mismatched parentheses in unary function call"
  || String.eqb msg "Binary operator missing first argument".

Definition parse_error (e : exn) : bool :=
  match e with
  | AssertionError msg => parser_message msg
  | SyntaxError | IndexError => true
  | _ => false
  end.

(** A call of [parse_partial] on tokens of the lexer hands back tokens of
    the lexer, or raises one of the parser's own exceptions. *)
Definition keeps_lexemes
    (rec : list string -> nat -> limit -> option node
           -> result (node * nat * list string)) : Prop :=
  forall tokens index limiting_operator previous,
    Forall (fun token => lexeme token = true) tokens ->
    match rec tokens index limiting_operator previous with
    | Ok (_, _, tokens') => Forall (fun token => lexeme token = true) tokens'
    | Raise e => parse_error e = true
    | Unfinished => True
    end.


(** *** Kinds of tree *)

(** The names of the variables of a tree, left to right. *)
Fixpoint variables (t : node) : list string :=
  match t with
  | Number _ => []
  | Var s => [s]
  | Binary _ x y => variables x ++ variables y
  | Unary _ x | Negate x => variables x
  end.

(** The number of nodes. *)
Fixpoint size (t : node) : nat :=
  match t with
  | Number _ | Var _ => 1
  | Binary _ x y => S (size x + size y)
  | Unary _ x | Negate x => S (size x)
  end.

(** No [Number] of the tree holds a float. *)
Fixpoint float_free (t : node) : bool :=
  match t with
  | Number (PyInt _) | Var _ => true
  | Number (PyFloat _) => false
  | Binary _ x y => float_free x && float_free y
  | Unary _ x | Negate x => float_free x
  end.


Fixpoint has_Abs (t : node) : bool :=
  match t with
  | Number _ | Var _ => false
  | Binary _ x y => has_Abs x || has_Abs y
  | Unary c x => match c with Abs => true | _ => has_Abs x end
  | Negate x => has_Abs x
  end.

Definition arithmetic_class (c : binary_operator) : bool :=
  match c with
  | Add | Subtract | Multiply => true
  | _ => false
  end.




(** What the classes of an arithmetic tree do on two [int]s. *)
Definition int_operation (c : binary_operator) (x y : Z) : Z :=
  match c with
  | Add => x + y
  | Subtract => x - y
  | _ => x * y
  end.




(** The call returned a value. *)
Definition returns {A : Type} (r : result A) : bool :=
  match r with
  | Ok _ => true
  | _ => false
  end.


(** *** What the parser builds from which tokens *)

(** A primitive that only leads to trees with the property [Q]: a leaf
    with the property, or a class whose nodes have it when their children
    have. *)
Definition allowed (Q : node -> Prop) (p : primitive) : Prop :=
  match p with
  | Instance t => Q t
  | Class (BinaryClass c) => forall x y, Q x -> Q y -> Q (Binary c x y)
  | Class (UnaryClass c) => forall x, Q x -> Q (Unary c x)
  | Class NegateClass => forall x, Q x -> Q (Negate x)
  end.

(** On tokens with the property [P], and a previous operand with the
    property [Q], a call of [parse_partial] returns a tree with the property
    [Q] and tokens with the property [P]. *)
Definition builds (P : string -> Prop) (Q : node -> Prop)
    (rec : list string -> nat -> limit -> option node
           -> result (node * nat * list string)) : Prop :=
  forall tokens index limiting_operator previous,
    Forall P tokens ->
    (forall p, previous = Some p -> Q p) ->
    match rec tokens index limiting_operator previous with
    | Ok (t, _, tokens') => Q t /\ Forall P tokens'
    | _ => True
    end.

(** A text without a decimal point. *)
Definition no_point (s : string) : bool :=
  all_chars (fun c => negb (Ascii.eqb c ".")) s.

(** A token that [int] reads where it is made of digits only: it has at
    most [digit_limit] of them. *)
Definition short_literal (token : string) : bool :=
  negb (all_chars is_digit token) || (String.length token <=? digit_limit)%nat.

(** A text whose whole numbers have at most [digit_limit] digits each. *)
Definition short_literals (s : string) : bool := forallb short_literal (tokenize s).

(** The characters of integer arithmetic: digits, [+ - * ( )] and the
    blank. *)
Definition integer_char (c : ascii) : bool :=
  is_digit c || existsb (Ascii.eqb c) (list_ascii_of_string "+-*() ").

(** Sums, differences, products and negations of [int]s. *)
Fixpoint integer_arithmetic (t : node) : bool :=
  match t with
  | Number (PyInt _) => true
  | Binary c x y => arithmetic_class c && integer_arithmetic x && integer_arithmetic y
  | Negate x => integer_arithmetic x
  | _ => false
  end.


(** A session that ended by [exit()], at the end of the input, or with
    an exception among [errors]. *)
Definition ends_with (errors : exn -> bool) (e : ending) : Prop :=
  match e with
  | Exited | EndOfInput => True
  | Failed e => errors e = true
  | Unanswered => False
  end.

(** The same, the exceptions being those of the parser. *)
Definition ends_well (e : ending) : Prop := ends_with parse_error e.

(** What the body of a loop did on a line: it went on to the next line,
    or raised an exception among [errors]. *)
Definition replies (errors : exn -> bool) (r : reply) : Prop :=
  match snd r with
  | Ok _ => True
  | Raise e => errors e = true
  | Unfinished => False
  end.

(** The same, or it ran out of room for its nested calls
    ([RecursionError]). *)
Definition replies_within (errors : exn -> bool) (r : reply) : Prop :=
  match snd r with
  | Ok _ => True
  | Raise e => errors e = true
  | Unfinished => True
  end.

(** The exceptions of the parser, and the [AttributeError] of a method
    called on [None]. *)
Definition debug_error (e : exn) : bool :=
  parse_error e || match e with AttributeError => true | _ => false end.

(** The exceptions of the parser, and the [ValueError] of [str] on an [int]
    of more than [digit_limit] digits. *)
Definition eval_error (e : exn) : bool :=
  parse_error e || match e with ValueError => true | _ => false end.

(** A session that ended as [ends_with] says, or where a line found no
    room for its nested calls ([RecursionError]). *)
Definition ends_within (errors : exn -> bool) (e : ending) : Prop :=
  match e with
  | Unanswered => True
  | _ => ends_with errors e
  end.

(** A body that, on a line with the property [P], goes on to the next
    line, raises an exception among [errors], or runs out of room. *)
Definition answers_within (errors : exn -> bool) (P : string -> Prop)
    (body : string -> reply) : Prop :=
  forall text, P text -> replies_within errors (body text).

(** A line that the prompts of [ddx_prompt.py] and [debug_prompt.py] read
    without a float: no decimal point, no whole number beyond the digits
    that [int] reads. *)
Definition whole_line (text : string) : Prop :=
  no_point text = true /\ short_literals text = true.

(** A line of integer arithmetic on whole numbers that [int] reads. *)
Definition integer_line (text : string) : Prop :=
  all_chars integer_char text = true /\ short_literals text = true.


(** *** Parentheses *)

(** The number of tokens equal to [s]. *)
Definition count_token (s : string) (tokens : list string) : nat :=
  length (List.filter (String.eqb s) tokens).

(** As many opening as closing parentheses. *)
Definition balanced (tokens : list string) : Prop :=
  count_token "(" tokens = count_token ")" tokens.

(** The tokens from [index] up to [new_index]. *)
Definition segment (index new_index : nat) (tokens : list string) : list string :=
  drop index (take new_index tokens).

(** From [index] in [tokens] the parser has come to [new_index] in
    [tokens']: the tokens before [index] are as they were, and those passed
    since are balanced. *)
Definition reached (tokens : list string) (index : nat)
    (tokens' : list string) (new_index : nat) : Prop :=
  (index <= new_index <= length tokens')%nat
  /\ take index tokens' = take index tokens
  /\ balanced (segment index new_index tokens').

Definition spans (tokens : list string) (index : nat)
    (r : result (node * nat * list string)) : Prop :=
  match r with
  | Ok (_, new_index, tokens') => reached tokens index tokens' new_index
  | _ => True
  end.

Definition spanning
    (rec : list string -> nat -> limit -> option node
           -> result (node * nat * list string)) : Prop :=
  forall tokens index limiting_operator previous,
    spans tokens index (rec tokens index limiting_operator previous).


(** * Properties *)

(** ** Fuel: more of it never changes a finished parse *)

Lemma bind_finished {A B : Type} (r : result A) (k : A -> result B) :
  finished (bind r k) -> finished r.
Proof. destruct r; unfold finished; simpl; congruence. Qed.

Ltac by_refinement rec1 Href Hfin :=
  match type of Hfin with
  | context [rec1 ?t ?i ?l ?p] =>
      let E := fresh "E" in
      destruct (rec1 t i l p) as [[[? ?] ?]|?|] eqn:E;
      [ rewrite (Href t i l p) by (rewrite E; discriminate); rewrite ?E
      | rewrite (Href t i l p) by (rewrite E; discriminate); rewrite ?E
      | exfalso; apply Hfin; reflexivity ];
      cbn [bind] in *
  end.

Section Refinement.

Variables rec1 rec2 : list string -> nat -> limit -> option node
                      -> result (node * nat * list string).
Hypothesis Href : refines rec1 rec2.

Lemma parse_first_mono tokens index token previous :
  finished (parse_first rec1 tokens index token previous) ->
  parse_first rec2 tokens index token previous
  = parse_first rec1 tokens index token previous.
Proof.
  unfold parse_first. intros Hfin.
  destruct (String.eqb token "("); [|reflexivity].
  by_refinement rec1 Href Hfin; reflexivity.
Qed.

Lemma apply_class_mono parsed new_index tokens previous :
  finished (apply_class rec1 parsed new_index tokens previous) ->
  apply_class rec2 parsed new_index tokens previous
  = apply_class rec1 parsed new_index tokens previous.
Proof.
  unfold apply_class. intros Hfin.
  destruct parsed as [t|[c|c|]]; [reflexivity| | |].
  - destruct previous as [previous|]; [|reflexivity].
    by_refinement rec1 Href Hfin; reflexivity.
  - destruct (assert _ _); cbn [bind] in *; [|reflexivity|reflexivity].
    by_refinement rec1 Href Hfin; reflexivity.
  - by_refinement rec1 Href Hfin; reflexivity.
Qed.

Lemma parse_rest_mono parsed new_index tokens limiting_operator :
  finished (parse_rest rec1 parsed new_index tokens limiting_operator) ->
  parse_rest rec2 parsed new_index tokens limiting_operator
  = parse_rest rec1 parsed new_index tokens limiting_operator.
Proof.
  unfold parse_rest. intros Hfin.
  destruct (_ && _); [|reflexivity].
  destruct (next_operator tokens new_index) as [[tokens' next]|e|];
    cbn [bind] in *; [|reflexivity|reflexivity].
  destruct (continues next limiting_operator); [|reflexivity].
  apply Href, Hfin.
Qed.

Lemma parse_partial_body_mono :
  refines (parse_partial_body rec1) (parse_partial_body rec2).
Proof.
  intros tokens index lim previous Hfin.
  unfold parse_partial_body in *.
  destruct (tokens !! index) as [token|]; [|reflexivity].
  pose proof (bind_finished _ _ Hfin) as H1.
  rewrite (parse_first_mono _ _ _ _ H1).
  destruct (parse_first rec1 tokens index token previous)
    as [[[parsed new_index] tokens1]|e|]; cbn [bind] in *; [|reflexivity..].
  pose proof (bind_finished _ _ Hfin) as H2.
  rewrite (apply_class_mono _ _ _ _ H2).
  destruct (apply_class rec1 parsed (new_index + 1) tokens1 previous)
    as [[[parsed' new_index'] tokens2]|e|]; cbn [bind] in *; [|reflexivity..].
  apply parse_rest_mono, Hfin.
Qed.

End Refinement.

Lemma parse_partial_mono fuel :
  forall fuel', (fuel <= fuel')%nat -> refines (parse_partial fuel) (parse_partial fuel').
Proof.
  induction fuel as [|fuel IH]; intros fuel' Hle tokens index lim previous Hfin.
  - exfalso. apply Hfin. reflexivity.
  - destruct fuel' as [|fuel']; [lia|].
    cbn [parse_partial] in *.
    apply (parse_partial_body_mono (parse_partial fuel)); [|exact Hfin].
    apply IH. lia.
Qed.

Lemma parse_loop_mono fuel :
  forall fuel' tokens previous index,
    (fuel <= fuel')%nat ->
    finished (parse_loop fuel tokens previous index) ->
    parse_loop fuel' tokens previous index = parse_loop fuel tokens previous index.
Proof.
  induction fuel as [|fuel IH]; intros fuel' tokens previous index Hle Hfin.
  - destruct fuel'; cbn [parse_loop] in *;
      destruct (bool_decide _); try reflexivity.
    exfalso. apply Hfin. reflexivity.
  - destruct fuel' as [|fuel']; [lia|].
    cbn [parse_loop] in *.
    destruct (bool_decide _); [|reflexivity].
    pose proof (bind_finished _ _ Hfin) as H1.
    rewrite (parse_partial_mono fuel fuel' ltac:(lia) _ _ _ _ H1).
    destruct (parse_partial fuel tokens index Operator previous)
      as [[[t i] tokens']|e|]; cbn [bind] in *; [|reflexivity..].
    apply IH; [lia|exact Hfin].
Qed.

Lemma parse_mono fuel fuel' tokens :
  (fuel <= fuel')%nat ->
  finished (parse fuel tokens) ->
  parse fuel' tokens = parse fuel tokens.
Proof. intros. apply parse_loop_mono; assumption. Qed.

Lemma parse_text_mono fuel fuel' s :
  (fuel <= fuel')%nat ->
  finished (parse_text fuel s) ->
  parse_text fuel' s = parse_text fuel s.
Proof.
  unfold parse_text. intros Hle Hfin.
  rewrite (parse_mono fuel fuel'); [reflexivity|exact Hle|].
  exact (bind_finished _ _ Hfin).
Qed.

(** ** Evaluation of variables *)

Lemma default_bindings_Pi : default_bindings !! "Pi" = Some (PyFloat math_pi).
Proof. reflexivity. Qed.

Lemma default_bindings_E : default_bindings !! "E" = Some (PyFloat math_e).
Proof. reflexivity. Qed.

(** C5. Whatever the caller's bindings say about ["Pi"] and ["E"], the
    merged environment holds the built-in values, and evaluating the
    variables [Pi] and [E] returns [math.pi] and [math.e]. *)
Theorem builtin_constants_override (L : pylib) (b : gmap string number) :
  dict_or b default_bindings !! "Pi" = Some (PyFloat math_pi)
  /\ dict_or b default_bindings !! "E" = Some (PyFloat math_e)
  /\ evaluate L (Var "Pi") b = Ok (PyFloat math_pi)
  /\ evaluate L (Var "E") b = Ok (PyFloat math_e).
Proof.
  assert (HPi : dict_or b default_bindings !! "Pi" = Some (PyFloat math_pi))
    by (unfold dict_or; apply lookup_union_Some_l, default_bindings_Pi).
  assert (HE : dict_or b default_bindings !! "E" = Some (PyFloat math_e))
    by (unfold dict_or; apply lookup_union_Some_l, default_bindings_E).
  repeat split; try assumption;
    cbn [evaluate]; unfold Variable_evaluate; [rewrite HPi|rewrite HE]; reflexivity.
Qed.

(** C8. A variable whose name is in neither the caller's bindings nor the
    built-ins fails to evaluate with the assertion "Cannot evaluate unbound
    variable"; so does the tree parsed from the text "y" under no bindings. *)
Theorem unbound_variable_raises (L : pylib) :
  (forall (name : string) (b : gmap string number),
      dict_or b default_bindings !! name = None ->
      evaluate L (Var name) b
      = Raise (AssertionError "Cannot evaluate unbound variable"))
  /\ (forall fuel, (2 <= fuel)%nat ->
        parse_text fuel "y" = Ok (Var "y")
        /\ (do t <- parse_text fuel "y"; evaluate L t ∅)
           = Raise (AssertionError "Cannot evaluate unbound variable")).
Proof.
  assert (Hgen : forall (name : string) (b : gmap string number),
             dict_or b default_bindings !! name = None ->
             evaluate L (Var name) b
             = Raise (AssertionError "Cannot evaluate unbound variable")).
  { intros name b Habsent. cbn [evaluate]. unfold Variable_evaluate.
    rewrite Habsent. reflexivity. }
  split; [exact Hgen|].
  intros fuel Hfuel.
  assert (Hparse : parse_text fuel "y" = Ok (Var "y")).
  { rewrite (parse_text_mono 2%nat fuel); [reflexivity|exact Hfuel|].
    vm_compute. discriminate. }
  rewrite Hparse. split; [reflexivity|].
  cbn [bind]. apply Hgen. reflexivity.
Qed.

(** The name "y" under no bindings. *)
Lemma unbound_variable_raises_witness :
  dict_or ∅ default_bindings !! "y" = None
  /\ evaluate no_floats (Var "y") ∅
     = Raise (AssertionError "Cannot evaluate unbound variable")
  /\ (do t <- parse_text 2%nat "y"; evaluate no_floats t ∅)
     = Raise (AssertionError "Cannot evaluate unbound variable").
Proof.
  split; [reflexivity|]. split.
  - apply (proj1 (unbound_variable_raises no_floats) "y" ∅). reflexivity.
  - apply (proj2 (unbound_variable_raises no_floats) 2%nat). lia.
Defined.

(** ** The parser on concrete texts *)

(** C7. The text "2^3^2" parses as 2^(3^2), which evaluates to 512 under no
    bindings; the left-nested tree (2^3)^2 would give 64. *)
Theorem power_is_right_associative (L : pylib) (fuel : nat) :
  (6 <= fuel)%nat ->
  parse_text fuel "2^3^2"
  = Ok (Binary Power NUMBER_2 (Binary Power (Number (PyInt 3)) NUMBER_2))
  /\ (do t <- parse_text fuel "2^3^2"; evaluate L t ∅) = Ok (PyInt 512)
  /\ evaluate L (Binary Power (Binary Power NUMBER_2 (Number (PyInt 3))) NUMBER_2) ∅
     = Ok (PyInt 64).
Proof.
  intros Hfuel.
  assert (Hparse : parse_text fuel "2^3^2"
                   = Ok (Binary Power NUMBER_2
                           (Binary Power (Number (PyInt 3)) NUMBER_2))).
  { rewrite (parse_text_mono 6%nat fuel); [reflexivity|exact Hfuel|].
    vm_compute. discriminate. }
  rewrite Hparse. repeat split; reflexivity.
Qed.

(** With fuel 6. *)
Lemma power_is_right_associative_witness :
  (do t <- parse_text 6%nat "2^3^2"; evaluate no_floats t ∅) = Ok (PyInt 512).
Proof.
  apply (power_is_right_associative no_floats 6%nat). lia.
Defined.

(** ** Tokens of a text with nothing to find *)

Lemma span_head_false p c rest : p c = false -> span p (String c rest) = ("", String c rest).
Proof. intros H. cbn [span]. rewrite H. reflexivity. Qed.

Lemma span_digit_skipped s :
  all_chars skipped_char s = true -> fst (span is_digit s) = "".
Proof.
  destruct s as [|c rest]; [reflexivity|].
  cbn [all_chars]. intros H. apply andb_prop in H as [Hc _].
  unfold skipped_char in Hc. apply negb_true_iff in Hc.
  apply orb_false_elim in Hc as [Hc _]. apply orb_false_elim in Hc as [_ Hd].
  rewrite span_head_false by exact Hd. reflexivity.
Qed.

Lemma match_token_skipped c rest :
  skipped_char c = true -> all_chars skipped_char rest = true ->
  match_token (String c rest) = None.
Proof.
  intros Hc Hrest. unfold skipped_char in Hc. apply negb_true_iff in Hc.
  apply orb_false_elim in Hc as [Hc Hl]. apply orb_false_elim in Hc as [Ho Hd].
  unfold match_token. rewrite Ho, Hd, Hl.
  destruct (Ascii.eqb c "."); [|reflexivity].
  pose proof (span_digit_skipped rest Hrest) as Hs.
  destruct (span is_digit rest) as [fraction r2]. cbn [fst] in Hs. subst fraction.
  reflexivity.
Qed.

Lemma findall_skipped fuel s :
  all_chars skipped_char s = true -> findall fuel s = [].
Proof.
  revert s. induction fuel as [|fuel IH]; intros s Hs; [reflexivity|].
  destruct s as [|c rest]; [reflexivity|].
  cbn [all_chars] in Hs. apply andb_prop in Hs as [Hc Hrest].
  cbn [findall]. rewrite (match_token_skipped c rest Hc Hrest).
  apply IH, Hrest.
Qed.

(** C9. [parse] of the empty token list returns [None] and raises nothing,
    with any fuel (the loop body never runs); a text made only of
    characters that belong to no token has no tokens, so [parse] of its
    tokens is that same [None]. *)
Theorem parse_of_no_tokens_is_None (fuel : nat) :
  parse fuel [] = Ok (None, [])
  /\ (forall s, all_chars skipped_char s = true ->
        tokenize s = [] /\ parse fuel (tokenize s) = Ok (None, [])).
Proof.
  assert (Hempty : parse fuel [] = Ok (None, [])) by (destruct fuel; reflexivity).
  split; [exact Hempty|].
  intros s Hs.
  assert (Htok : tokenize s = []) by (apply findall_skipped, Hs).
  rewrite Htok. split; [reflexivity|exact Hempty].
Qed.

(** Blanks, a dollar sign, a lone point and a comma. *)
Lemma parse_of_no_tokens_is_None_witness :
  tokenize " $ . , " = [] /\ parse 0 (tokenize " $ . , ") = Ok (None, []).
Proof.
  apply (proj2 (parse_of_no_tokens_is_None 0) " $ . , "). reflexivity.
Defined.

(** ** Differentiation *)

(** C1. On x - y, differentiated in x, [Subtract.derivative] returns the
    variable y: it simplifies [x'*y - y'*x]. The difference of the two
    derivatives, [x' - y'], simplifies to 1, which is also what
    [Add.derivative]'s rule gives on x + y. *)
Theorem Subtract_derivative_is_not_the_difference (L : pylib) :
  derivative L (Binary Subtract (Var "x") (Var "y")) "x" = Ok (Var "y")
  /\ (do f' <- derivative L (Var "x") "x";
      do g' <- derivative L (Var "y") "x";
      simplify L (Binary Subtract f' g')) = Ok NUMBER_1
  /\ derivative L (Binary Add (Var "x") (Var "y")) "x" = Ok NUMBER_1.
Proof. repeat split; reflexivity. Qed.

(** [Add.derivative] does distribute: the sum of the derivatives, simplified. *)
Lemma Add_derivative_distributes (L : pylib) (f g : node) (v : string) :
  derivative L (Binary Add f g) v
  = (do f' <- derivative L f v;
     do g' <- derivative L g v;
     simplify L (Binary Add f' g')).
Proof. reflexivity. Qed.

(** [Subtract.derivative] as the code has it, for all operands. *)
Lemma Subtract_derivative_unfold (L : pylib) (f g : node) (v : string) :
  derivative L (Binary Subtract f g) v
  = (do f' <- derivative L f v;
     do g' <- derivative L g v;
     simplify L (Binary Subtract (Binary Multiply f' g) (Binary Multiply g' f))).
Proof. reflexivity. Qed.

(** C4 as stated fails: the text rendered for the derivative of "x^2" is
    not "2*x". *)
Lemma derivative_of_square_is_not_2x :
  rendered_derivative no_floats 4 "x^2" "x" = Ok "x^2*2/x"
  /\ String.eqb "x^2*2/x" "2*x" = false.
Proof. split; reflexivity. Qed.

(** C4, amended. The derivative of "x^2" in x is the tree x^2 * (2/x),
    which [simplify] leaves as it is and [__str__] renders as "x^2*2/x". *)
Theorem derivative_of_square_rendered (L : pylib) (fuel : nat) :
  (4 <= fuel)%nat ->
  (do t <- parse_text fuel "x^2"; derivative L t "x")
  = Ok (Binary Multiply (Binary Power (Var "x") NUMBER_2)
                        (Binary Divide NUMBER_2 (Var "x")))
  /\ rendered_derivative L fuel "x^2" "x" = Ok "x^2*2/x".
Proof.
  intros Hfuel. unfold rendered_derivative.
  assert (Hparse : parse_text fuel "x^2" = Ok (Binary Power (Var "x") NUMBER_2)).
  { rewrite (parse_text_mono 4%nat fuel); [reflexivity|exact Hfuel|].
    vm_compute. discriminate. }
  rewrite Hparse. split; reflexivity.
Qed.

(** With fuel 4. *)
Lemma derivative_of_square_rendered_witness :
  rendered_derivative no_floats 4 "x^2" "x" = Ok "x^2*2/x".
Proof.
  apply (derivative_of_square_rendered no_floats 4%nat). lia.
Defined.

(** ** Constant folding *)

(** [simplify] as [Node.simplify], [Function.simplify] and the class's own
    rules, over the list of children. *)
Lemma simplify_by_children (L : pylib) (t : node) :
  children t <> [] ->
  simplify L t
  = (do cs <- for_each (simplify L) (children t);
     do self <- Function_simplify L (rebuild t cs);
     Ok (class_simplify self)).
Proof.
  destruct t as [n|s|c x y|c x|x]; cbn [children]; intros Hne;
    try congruence; cbn [simplify for_each].
  - destruct (simplify L x); cbn [bind]; try reflexivity.
    destruct (simplify L y); reflexivity.
  - destruct (simplify L x); reflexivity.
  - destruct (simplify L x); reflexivity.
Qed.

(** C2 as stated fails: 2 + 3, two integer leaves, is returned unfolded,
    though it evaluates to 5. *)
Lemma integer_children_are_not_folded :
  simplify no_floats (Binary Add NUMBER_2 (Number (PyInt 3)))
  = Ok (Binary Add NUMBER_2 (Number (PyInt 3)))
  /\ (do v <- evaluate no_floats (Binary Add NUMBER_2 (Number (PyInt 3))) ∅;
      Ok (Number v)) = Ok (Number (PyInt 5)).
Proof. split; reflexivity. Qed.

(** C2, amended. Let [cs] be the simplified children of an operator or
    function node. When every one of them is a [Number] holding a float, the
    node simplifies to the [Number] of the value of the rebuilt node under no
    bindings (or fails as that evaluation does). When one of them is anything
    else, an integer [Number] included, nothing is evaluated: the result is
    the rebuilt node after its class's rewrite rules. *)
Theorem float_children_are_folded (L : pylib) (t : node) (cs : list node) :
  children t <> [] ->
  for_each (simplify L) (children t) = Ok cs ->
  (forallb is_float_Number cs = true ->
     simplify L t = (do v <- evaluate L (rebuild t cs) ∅; Ok (Number v)))
  /\ (forallb is_float_Number cs = false ->
        simplify L t = Ok (class_simplify (rebuild t cs))).
Proof.
  intros Hne Hcs.
  assert (Hch : children (rebuild t cs) = cs).
  { destruct t as [n|s|c x y|c x|x]; cbn [children] in *; try congruence;
      cbn [for_each] in Hcs.
    - destruct (simplify L x); cbn [bind] in Hcs; try discriminate.
      destruct (simplify L y); cbn [bind] in Hcs; try discriminate.
      injection Hcs as <-. reflexivity.
    - destruct (simplify L x); cbn [bind] in Hcs; try discriminate.
      injection Hcs as <-. reflexivity.
    - destruct (simplify L x); cbn [bind] in Hcs; try discriminate.
      injection Hcs as <-. reflexivity. }
  rewrite (simplify_by_children L t Hne), Hcs. cbn [bind].
  unfold Function_simplify. rewrite Hch.
  split; intros Hall; rewrite Hall; [|reflexivity].
  destruct (evaluate L (rebuild t cs) ∅); reflexivity.
Qed.

(** 1.5 + 2.25 is folded to 3.75; 1.5 + 2 is not folded. *)
Lemma float_children_are_folded_witness :
  simplify no_floats (Binary Add (Number (PyFloat 1.5)) (Number (PyFloat 2.25)))
  = Ok (Number (PyFloat 3.75))
  /\ simplify no_floats (Binary Add (Number (PyFloat 1.5)) (Number (PyInt 2)))
     = Ok (Binary Add (Number (PyFloat 1.5)) (Number (PyInt 2))).
Proof.
  pose proof (float_children_are_folded no_floats
                (Binary Add (Number (PyFloat 1.5)) (Number (PyFloat 2.25)))
                [Number (PyFloat 1.5); Number (PyFloat 2.25)]
                ltac:(discriminate) eq_refl) as [Hfold _].
  pose proof (float_children_are_folded no_floats
                (Binary Add (Number (PyFloat 1.5)) (Number (PyInt 2)))
                [Number (PyFloat 1.5); Number (PyInt 2)]
                ltac:(discriminate) eq_refl) as [_ Hkeep].
  split; [exact (Hfold eq_refl)|exact (Hkeep eq_refl)].
Defined.

(** ** Repeated simplification *)

(** C3 as stated fails: 0 - (-x) simplifies to -(-x), which simplifies
    further to x. *)
Lemma simplify_is_not_idempotent :
  simplify no_floats (Binary Subtract NUMBER_0 (Negate (Var "x")))
  = Ok (Negate (Negate (Var "x")))
  /\ simplify no_floats (Negate (Negate (Var "x"))) = Ok (Var "x")
  /\ node_eq (Var "x") (Negate (Negate (Var "x"))) = false.
Proof. repeat split; reflexivity. Qed.

Section Stability.

Variable L : pylib.

Lemma all_stable_stable t : all_stable L t -> simplify L t = Ok t.
Proof. destruct t; intros [H _]; exact H. Qed.

Lemma all_stable_Number n : all_stable L (Number n).
Proof. split; [reflexivity|exact I]. Qed.

Lemma class_simplify_Number n : class_simplify (Number n) = Number n.
Proof. reflexivity. Qed.

Lemma Negate_settled_stable y :
  all_stable L y -> settles_under_Negate y = true -> all_stable L (Negate y).
Proof.
  intros Hy Hsettles. split; [|exact Hy].
  unfold settles_under_Negate in Hsettles.
  apply andb_prop in Hsettles as [Hfloat Hrules]. apply negb_true_iff in Hfloat.
  cbn [simplify]. rewrite (all_stable_stable y Hy). cbn [bind].
  unfold Function_simplify. cbn [children forallb]. rewrite Hfloat. cbn [andb bind].
  destruct y as [n|s|c u v|c u|z]; try discriminate;
    apply negb_true_iff in Hrules; cbn [class_simplify]; rewrite Hrules; reflexivity.
Qed.

(** A rebuilt binary node that is not folded, and whose zero-minus rewrite,
    if any, builds a [Negate] that settles: its class's rules return a stable
    tree (a subtree, 0, 1, that [Negate], or the node itself). *)
Lemma Binary_rules_stable c x y :
  all_stable L x -> all_stable L y ->
  forallb is_float_Number [x; y] = false ->
  (match c with
   | Subtract => node_eq x NUMBER_0 && negb (settles_under_Negate y)
   | _ => false
   end) = false ->
  all_stable L (class_simplify (Binary c x y)).
Proof.
  intros Hx Hy Hfloat Hrule.
  assert (Hself : simplify L (Binary c x y) = Ok (class_simplify (Binary c x y))).
  { cbn [simplify]. rewrite (all_stable_stable x Hx), (all_stable_stable y Hy).
    cbn [bind]. unfold Function_simplify. cbn [children]. rewrite Hfloat.
    reflexivity. }
  destruct c; cbn [class_simplify] in *;
    repeat match goal with
      | |- context [if ?b then _ else _] => destruct b eqn:?
      end;
    try assumption; try apply all_stable_Number; try discriminate;
    try (split; [exact Hself|split; assumption]).
  apply Negate_settled_stable; [exact Hy|].
  cbn [andb] in Hrule. apply negb_false_iff in Hrule. exact Hrule.
Qed.

Lemma Unary_rules_stable c x :
  all_stable L x ->
  forallb is_float_Number [x] = false ->
  all_stable L (class_simplify (Unary c x)).
Proof.
  intros Hx Hfloat.
  assert (Hself : simplify L (Unary c x) = Ok (class_simplify (Unary c x))).
  { cbn [simplify]. rewrite (all_stable_stable x Hx).
    cbn [bind]. unfold Function_simplify. cbn [children]. rewrite Hfloat.
    reflexivity. }
  destruct c; cbn [class_simplify] in *;
    repeat match goal with
      | |- context [if ?b then _ else _] => destruct b eqn:?
      end;
    try apply all_stable_Number;
    (split; [exact Hself|assumption]).
Qed.

Lemma Negate_rules_stable x :
  all_stable L x ->
  forallb is_float_Number [x] = false ->
  all_stable L (class_simplify (Negate x)).
Proof.
  intros Hx Hfloat.
  assert (Hself : simplify L (Negate x) = Ok (class_simplify (Negate x))).
  { cbn [simplify]. rewrite (all_stable_stable x Hx).
    cbn [bind]. unfold Function_simplify. cbn [children]. rewrite Hfloat.
    reflexivity. }
  destruct x as [n|s|c u v|c u|z]; cbn [class_simplify] in *;
    try (destruct (node_eq _ NUMBER_0); [exact Hx|]);
    try (split; [exact Hself|exact Hx]).
  destruct Hx as [_ Hz]. exact Hz.
Qed.

(** When [simplify] never leaves an unsettled [Negate], what it returns
    is stable, subtrees included. *)
Lemma simplify_all_stable t :
  forall r, leaves_unsettled_Negate L t = false -> simplify L t = Ok r -> all_stable L r.
Proof.
  induction t as [n|s|c x IHx y IHy|c x IHx|x IHx]; intros r Hno Hr;
    cbn [simplify leaves_unsettled_Negate] in *.
  - injection Hr as <-. apply all_stable_Number.
  - injection Hr as <-. split; [reflexivity|exact I].
  - apply orb_false_elim in Hno as [Hno Hrule].
    apply orb_false_elim in Hno as [Hnox Hnoy].
    destruct (simplify L x) as [x'| |]; cbn [bind] in Hr; try discriminate.
    destruct (simplify L y) as [y'| |]; cbn [bind] in Hr; try discriminate.
    specialize (IHx x' Hnox eq_refl). specialize (IHy y' Hnoy eq_refl).
    unfold Function_simplify in Hr. cbn [children] in Hr.
    destruct (forallb is_float_Number [x'; y']) eqn:Hfloat.
    + destruct (evaluate L (Binary c x' y') ∅); cbn [bind] in Hr; try discriminate.
      injection Hr as <-. apply all_stable_Number.
    + cbn [bind] in Hr. injection Hr as <-.
      apply Binary_rules_stable; assumption.
  - destruct (simplify L x) as [x'| |]; cbn [bind] in Hr; try discriminate.
    specialize (IHx x' Hno eq_refl).
    unfold Function_simplify in Hr. cbn [children] in Hr.
    destruct (forallb is_float_Number [x']) eqn:Hfloat.
    + destruct (evaluate L (Unary c x') ∅); cbn [bind] in Hr; try discriminate.
      injection Hr as <-. apply all_stable_Number.
    + cbn [bind] in Hr. injection Hr as <-.
      apply Unary_rules_stable; assumption.
  - destruct (simplify L x) as [x'| |]; cbn [bind] in Hr; try discriminate.
    specialize (IHx x' Hno eq_refl).
    unfold Function_simplify in Hr. cbn [children] in Hr.
    destruct (forallb is_float_Number [x']) eqn:Hfloat.
    + destruct (evaluate L (Negate x') ∅); cbn [bind] in Hr; try discriminate.
      injection Hr as <-. apply all_stable_Number.
    + cbn [bind] in Hr. injection Hr as <-.
      apply Negate_rules_stable; assumption.
Qed.

Lemma no_Subtract_no_zero_minus t :
  has_Subtract t = false -> leaves_unsettled_Negate L t = false.
Proof.
  induction t as [n|s|c x IHx y IHy|c x IHx|x IHx]; cbn [has_Subtract leaves_unsettled_Negate];
    intros H; try reflexivity; try (apply IHx; exact H).
  destruct c; try discriminate;
    apply orb_false_elim in H as [Hx Hy]; rewrite (IHx Hx), (IHy Hy); reflexivity.
Qed.

Lemma py_eq_refl n :
  match n with PyFloat f => negb (PrimFloat.is_nan f) | PyInt _ => true end = true ->
  py_eq n n = true.
Proof.
  destruct n as [z|f]; cbn [py_eq]; intros H.
  - apply Z.eqb_refl.
  - unfold PrimFloat.is_nan in H. rewrite negb_involutive in H. exact H.
Qed.

Lemma node_eq_refl t : nan_free t = true -> node_eq t t = true.
Proof.
  induction t as [n|s|c x IHx y IHy|c x IHx|x IHx]; cbn [nan_free node_eq]; intros H.
  - apply py_eq_refl. destruct n; exact H.
  - apply String.eqb_refl.
  - apply andb_prop in H as [Hx Hy].
    rewrite String.eqb_refl, (IHx Hx), (IHy Hy). reflexivity.
  - rewrite String.eqb_refl, (IHx H). reflexivity.
  - apply IHx, H.
Qed.

End Stability.

(** C3, amended. Simplifying twice gives what simplifying once gives, the
    same tree or the same failure, for every tree in whose simplification
    [Subtract]'s rule [0 - y -> -y] is never applied to a [y] that is a
    negation, equal to zero, or a float [Number]; every tree without a
    [Subtract] node is such a tree. The result of the second pass is then
    structurally equal ([==]) to that of the first as long as it holds no
    NaN. *)
Theorem simplify_idempotent_when_Negate_settles (L : pylib) (t : node) :
  (leaves_unsettled_Negate L t = false ->
     (do r <- simplify L t; simplify L r) = simplify L t
     /\ forall r, simplify L t = Ok r -> nan_free r = true ->
          exists r', simplify L r = Ok r' /\ node_eq r' r = true)
  /\ (has_Subtract t = false -> leaves_unsettled_Negate L t = false).
Proof.
  split; [|apply no_Subtract_no_zero_minus].
  intros Hno.
  assert (Hstable : forall r, simplify L t = Ok r -> simplify L r = Ok r).
  { intros r Hr. apply all_stable_stable, (simplify_all_stable L t r Hno Hr). }
  split.
  - destruct (simplify L t) as [r| |] eqn:Hr; cbn [bind]; try reflexivity.
    apply Hstable. reflexivity.
  - intros r Hr Hnan. exists r. split; [apply Hstable, Hr|].
    apply node_eq_refl, Hnan.
Qed.

(** 0 - (x + 0) simplifies to -x, and -x to itself. *)
Lemma simplify_idempotent_when_Negate_settles_witness :
  simplify no_floats (Binary Subtract NUMBER_0 (Binary Add (Var "x") NUMBER_0))
  = Ok (Negate (Var "x"))
  /\ (do r <- simplify no_floats (Binary Subtract NUMBER_0 (Binary Add (Var "x") NUMBER_0));
      simplify no_floats r)
     = simplify no_floats (Binary Subtract NUMBER_0 (Binary Add (Var "x") NUMBER_0)).
Proof.
  split; [reflexivity|].
  apply (proj1 (simplify_idempotent_when_Negate_settles no_floats
                  (Binary Subtract NUMBER_0 (Binary Add (Var "x") NUMBER_0)))).
  reflexivity.
Defined.

(** ** The token list after parsing *)

Lemma star_inserted_refl l : star_inserted l l.
Proof. induction l; constructor; assumption. Qed.

Lemma star_inserted_trans a b c :
  star_inserted a b -> star_inserted b c -> star_inserted a c.
Proof.
  intros Hab Hbc. revert a Hab.
  induction Hbc as [|t b c Hbc IH|b c Hbc IH]; intros a Hab.
  - exact Hab.
  - inversion Hab; subst.
    + apply star_inserted_keep, IH. assumption.
    + apply star_inserted_star, IH. assumption.
  - apply star_inserted_star, IH, Hab.
Qed.

Lemma star_inserted_insert i l : star_inserted l (insert_at i "*" l).
Proof.
  unfold insert_at. revert l.
  induction i as [|i IH]; intros l.
  - cbn. apply star_inserted_star, star_inserted_refl.
  - destruct l as [|t l]; cbn.
    + apply star_inserted_star, star_inserted_nil.
    + apply star_inserted_keep, IH.
Qed.

Lemma star_inserted_length l l' :
  star_inserted l l' -> (length l <= length l')%nat.
Proof. induction 1; cbn; lia. Qed.

Lemma next_operator_juxtaposed tokens new_index :
  juxtaposed tokens new_index ->
  next_operator tokens new_index = Ok (insert_at new_index "*" tokens, Multiply).
Proof.
  intros (token & Htoken & Hcase). unfold next_operator, token_is.
  rewrite Htoken.
  destruct Hcase as [->|(p & Hp & Hnot)]; [reflexivity|].
  destruct (String.eqb token "("); [reflexivity|].
  rewrite Hp. cbn [bind].
  destruct p as [t|[c|c|]]; try reflexivity.
  exfalso. exact (Hnot c eq_refl).
Qed.

Lemma next_operator_star_inserted tokens new_index tokens' next :
  next_operator tokens new_index = Ok (tokens', next) ->
  star_inserted tokens tokens'.
Proof.
  unfold next_operator. intros H.
  destruct (if token_is tokens new_index "(" then _ else _) as [classified| |];
    cbn [bind] in H; try discriminate.
  destruct classified as [[t|[c|c|]]|]; injection H as <- _;
    first [apply star_inserted_refl|apply star_inserted_insert].
Qed.

Lemma parse_partial_body_stars rec :
  hands_back_stars rec -> hands_back_stars (parse_partial_body rec).
Proof.
  intros Hrec tokens index lim previous t i tokens' H.
  unfold parse_partial_body in H.
  destruct (tokens !! index) as [token|]; [|discriminate].
  destruct (parse_first rec tokens index token previous)
    as [[[parsed new_index] tokens1]| |] eqn:H1; cbn [bind] in H; try discriminate.
  destruct (apply_class rec parsed (new_index + 1) tokens1 previous)
    as [[[parsed' new_index'] tokens2]| |] eqn:H2; cbn [bind] in H; try discriminate.
  assert (S1 : star_inserted tokens tokens1).
  { unfold parse_first in H1. destruct (String.eqb token "(").
    - destruct (rec tokens (index + 1)%nat Operator None)
        as [[[p n] l]| |] eqn:E; cbn [bind] in H1; try discriminate.
      destruct (assert _ _); cbn [bind] in H1; try discriminate.
      injection H1 as _ _ <-. exact (Hrec _ _ _ _ _ _ _ E).
    - destruct (parse_primitive _ _); cbn [bind] in H1; try discriminate.
      injection H1 as _ _ <-. apply star_inserted_refl. }
  assert (S2 : star_inserted tokens1 tokens2).
  { unfold apply_class in H2. destruct parsed as [u|[c|c|]].
    - injection H2 as _ _ <-. apply star_inserted_refl.
    - destruct previous as [previous|]; try discriminate.
      destruct (rec tokens1 (new_index + 1)%nat (LimitBinary c) (Some previous))
        as [[[p n] l]| |] eqn:E; cbn [bind] in H2; try discriminate.
      injection H2 as _ _ <-. exact (Hrec _ _ _ _ _ _ _ E).
    - destruct (assert _ _); cbn [bind] in H2; try discriminate.
      destruct (rec tokens1 (new_index + 1 + 1)%nat Operator None)
        as [[[p n] l]| |] eqn:E; cbn [bind] in H2; try discriminate.
      destruct (assert _ _); cbn [bind] in H2; try discriminate.
      injection H2 as _ _ <-. exact (Hrec _ _ _ _ _ _ _ E).
    - destruct (rec tokens1 (new_index + 1)%nat LimitNegate None)
        as [[[p n] l]| |] eqn:E; cbn [bind] in H2; try discriminate.
      injection H2 as _ _ <-. exact (Hrec _ _ _ _ _ _ _ E). }
  apply (star_inserted_trans _ _ _ S1), (star_inserted_trans _ _ _ S2).
  unfold parse_rest in H. destruct (_ && _).
  - destruct (next_operator tokens2 new_index') as [[tokens3 next]| |] eqn:E3;
      cbn [bind] in H; try discriminate.
    apply (star_inserted_trans _ _ _ (next_operator_star_inserted _ _ _ _ E3)).
    destruct (continues next lim).
    + exact (Hrec _ _ _ _ _ _ _ H).
    + injection H as _ _ <-. apply star_inserted_refl.
  - injection H as _ _ <-. apply star_inserted_refl.
Qed.

Lemma parse_partial_stars fuel : hands_back_stars (parse_partial fuel).
Proof.
  induction fuel as [|fuel IH].
  - intros tokens index lim previous t i tokens' H. discriminate.
  - apply (parse_partial_body_stars _ IH).
Qed.

Lemma parse_loop_stars fuel :
  forall tokens previous index t tokens',
    parse_loop fuel tokens previous index = Ok (t, tokens') ->
    star_inserted tokens tokens'.
Proof.
  induction fuel as [|fuel IH]; intros tokens previous index t tokens' H;
    cbn [parse_loop] in H; destruct (bool_decide _);
    try discriminate; try (injection H as _ <-; apply star_inserted_refl).
  destruct (parse_partial fuel tokens index Operator previous)
    as [[[p n] l]| |] eqn:E; cbn [bind] in H; try discriminate.
  apply (star_inserted_trans _ _ _ (parse_partial_stars _ _ _ _ _ _ _ _ E)).
  exact (IH _ _ _ _ _ H).
Qed.

(** C10. [parse] changes the list it is given. Where implicit
    multiplication applies, the step that picks the next operator inserts
    ["*"] into the list at that place; the list [parse] leaves behind is
    always the caller's with ["*"] tokens inserted and nothing else changed;
    and it does differ: after parsing ["2"; "x"] the list is
    ["2"; "*"; "x"]. *)
Theorem parse_inserts_stars :
  (forall tokens new_index,
      juxtaposed tokens new_index ->
      next_operator tokens new_index
      = Ok (insert_at new_index "*" tokens, Multiply))
  /\ (forall fuel tokens t tokens',
        parse fuel tokens = Ok (t, tokens') ->
        star_inserted tokens tokens' /\ (length tokens <= length tokens')%nat)
  /\ (forall fuel, (4 <= fuel)%nat ->
        parse fuel ["2"; "x"]
        = Ok (Some (Binary Multiply NUMBER_2 (Var "x")), ["2"; "*"; "x"])).
Proof.
  split; [exact next_operator_juxtaposed|]. split.
  - intros fuel tokens t tokens' H.
    assert (S : star_inserted tokens tokens') by exact (parse_loop_stars _ _ _ _ _ _ H).
    split; [exact S|apply star_inserted_length, S].
  - intros fuel Hfuel.
    rewrite (parse_mono 4%nat fuel); [reflexivity|exact Hfuel|].
    vm_compute. discriminate.
Qed.

(** The tokens of "2x". *)
Lemma parse_inserts_stars_witness :
  next_operator ["2"; "x"] 1 = Ok (["2"; "*"; "x"], Multiply)
  /\ star_inserted ["2"; "x"] ["2"; "*"; "x"]
  /\ parse 4 ["2"; "x"]
     = Ok (Some (Binary Multiply NUMBER_2 (Var "x")), ["2"; "*"; "x"]).
Proof.
  destruct parse_inserts_stars as (Hstep & Hall & Hexample).
  assert (Hparse : parse 4 ["2"; "x"]
                   = Ok (Some (Binary Multiply NUMBER_2 (Var "x")), ["2"; "*"; "x"]))
    by (apply Hexample; lia).
  split; [|split].
  - apply (Hstep ["2"; "x"] 1%nat). exists "x". split; [reflexivity|].
    right. exists (Instance (Var "x")). split; [reflexivity|discriminate].
  - exact (proj1 (Hall _ _ _ _ Hparse)).
  - exact Hparse.
Defined.

(** ** Room for nested calls: with enough of it, the methods as above *)

Lemma within_refl {A : Type} (r : result A) : within r r.
Proof. right. reflexivity. Qed.

Lemma within_bind {A B : Type} (r r' : result A) (k k' : A -> result B) :
  within r r' -> (forall a, within (k a) (k' a)) -> within (bind r k) (bind r' k').
Proof.
  intros [->| ->] Hk; [left; reflexivity|].
  destruct r' as [a| |]; cbn [bind]; [apply Hk|right; reflexivity..].
Qed.

Lemma within_Ok {A : Type} (r : result A) (a : A) :
  within r (Ok a) -> r = Unfinished \/ r = Ok a.
Proof. intros H. exact H. Qed.

Section Room.

Variable L : pylib.

Lemma evaluate_in_within depth :
  forall t b, within (evaluate_in L depth t b) (evaluate L t b).
Proof.
  induction depth as [|depth IH]; intros t b; [left; reflexivity|].
  destruct t as [n|s|c x y|c x|x]; cbn [evaluate_in evaluate].
  - apply within_refl.
  - apply within_refl.
  - apply within_bind; [apply IH|]. intros a.
    apply within_bind; [apply IH|]. intros a'. apply within_refl.
  - destruct c; try apply within_refl;
      (apply within_bind; [apply IH|intros a; apply within_refl]).
  - apply within_bind; [apply IH|intros a; apply within_refl].
Qed.

Lemma evaluate_in_enough depth :
  forall t b, (height t <= depth)%nat -> evaluate_in L depth t b = evaluate L t b.
Proof.
  induction depth as [|depth IH]; intros t b Hdepth.
  - destruct t; cbn [height] in Hdepth; lia.
  - destruct t as [n|s|c x y|c x|x]; cbn [height] in Hdepth;
      cbn [evaluate_in evaluate]; try reflexivity.
    + rewrite !IH by lia. reflexivity.
    + destruct c; try reflexivity; rewrite IH by lia; reflexivity.
    + rewrite IH by lia. reflexivity.
Qed.

Lemma Function_simplify_in_within depth self :
  within (Function_simplify_in L depth self) (Function_simplify L self).
Proof.
  unfold Function_simplify_in, Function_simplify.
  destruct (forallb is_float_Number (children self)); [|apply within_refl].
  apply within_bind; [apply evaluate_in_within|intros v; apply within_refl].
Qed.

Lemma float_children_height self :
  forallb is_float_Number (children self) = true -> (height self <= 2)%nat.
Proof.
  destruct self as [n|s|c x y|c x|x]; cbn [children forallb height]; try lia.
  - destruct x, y; cbn; try discriminate; lia.
  - destruct x; cbn; try discriminate; lia.
  - destruct x; cbn; try discriminate; lia.
Qed.

Lemma Function_simplify_in_enough depth self :
  (2 <= depth)%nat -> Function_simplify_in L depth self = Function_simplify L self.
Proof.
  intros Hdepth. unfold Function_simplify_in, Function_simplify.
  destruct (forallb is_float_Number (children self)) eqn:Hfloat; [|reflexivity].
  rewrite evaluate_in_enough; [reflexivity|].
  pose proof (float_children_height self Hfloat). lia.
Qed.

Lemma simplify_in_within depth :
  forall t, within (simplify_in L depth t) (simplify L t).
Proof.
  induction depth as [|depth IH]; intros t; [left; reflexivity|].
  destruct t as [n|s|c x y|c x|x]; cbn [simplify_in simplify];
    try apply within_refl.
  - apply within_bind; [apply IH|]. intros x'.
    apply within_bind; [apply IH|]. intros y'.
    apply within_bind; [apply Function_simplify_in_within|]. intros self.
    apply within_refl.
  - apply within_bind; [apply IH|]. intros x'.
    apply within_bind; [apply Function_simplify_in_within|]. intros self.
    apply within_refl.
  - apply within_bind; [apply IH|]. intros x'.
    apply within_bind; [apply Function_simplify_in_within|]. intros self.
    apply within_refl.
Qed.

Lemma simplify_in_enough depth :
  forall t, (height t < depth)%nat -> simplify_in L depth t = simplify L t.
Proof.
  induction depth as [|depth IH]; intros t Hdepth; [lia|].
  destruct t as [n|s|c x y|c x|x]; cbn [height] in Hdepth;
    cbn [simplify_in simplify]; try reflexivity.
  - pose proof (Nat.le_max_l (height x) (height y)).
    pose proof (Nat.le_max_r (height x) (height y)).
    assert (1 <= height x)%nat by (destruct x; cbn [height]; lia).
    rewrite !IH by lia.
    destruct (simplify L x) as [x'| |]; cbn [bind]; try reflexivity.
    destruct (simplify L y) as [y'| |]; cbn [bind]; try reflexivity.
    rewrite Function_simplify_in_enough by lia. reflexivity.
  - assert (1 <= height x)%nat by (destruct x; cbn [height]; lia).
    rewrite IH by lia.
    destruct (simplify L x) as [x'| |]; cbn [bind]; try reflexivity.
    rewrite Function_simplify_in_enough by lia. reflexivity.
  - assert (1 <= height x)%nat by (destruct x; cbn [height]; lia).
    rewrite IH by lia.
    destruct (simplify L x) as [x'| |]; cbn [bind]; try reflexivity.
    rewrite Function_simplify_in_enough by lia. reflexivity.
Qed.

Lemma unary_derivative_in_within depth c x x' :
  within (unary_derivative_in L depth c x x') (unary_derivative L c x x').
Proof.
  destruct c; cbn [unary_derivative_in unary_derivative];
    first [apply simplify_in_within | apply within_refl].
Qed.

Lemma derivative_in_within depth :
  forall t v, within (derivative_in L depth t v) (derivative L t v).
Proof.
  induction depth as [|depth IH]; intros t v; [left; reflexivity|].
  destruct t as [n|s|c x y|c x|x]; cbn [derivative_in derivative].
  - apply within_refl.
  - apply within_refl.
  - destruct c;
      (apply within_bind; [apply IH|]; intros x';
       apply within_bind; [apply IH|]; intros y';
       apply simplify_in_within).
  - destruct c; try apply within_refl;
      (apply within_bind; [apply IH|]; intros x'; apply unary_derivative_in_within).
  - apply within_bind; [apply IH|]. intros x'. apply simplify_in_within.
Qed.

Lemma simplify_in_settles t :
  exists depth0, forall depth, (depth0 <= depth)%nat ->
    simplify_in L depth t = simplify L t.
Proof.
  exists (S (height t)). intros depth Hdepth. apply simplify_in_enough. lia.
Qed.

Ltac settle_simplify dx dy :=
  match goal with
  | |- exists _, forall depth, _ -> derivative_in _ _ _ _ = simplify _ ?built =>
      let ds := fresh "ds" in
      let Hs := fresh "Hs" in
      destruct (simplify_in_settles built) as [ds Hs];
      exists (S (dx + dy + ds))
  | |- exists _, forall depth, _ -> derivative_in _ _ _ _ = _ =>
      exists (S (dx + dy))
  end.

Lemma derivative_in_settles v t :
  exists depth0, forall depth, (depth0 <= depth)%nat ->
    derivative_in L depth t v = derivative L t v.
Proof.
  induction t as [n|s|c x [dx Hx] y [dy Hy]|c x [dx Hx]|x [dx Hx]].
  - exists 1%nat. intros [|depth] Hdepth; [lia|reflexivity].
  - exists 1%nat. intros [|depth] Hdepth; [lia|reflexivity].
  - destruct c; cbn [derivative];
      destruct (derivative L x v) as [x'| |]; cbn [bind];
      destruct (derivative L y v) as [y'| |]; cbn [bind];
      settle_simplify dx dy;
      (intros [|depth] Hdepth; [lia|]);
      cbn [derivative_in]; rewrite ?Hx, ?Hy by lia; cbn [bind];
      rewrite ?Hx, ?Hy by lia; cbn [bind];
      first [reflexivity | apply Hs; lia].
  - destruct c; cbn [derivative];
      try (exists 1%nat; intros [|depth] Hdepth; [lia|reflexivity]);
      destruct (derivative L x v) as [x'| |]; cbn [bind unary_derivative];
      settle_simplify dx 0%nat;
      (intros [|depth] Hdepth; [lia|]);
      cbn [derivative_in]; rewrite Hx by lia; cbn [bind unary_derivative_in];
      first [reflexivity | apply Hs; lia].
  - cbn [derivative]. destruct (derivative L x v) as [x'| |]; cbn [bind];
      settle_simplify dx 0%nat;
      (intros [|depth] Hdepth; [lia|]);
      cbn [derivative_in]; rewrite Hx by lia; cbn [bind];
      first [reflexivity | apply Hs; lia].
Qed.

Lemma str_in_within depth :
  forall t, within (str_in L depth t) (str_node L t).
Proof.
  induction depth as [|depth IH]; intros t; [left; reflexivity|].
  destruct t as [[z|f]|s|c x y|c x|x]; cbn [str_in]; unfold str_node;
    cbn [printable toString number_str str_number].
  - unfold str_int. rewrite Nat.leb_antisym.
    destruct (digit_limit <? int_digits z)%nat; apply within_refl.
  - apply within_refl.
  - apply within_refl.
  - destruct (IH x) as [Hx|Hx]; rewrite Hx; [left; reflexivity|].
    unfold str_node. destruct (printable x); cbn [bind andb]; [|apply within_refl].
    destruct (IH y) as [Hy|Hy]; rewrite Hy; [left; reflexivity|].
    unfold str_node. destruct (printable y); apply within_refl.
  - destruct (IH x) as [Hx|Hx]; rewrite Hx; [left; reflexivity|].
    unfold str_node. destruct (printable x); apply within_refl.
  - destruct (IH x) as [Hx|Hx]; rewrite Hx; [left; reflexivity|].
    unfold str_node. destruct (printable x); cbn [bind]; [|apply within_refl].
    right. destruct (is_Operator x && Qltb (precedence x) Negate_precedence);
      reflexivity.
Qed.

Lemma str_in_enough depth :
  forall t, (height t <= depth)%nat -> str_in L depth t = str_node L t.
Proof.
  induction depth as [|depth IH]; intros t Hdepth.
  - destruct t; cbn [height] in Hdepth; lia.
  - destruct t as [[z|f]|s|c x y|c x|x]; cbn [height] in Hdepth; cbn [str_in];
      unfold str_node; cbn [printable toString number_str str_number].
    + unfold str_int. rewrite Nat.leb_antisym.
      destruct (digit_limit <? int_digits z)%nat; reflexivity.
    + reflexivity.
    + reflexivity.
    + pose proof (Nat.le_max_l (height x) (height y)).
      pose proof (Nat.le_max_r (height x) (height y)).
      rewrite !IH by lia. unfold str_node.
      destruct (printable x); cbn [bind andb]; [|reflexivity].
      destruct (printable y); reflexivity.
    + rewrite IH by lia. unfold str_node. destruct (printable x); reflexivity.
    + rewrite IH by lia. unfold str_node.
      destruct (printable x); cbn [bind]; [|reflexivity].
      destruct (is_Operator x && Qltb (precedence x) Negate_precedence); reflexivity.
Qed.

Lemma repr_in_within depth :
  forall t, within (repr_in L depth t) (repr_node L t).
Proof.
  induction depth as [|depth IH]; intros t; [left; reflexivity|].
  destruct t as [[z|f]|s|c x y|c x|x]; cbn [repr_in]; unfold repr_node;
    cbn [printable toRepr number_str str_number].
  - unfold str_int. rewrite Nat.leb_antisym.
    destruct (digit_limit <? int_digits z)%nat; apply within_refl.
  - apply within_refl.
  - apply within_refl.
  - destruct (IH x) as [Hx|Hx]; rewrite Hx; [left; reflexivity|].
    unfold repr_node. destruct (printable x); cbn [bind andb]; [|apply within_refl].
    destruct (IH y) as [Hy|Hy]; rewrite Hy; [left; reflexivity|].
    unfold repr_node. destruct (printable y); apply within_refl.
  - destruct (IH x) as [Hx|Hx]; rewrite Hx; [left; reflexivity|].
    unfold repr_node. destruct (printable x); apply within_refl.
  - destruct (IH x) as [Hx|Hx]; rewrite Hx; [left; reflexivity|].
    unfold repr_node. destruct (printable x); apply within_refl.
Qed.

Lemma repr_in_enough depth :
  forall t, (height t <= depth)%nat -> repr_in L depth t = repr_node L t.
Proof.
  induction depth as [|depth IH]; intros t Hdepth.
  - destruct t; cbn [height] in Hdepth; lia.
  - destruct t as [[z|f]|s|c x y|c x|x]; cbn [height] in Hdepth; cbn [repr_in];
      unfold repr_node; cbn [printable toRepr number_str str_number].
    + unfold str_int. rewrite Nat.leb_antisym.
      destruct (digit_limit <? int_digits z)%nat; reflexivity.
    + reflexivity.
    + reflexivity.
    + pose proof (Nat.le_max_l (height x) (height y)).
      pose proof (Nat.le_max_r (height x) (height y)).
      rewrite !IH by lia. unfold repr_node.
      destruct (printable x); cbn [bind andb]; [|reflexivity].
      destruct (printable y); reflexivity.
    + rewrite IH by lia. unfold repr_node. destruct (printable x); reflexivity.
    + rewrite IH by lia. unfold repr_node. destruct (printable x); reflexivity.
Qed.

End Room.

(** ** Rendering and parsing back *)

(** C6 as stated fails: a + (b + c) is rendered without parentheses, as
    "a + b + c", and that text parses as (a + b) + c. *)
Lemma nested_sum_does_not_round_trip :
  toString no_floats (Binary Add (Var "a") (Binary Add (Var "b") (Var "c")))
  = "a + b + c"
  /\ reparsed no_floats 6 (Binary Add (Var "a") (Binary Add (Var "b") (Var "c")))
     = Ok (Binary Add (Binary Add (Var "a") (Var "b")) (Var "c"))
  /\ node_eq (Binary Add (Binary Add (Var "a") (Var "b")) (Var "c"))
             (Binary Add (Var "a") (Binary Add (Var "b") (Var "c"))) = false.
Proof. repeat split; reflexivity. Qed.

(** *** One step of [parse_partial] on each kind of token *)

Lemma Ok_finished {A : Type} (r : result A) (a : A) : r = Ok a -> finished r.
Proof. intros ->. discriminate. Qed.

Lemma parse_partial_more fuel fuel' tokens index lim previous r :
  parse_partial fuel tokens index lim previous = Ok r ->
  (fuel <= fuel')%nat ->
  parse_partial fuel' tokens index lim previous = Ok r.
Proof.
  intros H Hle. rewrite <- H.
  apply (parse_partial_mono fuel fuel' Hle). rewrite H. discriminate.
Qed.

Lemma parse_rest_more fuel fuel' parsed new_index tokens lim r :
  parse_rest (parse_partial fuel) parsed new_index tokens lim = Ok r ->
  (fuel <= fuel')%nat ->
  parse_rest (parse_partial fuel') parsed new_index tokens lim = Ok r.
Proof.
  intros H Hle. rewrite <- H.
  apply parse_rest_mono; [apply parse_partial_mono, Hle|].
  rewrite H. discriminate.
Qed.

(** A leaf token. *)
Lemma step_leaf tokens index lim previous token a r :
  tokens !! index = Some token ->
  (forall has_previous, parse_primitive token has_previous = Ok (Instance a)) ->
  String.eqb token "(" = false ->
  Rest tokens a (index + 1) lim r ->
  Parses tokens index lim previous r.
Proof.
  intros Htoken Hleaf Hopen [fuel Hrest]. exists (S fuel).
  cbn [parse_partial]. unfold parse_partial_body, parse_first.
  rewrite Htoken, Hopen, Hleaf. cbn [bind apply_class]. exact Hrest.
Qed.

(** ["("], a subexpression, [")"]. *)
Lemma step_parenthesis tokens index lim previous inner j r :
  tokens !! index = Some "(" ->
  Parses tokens (index + 1) Operator None (inner, j, tokens) ->
  tokens !! j = Some ")" ->
  Rest tokens inner (j + 1) lim r ->
  Parses tokens index lim previous r.
Proof.
  intros Htoken [f1 Hinner] Hclose [f2 Hrest]. exists (S (Nat.max f1 f2)).
  cbn [parse_partial]. unfold parse_partial_body, parse_first.
  rewrite Htoken. cbn [String.eqb Ascii.eqb Bool.eqb].
  rewrite (parse_partial_more _ _ _ _ _ _ _ Hinner) by lia. cbn [bind].
  unfold token_is. rewrite Hclose. cbn [String.eqb Ascii.eqb Bool.eqb assert bind apply_class].
  apply (parse_rest_more _ _ _ _ _ _ _ Hrest). lia.
Qed.

(** A function name, ["("], the argument, [")"]. *)
Lemma step_function tokens index lim previous c argument j r :
  tokens !! index = Some (unary_symbol c) ->
  tokens !! (index + 1)%nat = Some "(" ->
  Parses tokens (index + 2) Operator None (argument, j, tokens) ->
  tokens !! j = Some ")" ->
  Rest tokens (Unary c argument) (j + 1) lim r ->
  Parses tokens index lim previous r.
Proof.
  intros Htoken Hopen [f1 Hinner] Hclose [f2 Hrest]. exists (S (Nat.max f1 f2)).
  cbn [parse_partial]. unfold parse_partial_body, parse_first.
  rewrite Htoken.
  assert (Hprim : forall hp, parse_primitive (unary_symbol c) hp = Ok (Class (UnaryClass c)))
    by (intros hp; destruct c, hp; reflexivity).
  assert (Hne : String.eqb (unary_symbol c) "(" = false) by (destruct c; reflexivity).
  rewrite Hne, Hprim. cbn [bind apply_class].
  unfold token_is at 1. rewrite Hopen.
  cbn [String.eqb Ascii.eqb Bool.eqb assert bind].
  replace (index + 1 + 1)%nat with (index + 2)%nat by lia.
  rewrite (parse_partial_more _ _ _ _ _ _ _ Hinner) by lia. cbn [bind].
  unfold token_is. rewrite Hclose. cbn [String.eqb Ascii.eqb Bool.eqb assert bind].
  apply (parse_rest_more _ _ _ _ _ _ _ Hrest). lia.
Qed.

(** A minus sign with no operand before it, and its operand. *)
Lemma step_negate tokens index lim argument j r :
  tokens !! index = Some "-" ->
  Parses tokens (index + 1) LimitNegate None (argument, j, tokens) ->
  Rest tokens (Negate argument) j lim r ->
  Parses tokens index lim None r.
Proof.
  intros Htoken [f1 Hinner] [f2 Hrest]. exists (S (Nat.max f1 f2)).
  cbn [parse_partial]. unfold parse_partial_body, parse_first.
  rewrite Htoken. cbn [String.eqb Ascii.eqb Bool.eqb].
  replace (parse_primitive "-" (bool_decide (None <> @None node)))
    with (@Ok primitive (Class NegateClass)).
  2:{ rewrite bool_decide_eq_false_2 by congruence. reflexivity. }
  cbn [bind apply_class].
  rewrite (parse_partial_more _ _ _ _ _ _ _ Hinner) by lia. cbn [bind].
  apply (parse_rest_more _ _ _ _ _ _ _ Hrest). lia.
Qed.

(** A binary operator after its left operand, and its right operand. *)
Lemma step_binary tokens index lim lhs c rhs j r :
  tokens !! index = Some (binary_symbol c) ->
  Parses tokens (index + 1) (LimitBinary c) (Some lhs) (rhs, j, tokens) ->
  Rest tokens (Binary c lhs rhs) j lim r ->
  Parses tokens index lim (Some lhs) r.
Proof.
  intros Htoken [f1 Hinner] [f2 Hrest]. exists (S (Nat.max f1 f2)).
  cbn [parse_partial]. unfold parse_partial_body, parse_first.
  rewrite Htoken.
  assert (Hne : String.eqb (binary_symbol c) "(" = false) by (destruct c; reflexivity).
  rewrite Hne.
  replace (parse_primitive (binary_symbol c) (bool_decide (Some lhs <> None)))
    with (@Ok primitive (Class (BinaryClass c))).
  2:{ rewrite bool_decide_eq_true_2 by congruence. destruct c; reflexivity. }
  cbn [bind apply_class].
  rewrite (parse_partial_more _ _ _ _ _ _ _ Hinner) by lia. cbn [bind].
  apply (parse_rest_more _ _ _ _ _ _ _ Hrest). lia.
Qed.

(** In front of a token at which the parse halts, [parse_rest] returns. *)
Lemma rest_halts tokens parsed j lim :
  halts (tokens !! j) lim = true ->
  forall fuel,
    parse_rest (parse_partial fuel) parsed j tokens lim = Ok (parsed, j, tokens).
Proof.
  intros Hhalt fuel. unfold parse_rest, token_is.
  destruct (tokens !! j) as [token|] eqn:Htoken.
  - cbn [halts] in Hhalt.
    destruct (String.eqb token ")") eqn:Hclose.
    + rewrite andb_false_r. reflexivity.
    + cbn [orb] in Hhalt.
      destruct (binary_operators_dict token) as [c|] eqn:Hdict; [|discriminate].
      apply negb_true_iff in Hhalt.
      apply lookup_lt_Some in Htoken as Hlt.
      rewrite bool_decide_eq_true_2 by exact Hlt. cbn [andb negb].
      unfold next_operator, token_is. rewrite Htoken.
      assert (Hprim : String.eqb token "(" = false
                      /\ parse_primitive token true = Ok (Class (BinaryClass c))).
      { unfold binary_operators_dict in Hdict.
        repeat match type of Hdict with
          | (if String.eqb token ?s then _ else _) = _ =>
              destruct (String.eqb_spec token s) as [->|_];
              [injection Hdict as <-; split; reflexivity|]
          end.
        discriminate. }
      destruct Hprim as [-> ->]. cbn [bind]. rewrite Hhalt. reflexivity.
  - apply lookup_ge_None in Htoken.
    rewrite bool_decide_eq_false_2 by lia. reflexivity.
Qed.

(** In front of a binary operator that continues, [parse_rest] goes on with
    [parse_partial] at that operator. *)
Lemma rest_continues tokens parsed j lim c r :
  tokens !! j = Some (binary_symbol c) ->
  continues c lim = true ->
  Parses tokens j lim (Some parsed) r ->
  Rest tokens parsed j lim r.
Proof.
  intros Htoken Hgo [fuel H]. exists fuel.
  unfold parse_rest, token_is. rewrite Htoken.
  apply lookup_lt_Some in Htoken as Hlt.
  rewrite bool_decide_eq_true_2 by exact Hlt.
  assert (Hne : String.eqb (binary_symbol c) ")" = false) by (destruct c; reflexivity).
  rewrite Hne. cbn [andb negb].
  unfold next_operator, token_is. rewrite Htoken.
  assert (Hprim : String.eqb (binary_symbol c) "(" = false
                  /\ parse_primitive (binary_symbol c) true = Ok (Class (BinaryClass c)))
    by (destruct c; split; reflexivity).
  destruct Hprim as [-> ->]. cbn [bind]. rewrite Hgo. exact H.
Qed.

(** *** Appending strings *)

Lemma append_String k (a b : string) : (String k a ++ b = String k (a ++ b))%string.
Proof. reflexivity. Qed.

Lemma append_empty (b : string) : (EmptyString ++ b = b)%string.
Proof. reflexivity. Qed.

Lemma append_assoc (a b c : string) : ((a ++ b) ++ c = a ++ (b ++ c))%string.
Proof.
  induction a as [|k a IH]; [reflexivity|].
  rewrite !append_String, IH. reflexivity.
Qed.

Lemma append_empty_r (s : string) : (s ++ "")%string = s.
Proof.
  induction s as [|k s IH]; [reflexivity|]. rewrite append_String, IH. reflexivity.
Qed.

(** *** Leaves *)

Lemma letter_facts c :
  is_letter c = true ->
  is_digit c = false /\ is_operator_char c = false /\ Ascii.eqb c "." = false.
Proof.
  destruct c as [[] [] [] [] [] [] [] []]; vm_compute; intros H;
    first [discriminate H | repeat split].
Qed.

Lemma digit_facts c :
  is_digit c = true ->
  is_letter c = false /\ is_operator_char c = false /\ Ascii.eqb c "." = false.
Proof.
  destruct c as [[] [] [] [] [] [] [] []]; vm_compute; intros H;
    first [discriminate H | repeat split].
Qed.

Lemma operator_char_facts c :
  is_operator_char c = true -> is_digit c = false /\ is_letter c = false.
Proof.
  destruct c as [[] [] [] [] [] [] [] []]; vm_compute; intros H;
    first [discriminate H | repeat split].
Qed.

Lemma string_of_uint_digits d : all_chars is_digit (NilEmpty.string_of_uint d) = true.
Proof. induction d; cbn; try reflexivity; exact IHd. Qed.

(** The text of a non-negative integer: digits, at least one, that read
    back as the integer. *)
Lemma int_str_digits z :
  0 <= z -> (int_digits z <= digit_limit)%nat ->
  exists c rest,
    int_str z = String c rest
    /\ all_chars is_digit (String c rest) = true
    /\ int_of_token (String c rest) = Some z.
Proof.
  intros Hz Hlimit. unfold int_digits in Hlimit. rewrite Z.abs_eq in Hlimit by exact Hz.
  unfold int_str in *.
  assert (Hd : exists d, NilZero.string_of_int (Z.to_int z) = NilEmpty.string_of_uint d
                         /\ d <> Decimal.Nil /\ Z.of_uint d = z).
  { destruct z as [|p|p]; [| |lia].
    - exists (Decimal.D0 Decimal.Nil). repeat split; discriminate.
    - exists (Pos.to_uint p). cbn [Z.to_int NilZero.string_of_int].
      pose proof (DecimalPos.Unsigned.to_uint_nonnil p) as Hnil.
      split; [|split; [exact Hnil|]].
      + unfold NilZero.string_of_uint. destruct (Pos.to_uint p); congruence.
      + unfold Z.of_uint. rewrite DecimalPos.Unsigned.of_to. reflexivity. }
  destruct Hd as (d & Hd & Hnil & Hval). rewrite Hd in *.
  pose proof (string_of_uint_digits d) as Hdigits.
  pose proof (NilEmpty.usu d) as Husu.
  destruct (NilEmpty.string_of_uint d) as [|c rest] eqn:Hs.
  - destruct d; cbn in Hs; congruence.
  - exists c, rest. repeat split; [exact Hdigits|].
    unfold int_of_token. rewrite (proj2 (Nat.ltb_ge _ _) Hlimit), Husu.
    cbn [option_map]. rewrite Hval. reflexivity.
Qed.

Lemma span_spec p s :
  let (a, b) := span p s in
  s = (a ++ b)%string /\ all_chars p a = true
  /\ match b with EmptyString => true | String c _ => negb (p c) end = true.
Proof.
  induction s as [|c rest IH]; cbn [span]; [repeat split|].
  destruct (p c) eqn:Hc.
  - destruct (span p rest) as [a b]. destruct IH as (-> & Ha & Hb).
    repeat split; [|exact Hb]. cbn [all_chars]. rewrite Hc, Ha. reflexivity.
  - repeat split. rewrite Hc. reflexivity.
Qed.

(** A text in plain decimal notation, taken apart. *)
Lemma plain_decimal_parts s :
  plain_decimal s = true ->
  exists c whole fraction,
    s = (String c whole ++ String "." fraction)%string
    /\ all_chars is_digit (String c whole) = true
    /\ all_chars is_digit fraction = true.
Proof.
  unfold plain_decimal. pose proof (span_spec is_digit s) as Hspan.
  destruct (span is_digit s) as [whole r]. destruct Hspan as (-> & Hwhole & _).
  destruct whole as [|c whole]; [discriminate|].
  destruct r as [|k fraction]; [discriminate|].
  destruct k as [[] [] [] [] [] [] [] []]; try discriminate.
  intros Hfraction. exists c, whole, fraction. repeat split; assumption.
Qed.

Lemma uint_of_string_point (whole fraction : string) :
  NilEmpty.uint_of_string (whole ++ String "." fraction) = None.
Proof.
  induction whole as [|c whole IH]; rewrite ?append_String, ?append_empty;
    cbn [NilEmpty.uint_of_string].
  - destruct (NilEmpty.uint_of_string fraction); reflexivity.
  - rewrite IH. reflexivity.
Qed.

Lemma Number_token (L : pylib) n :
  reads_back L n ->
  (forall has_previous,
      parse_primitive (toString L (Number n)) has_previous
      = Ok (Instance (Number n)))
  /\ String.eqb (toString L (Number n)) "(" = false.
Proof.
  destruct n as [z|f]; cbn [reads_back toString number_str].
  - intros [Hz Hlimit].
    destruct (int_str_digits z Hz Hlimit) as (c & rest & -> & Hdigits & Hint).
    cbn [all_chars] in Hdigits. apply andb_prop in Hdigits as [Hc _].
    split.
    + intros hp. unfold parse_primitive. cbn [match_number]. rewrite Hc, Hint.
      reflexivity.
    + cbn [String.eqb].
      destruct (Ascii.eqb_spec c "("); [subst; discriminate|reflexivity].
  - intros [Hplain Hfloat].
    destruct (plain_decimal_parts _ Hplain) as (c & whole & fraction & Htext & Hwhole & _).
    cbn [all_chars] in Hwhole. apply andb_prop in Hwhole as [Hc _].
    split.
    + intros hp. unfold parse_primitive. rewrite Hfloat.
      rewrite Htext, append_String. cbn [match_number]. rewrite Hc.
      cbn [orb]. unfold int_of_token.
      rewrite <- append_String, uint_of_string_point.
      destruct (digit_limit <? _)%nat; reflexivity.
    + rewrite Htext, append_String. cbn [String.eqb].
      destruct (Ascii.eqb_spec c "("); [subst; discriminate|reflexivity].
Qed.

Lemma plain_name_head s :
  plain_name s = true ->
  exists c rest, s = String c rest /\ is_letter c = true
                 /\ all_chars is_letter rest = true
                 /\ unary_functions_dict s = None.
Proof.
  unfold plain_name. intros H. apply andb_prop in H as [Hletters Hdict].
  destruct s as [|c rest]; [discriminate|].
  cbn [all_chars] in Hletters. apply andb_prop in Hletters as [Hc Hrest].
  exists c, rest. repeat split; try assumption.
  destruct (unary_functions_dict (String c rest)); [discriminate|reflexivity].
Qed.

Lemma letter_not_char c d rest s :
  is_letter c = true -> is_letter d = false ->
  String.eqb (String c rest) (String d s) = false.
Proof.
  intros Hc Hd. cbn [String.eqb].
  destruct (Ascii.eqb_spec c d) as [->|_]; [congruence|reflexivity].
Qed.

Lemma Var_token (L : pylib) s :
  plain_name s = true ->
  (forall has_previous,
      parse_primitive (toString L (Var s)) has_previous = Ok (Instance (Var s)))
  /\ String.eqb (toString L (Var s)) "(" = false.
Proof.
  intros Hs. cbn [toString].
  destruct (plain_name_head s Hs) as (c & rest & -> & Hc & _ & Hdict).
  destruct (letter_facts c Hc) as (Hd & _ & Hdot).
  split.
  - intros hp. unfold parse_primitive. cbn [match_number]. rewrite Hd, Hdot.
    cbn [orb andb].
    unfold prefix_operators_dict, binary_operators_dict.
    rewrite !(letter_not_char c _ rest _ Hc) by reflexivity.
    rewrite Hdict. cbn [match_name]. rewrite Hc.
    destruct hp; reflexivity.
  - apply letter_not_char; [exact Hc|reflexivity].
Qed.

(** For one: were 2.5 written "2.5", as Python writes it, it would read
    back. *)
Example decimal_reads_back :
  plain_decimal "2.5" = true
  /\ float_of_token "2.5" = Some 2.5%float
  /\ parse_text 2 "2.5" = Ok (Number (PyFloat 2.5)).
Proof. repeat split; reflexivity. Qed.

(** *** Positions in the token list *)

Lemma drop_head (T : list string) i a rest :
  drop i T = a :: rest -> T !! i = Some a /\ drop (i + 1) T = rest.
Proof.
  intros H. split.
  - rewrite <- (Nat.add_0_r i), <- lookup_drop, H. reflexivity.
  - rewrite <- drop_drop, H. reflexivity.
Qed.

Lemma drop_past (T : list string) i (ts rest : list string) :
  drop i T = (ts ++ rest)%list -> drop (i + length ts) T = rest.
Proof.
  intros H. rewrite <- drop_drop, H. apply drop_app_length.
Qed.

Lemma drop_lookup (T : list string) i : T !! i = head (drop i T).
Proof.
  rewrite <- (Nat.add_0_r i) at 1. rewrite <- lookup_drop.
  destruct (drop i T); reflexivity.
Qed.

(** *** What the rules of [__str__] guarantee to the parser *)

Lemma continues_Operator x : chain_continues x Operator = true.
Proof. destruct x as [n|s|c u v|c u|u]; try reflexivity. destruct c; reflexivity. Qed.

Lemma halts_close lim : halts (Some ")") lim = true.
Proof. reflexivity. Qed.

Lemma right_edge_halts_close x : right_edge_halts (Some ")") x = true.
Proof. destruct x; reflexivity. Qed.

Lemma binary_operators_dict_symbol c : binary_operators_dict (binary_symbol c) = Some c.
Proof. destruct c; reflexivity. Qed.

Lemma left_unwrapped_continues c lhs lim :
  wraps_left c lhs = false -> continues c lim = true -> chain_continues lhs lim = true.
Proof.
  destruct lhs as [n|s|c1 u v|c1 u|u]; try reflexivity.
  destruct c, c1, lim as [| |[]]; vm_compute; congruence.
Qed.

Lemma left_unwrapped_halts c lhs :
  wraps_left c lhs = false -> right_edge_halts (Some (binary_symbol c)) lhs = true.
Proof.
  destruct lhs as [n|s|c1 u v|c1 u|u]; try reflexivity.
  - destruct c, c1; vm_compute; congruence.
  - destruct c; vm_compute; congruence.
Qed.

Lemma right_unwrapped_continues c rhs :
  wraps_right c rhs = false -> regroups c rhs = false ->
  chain_continues rhs (LimitBinary c) = true.
Proof.
  destruct rhs as [n|s|c2 u v|c2 u|u]; try reflexivity.
  destruct c, c2; vm_compute; congruence.
Qed.

Lemma right_unwrapped_halts c rhs next :
  wraps_right c rhs = false -> starts_minus rhs = false ->
  halts next (LimitBinary c) = true -> right_edge_halts next rhs = true.
Proof.
  destruct rhs as [n|s|c2 u v|c2 u|u]; try reflexivity; [|discriminate].
  intros Hwrap _. unfold right_edge_halts, halts.
  destruct next as [token|]; [|reflexivity].
  destruct (String.eqb token ")"); [reflexivity|]. cbn [orb].
  destruct (binary_operators_dict token) as [c3|]; [|discriminate].
  revert Hwrap. destruct c, c2, c3; vm_compute; congruence.
Qed.

Lemma Negate_child_continues x :
  wraps_child_of_Negate x = false -> chain_continues x LimitNegate = true.
Proof.
  destruct x as [n|s|c1 u v|c1 u|u]; try reflexivity.
  destruct c1; vm_compute; congruence.
Qed.

Lemma Negate_child_halts x next :
  wraps_child_of_Negate x = false ->
  halts next LimitNegate = true -> right_edge_halts next x = true.
Proof.
  destruct x as [n|s|c1 u v|c1 u|u]; try reflexivity; [|intros _ H; exact H].
  intros Hwrap. unfold right_edge_halts, halts.
  destruct next as [token|]; [|reflexivity].
  destruct (String.eqb token ")"); [reflexivity|]. cbn [orb].
  destruct (binary_operators_dict token) as [c3|]; [|discriminate].
  revert Hwrap. destruct c1, c3; vm_compute; congruence.
Qed.

(** *** The parser on the tokens of a tree *)

Section ParseTokens.

Variable L : pylib.

(** A tree that parses back does so within a complete subexpression. *)
Lemma parses_back_enclosed x :
  parses_back L x ->
  forall (T : list string) i (post : list string),
    drop i T = (tokens_of L x ++ ")" :: post)%list ->
    Parses T i Operator None (x, (i + length (tokens_of L x))%nat, T)
    /\ T !! (i + length (tokens_of L x))%nat = Some ")".
Proof.
  intros IH T i post Hdrop.
  assert (Hclose : T !! (i + length (tokens_of L x))%nat = Some ")")
    by (rewrite drop_lookup, (drop_past _ _ _ _ Hdrop); reflexivity).
  split; [|exact Hclose].
  apply (IH T i (")" :: post)); try assumption.
  - left. reflexivity.
  - apply continues_Operator.
  - apply right_edge_halts_close.
  - exists 0%nat. apply rest_halts. rewrite Hclose. reflexivity.
Qed.

(** An operand, in parentheses or not. *)
Lemma operand_parses x b :
  parses_back L x ->
  forall (T : list string) i (post : list string) lim prev r,
    drop i T = (wrap b (tokens_of L x) ++ post)%list ->
    (b = false ->
       (prev = None \/ starts_minus x = false)
       /\ chain_continues x lim = true
       /\ right_edge_halts (head post) x = true) ->
    Rest T x (i + length (wrap b (tokens_of L x))) lim r ->
    Parses T i lim prev r.
Proof.
  intros IH T i post lim prev r Hdrop Hcond Hrest.
  destruct b; cbn [wrap] in *.
  - cbn [app] in Hdrop. apply drop_head in Hdrop as [Hopen Hdrop].
    rewrite <- app_assoc in Hdrop. cbn [app] in Hdrop.
    destruct (parses_back_enclosed x IH T (i + 1) post Hdrop) as [Hinner Hclose].
    apply (step_parenthesis T i lim prev x _ r Hopen Hinner Hclose).
    replace (i + 1 + length (tokens_of L x) + 1)%nat
      with (i + length ("(" :: tokens_of L x ++ [")"]))%nat; [exact Hrest|].
    cbn [length]. rewrite length_app. cbn [length]. lia.
  - destruct (Hcond eq_refl) as (Hprev & Hgo & Hhalt).
    apply (IH T i post); assumption.
Qed.

Lemma tokens_parse_back e : renders_unambiguously L e -> parses_back L e.
Proof.
  induction e as [n|s|c lhs IHl rhs IHr|c x IHx|x IHx]; cbn [renders_unambiguously];
    intros Hok T i post lim prev r Hdrop Hprev Hgo Hhalt Hrest.
  - (* Number *)
    destruct (Number_token L n Hok) as [Hleaf Hopen].
    cbn [tokens_of app] in Hdrop. apply drop_head in Hdrop as [Htoken _].
    exact (step_leaf T i lim prev _ _ r Htoken Hleaf Hopen Hrest).
  - (* Variable *)
    destruct (Var_token L s Hok) as [Hleaf Hopen].
    cbn [tokens_of app] in Hdrop. apply drop_head in Hdrop as [Htoken _].
    exact (step_leaf T i lim prev _ _ r Htoken Hleaf Hopen Hrest).
  - (* Binary *)
    destruct Hok as (Hokl & Hokr & Hregroup & Hminus).
    specialize (IHl Hokl). specialize (IHr Hokr).
    cbn [tokens_of chain_continues right_edge_halts starts_minus] in *.
    set (tl := wrap (wraps_left c lhs) (tokens_of L lhs)) in *.
    set (tr := wrap (wraps_right c rhs) (tokens_of L rhs)) in *.
    rewrite <- app_assoc in Hdrop. cbn [app] in Hdrop.
    pose proof (drop_past _ _ _ _ Hdrop) as Hdrop2.
    apply drop_head in Hdrop2 as [Hsym Hdrop3].
    pose proof (drop_past _ _ _ _ Hdrop3) as Hdrop4.
    assert (Hend : (i + length (tl ++ binary_symbol c :: tr)
                    = i + length tl + 1 + length tr)%nat)
      by (rewrite length_app; cbn [length]; lia).
    rewrite Hend in Hrest.
    (* the left operand *)
    apply (operand_parses lhs (wraps_left c lhs) IHl T i _ lim prev r Hdrop).
    { intros Hwrap. split; [|split].
      - destruct Hprev as [Hprev|Hprev]; [left; exact Hprev|right].
        rewrite Hwrap in Hprev. exact Hprev.
      - exact (left_unwrapped_continues c lhs lim Hwrap Hgo).
      - exact (left_unwrapped_halts c lhs Hwrap). }
    (* the operator *)
    apply (rest_continues T lhs _ lim c r Hsym Hgo).
    (* the right operand *)
    assert (Hstop : halts (T !! (i + length tl + 1 + length tr)%nat) (LimitBinary c) = true)
      by (rewrite drop_lookup, Hdrop4; exact Hhalt).
    apply (step_binary T _ lim lhs c rhs (i + length tl + 1 + length tr) r Hsym);
      [|exact Hrest].
    apply (operand_parses rhs (wraps_right c rhs) IHr T _ post _ _ _ Hdrop3).
    { intros Hwrap. destruct Hminus as [Hminus|Hminus]; [congruence|].
      split; [|split].
      - right. exact Hminus.
      - exact (right_unwrapped_continues c rhs Hwrap Hregroup).
      - exact (right_unwrapped_halts c rhs _ Hwrap Hminus Hhalt). }
    exists 0%nat. apply rest_halts. exact Hstop.
  - (* a function *)
    specialize (IHx Hok). cbn [tokens_of app length] in *.
    apply drop_head in Hdrop as [Hname Hdrop].
    apply drop_head in Hdrop as [Hopen Hdrop].
    rewrite <- app_assoc in Hdrop. cbn [app] in Hdrop.
    replace (i + 1 + 1)%nat with (i + 2)%nat in Hdrop by lia.
    destruct (parses_back_enclosed x IHx T (i + 2) post Hdrop) as [Hinner Hclose].
    apply (step_function T i lim prev c x _ r Hname Hopen Hinner Hclose).
    replace (i + 2 + length (tokens_of L x) + 1)%nat
      with (i + S (S (length (tokens_of L x ++ [")"]))))%nat; [exact Hrest|].
    rewrite length_app. cbn [length]. lia.
  - (* Negate *)
    specialize (IHx Hok).
    cbn [tokens_of chain_continues right_edge_halts starts_minus app length] in *.
    destruct Hprev as [->|Hprev]; [|discriminate].
    set (tx := wrap (wraps_child_of_Negate x) (tokens_of L x)) in *.
    apply drop_head in Hdrop as [Hminus Hdrop].
    pose proof (drop_past _ _ _ _ Hdrop) as Hdrop2.
    replace (i + S (length tx))%nat with (i + 1 + length tx)%nat in Hrest by lia.
    apply (step_negate T i lim x (i + 1 + length tx) r Hminus); [|exact Hrest].
    apply (operand_parses x (wraps_child_of_Negate x) IHx T _ post _ _ _ Hdrop).
    { intros Hwrap. split; [|split].
      - left. reflexivity.
      - exact (Negate_child_continues x Hwrap).
      - exact (Negate_child_halts x _ Hwrap Hhalt). }
    exists 0%nat. apply rest_halts. rewrite drop_lookup, Hdrop2. exact Hhalt.
Qed.

End ParseTokens.

(** *** The tokens of a rendered tree *)

Lemma span_shorter p s : (String.length (snd (span p s)) <= String.length s)%nat.
Proof.
  induction s as [|c rest IH]; cbn [span]; [cbn; lia|].
  destruct (p c); [|cbn; lia].
  destruct (span p rest) as [a b]. cbn [snd String.length] in *. lia.
Qed.

Lemma span_all p a rest :
  all_chars p a = true ->
  match rest with EmptyString => true | String c _ => negb (p c) end = true ->
  span p (a ++ rest) = (a, rest).
Proof.
  intros Ha Hrest. induction a as [|k a IH]; rewrite ?append_String, ?append_empty.
  - destruct rest as [|c rest]; [reflexivity|].
    apply negb_true_iff in Hrest. cbn [span]. rewrite Hrest. reflexivity.
  - cbn [all_chars] in Ha. apply andb_prop in Ha as [Hk Ha].
    cbn [span]. rewrite Hk, (IH Ha). reflexivity.
Qed.

Lemma match_token_shorter c rest token r :
  match_token (String c rest) = Some (token, r) ->
  (String.length r <= String.length rest)%nat.
Proof.
  unfold match_token.
  destruct (is_operator_char c); [intros [= _ <-]; lia|].
  destruct (is_digit c) eqn:Hd.
  - pose proof (span_shorter is_digit rest) as H1.
    cbn [span]. rewrite Hd.
    destruct (span is_digit rest) as [a r1]. cbn [snd] in H1.
    destruct r1 as [|k r2]; [intros [= _ <-]; exact H1|].
    assert (Hk : (String.length r2 < String.length rest)%nat) by (cbn in H1; lia).
    pose proof (span_shorter is_digit r2) as H2.
    destruct (span is_digit r2) as [fraction r3]. cbn [snd] in H2.
    destruct k as [[] [] [] [] [] [] [] []]; intros [= _ <-]; cbn in H1 |- *; lia.
  - destruct (Ascii.eqb c ".").
    + pose proof (span_shorter is_digit rest) as H1.
      destruct (span is_digit rest) as [fraction r2]. cbn [snd] in H1.
      destruct fraction; [discriminate|]. intros [= _ <-]. exact H1.
    + destruct (is_letter c) eqn:Hl; [|discriminate].
      pose proof (span_shorter is_letter rest) as H1.
      cbn [span]. rewrite Hl.
      destruct (span is_letter rest) as [a b]. cbn [snd] in H1.
      intros [= _ <-]. exact H1.
Qed.

Lemma findall_enough n :
  forall fuel s, (fuel <= n)%nat -> (String.length s <= fuel)%nat ->
    findall fuel s = findall (String.length s) s.
Proof.
  induction n as [|n IH]; intros fuel s Hn Hlen.
  - destruct s; [|cbn in Hlen; lia]. destruct fuel; reflexivity.
  - destruct s as [|c rest]; [destruct fuel; reflexivity|].
    destruct fuel as [|fuel]; [cbn in Hlen; lia|].
    cbn [String.length] in *. cbn [findall].
    destruct (match_token (String c rest)) as [[token r]|] eqn:Hm.
    + pose proof (match_token_shorter c rest token r Hm) as Hr.
      rewrite (IH fuel r) by lia. rewrite (IH (String.length rest) r) by lia.
      reflexivity.
    + apply IH; lia.
Qed.

Lemma tokenize_token c rest token r :
  match_token (String c rest) = Some (token, r) ->
  tokenize (String c rest) = token :: tokenize r.
Proof.
  intros Hm. unfold tokenize. cbn [String.length findall]. rewrite Hm.
  pose proof (match_token_shorter c rest token r Hm) as Hr.
  rewrite (findall_enough (String.length rest)) by lia. reflexivity.
Qed.

Lemma tokenize_skip c rest :
  match_token (String c rest) = None -> tokenize (String c rest) = tokenize rest.
Proof. intros Hm. unfold tokenize. cbn [String.length findall]. rewrite Hm. reflexivity. Qed.

Lemma tokenize_operator_char c rest :
  is_operator_char c = true -> tokenize (String c rest) = String c "" :: tokenize rest.
Proof.
  intros Hc. apply tokenize_token. unfold match_token. rewrite Hc. reflexivity.
Qed.

Lemma delimited_not_digit rest :
  delimited rest = true ->
  match rest with EmptyString => true | String c _ => negb (is_digit c) end = true.
Proof.
  destruct rest as [|c rest]; [reflexivity|]. cbn [delimited].
  intros H. apply negb_true_iff in H. apply orb_false_elim in H as [H _].
  apply orb_false_elim in H as [H _]. rewrite H. reflexivity.
Qed.

Lemma delimited_not_letter rest :
  delimited rest = true ->
  match rest with EmptyString => true | String c _ => negb (is_letter c) end = true.
Proof.
  destruct rest as [|c rest]; [reflexivity|]. cbn [delimited].
  intros H. apply negb_true_iff in H. apply orb_false_elim in H as [H _].
  apply orb_false_elim in H as [_ H]. rewrite H. reflexivity.
Qed.

(** Digits followed by a delimited text are one token. *)
Lemma tokenize_digits c a rest :
  all_chars is_digit (String c a) = true -> delimited rest = true ->
  tokenize (String c a ++ rest) = String c a :: tokenize rest.
Proof.
  intros Hdigits Hrest.
  pose proof (span_all is_digit (String c a) rest Hdigits
                (delimited_not_digit rest Hrest)) as Hspan.
  rewrite append_String in *. apply tokenize_token.
  cbn [all_chars] in Hdigits. apply andb_prop in Hdigits as [Hc _].
  destruct (digit_facts c Hc) as (_ & Hop & _).
  unfold match_token. rewrite Hop, Hc, Hspan.
  destruct rest as [|k rest]; [reflexivity|].
  cbn [delimited] in Hrest. apply negb_true_iff in Hrest.
  apply orb_false_elim in Hrest as [_ Hdot].
  destruct k as [[] [] [] [] [] [] [] []]; try reflexivity. discriminate Hdot.
Qed.

(** A plain decimal followed by a delimited text is one token. *)
Lemma tokenize_decimal c whole fraction rest :
  all_chars is_digit (String c whole) = true ->
  all_chars is_digit fraction = true ->
  delimited rest = true ->
  tokenize ((String c whole ++ String "." fraction) ++ rest)
  = (String c whole ++ String "." fraction)%string :: tokenize rest.
Proof.
  intros Hwhole Hfraction Hrest.
  rewrite append_assoc, (append_String "." fraction rest).
  pose proof (span_all is_digit (String c whole) (String "." (fraction ++ rest))
                Hwhole eq_refl) as H1.
  pose proof (span_all is_digit fraction rest Hfraction
                (delimited_not_digit rest Hrest)) as H2.
  rewrite append_String in *. apply tokenize_token.
  cbn [all_chars] in Hwhole. apply andb_prop in Hwhole as [Hc _].
  destruct (digit_facts c Hc) as (_ & Hop & _).
  unfold match_token. rewrite Hop, Hc, H1, H2. reflexivity.
Qed.

(** Letters followed by a delimited text are one token. *)
Lemma tokenize_letters c a rest :
  all_chars is_letter (String c a) = true -> delimited rest = true ->
  tokenize (String c a ++ rest) = String c a :: tokenize rest.
Proof.
  intros Hletters Hrest.
  pose proof (span_all is_letter (String c a) rest Hletters
                (delimited_not_letter rest Hrest)) as Hspan.
  rewrite append_String in *. apply tokenize_token.
  cbn [all_chars] in Hletters. apply andb_prop in Hletters as [Hc _].
  destruct (letter_facts c Hc) as (Hd & Hop & Hdot).
  unfold match_token. rewrite Hop, Hd, Hdot, Hc, Hspan. reflexivity.
Qed.

Section TokensOfText.

Variable L : pylib.

Lemma toString_Negate x :
  toString L (Negate x)
  = ("-" ++ if wraps_child_of_Negate x
            then "(" ++ toString L x ++ ")" else toString L x)%string.
Proof.
  cbn [toString]. fold (wraps_child_of_Negate x).
  destruct (wraps_child_of_Negate x); reflexivity.
Qed.

Lemma toString_Binary c lhs rhs :
  toString L (Binary c lhs rhs)
  = ((if wraps_left c lhs then parenthesize (toString L lhs) else toString L lhs)
     ++ str_spacing c ++ binary_symbol c ++ str_spacing c
     ++ (if wraps_right c rhs then parenthesize (toString L rhs) else toString L rhs))%string.
Proof. reflexivity. Qed.

Lemma tokenize_operand x (b : bool) rest :
  tokenizes_back L x -> delimited rest = true ->
  tokenize ((if b then parenthesize (toString L x) else toString L x) ++ rest)
  = (wrap b (tokens_of L x) ++ tokenize rest)%list.
Proof.
  intros IH Hrest. destruct b; cbn [wrap]; [|apply IH, Hrest].
  unfold parenthesize.
  rewrite !append_assoc, !append_String, !append_empty.
  rewrite tokenize_operator_char by reflexivity.
  rewrite IH by reflexivity.
  rewrite tokenize_operator_char by reflexivity.
  cbn [app]. rewrite <- app_assoc. reflexivity.
Qed.

(** A binary operator with its spacing is one token. *)
Lemma tokenize_operator c rest :
  tokenize (str_spacing c ++ binary_symbol c ++ str_spacing c ++ rest)
  = binary_symbol c :: tokenize rest.
Proof.
  destruct c; cbn [str_spacing binary_symbol];
    rewrite ?append_String, ?append_empty;
    rewrite ?(tokenize_skip " "%char) by reflexivity;
    rewrite tokenize_operator_char by reflexivity;
    rewrite ?(tokenize_skip " "%char) by reflexivity;
    reflexivity.
Qed.

Lemma operator_delimited c rest :
  delimited (str_spacing c ++ binary_symbol c ++ str_spacing c ++ rest) = true.
Proof. destruct c; reflexivity. Qed.

Lemma text_tokenizes_back e : renders_unambiguously L e -> tokenizes_back L e.
Proof.
  induction e as [n|s|c lhs IHl rhs IHr|c x IHx|x IHx]; cbn [renders_unambiguously];
    intros Hok rest Hrest.
  - destruct n as [z|f]; cbn [reads_back] in Hok; cbn [toString number_str tokens_of].
    + destruct (int_str_digits z (proj1 Hok) (proj2 Hok)) as (k & a & -> & Hdigits & _).
      apply tokenize_digits; assumption.
    + destruct Hok as [Hplain _].
      destruct (plain_decimal_parts _ Hplain) as (k & a & b & -> & Ha & Hb).
      apply tokenize_decimal; assumption.
  - cbn [toString tokens_of].
    destruct (plain_name_head s Hok) as (k & a & -> & Hk & Ha & _).
    apply tokenize_letters; [|exact Hrest].
    cbn [all_chars]. rewrite Hk, Ha. reflexivity.
  - destruct Hok as (Hokl & Hokr & _).
    rewrite toString_Binary. cbn [tokens_of].
    rewrite !append_assoc.
    rewrite (tokenize_operand lhs _ _ (IHl Hokl)) by apply operator_delimited.
    rewrite tokenize_operator.
    rewrite (tokenize_operand rhs _ _ (IHr Hokr) Hrest).
    rewrite <- app_assoc. reflexivity.
  - cbn [toString tokens_of].
    rewrite !append_assoc.
    assert (Hname : exists k a, unary_symbol c = String k a
                                /\ all_chars is_letter (String k a) = true)
      by (destruct c; eexists _, _; split; reflexivity).
    destruct Hname as (k & a & -> & Hletters).
    rewrite !(append_String "("), !append_empty.
    rewrite tokenize_letters by (exact Hletters || reflexivity).
    rewrite tokenize_operator_char by reflexivity.
    rewrite (IHx Hok) by reflexivity.
    rewrite append_String, append_empty.
    rewrite tokenize_operator_char by reflexivity.
    cbn [app]. rewrite <- app_assoc. reflexivity.
  - rewrite toString_Negate. cbn [tokens_of].
    rewrite append_assoc, append_String, append_empty.
    rewrite tokenize_operator_char by reflexivity.
    change ("(" ++ toString L x ++ ")")%string with (parenthesize (toString L x)).
    rewrite (tokenize_operand x _ _ (IHx Hok) Hrest). reflexivity.
Qed.

End TokensOfText.

(** *** From the text back to the tree *)

Lemma tokens_of_text (L : pylib) (t : node) :
  renders_unambiguously L t -> tokenize (toString L t) = tokens_of L t.
Proof.
  intros Hok.
  pose proof (text_tokenizes_back L t Hok "" eq_refl) as H.
  rewrite append_empty_r in H. rewrite H. apply app_nil_r.
Qed.

Lemma tokens_of_nonempty (L : pylib) (t : node) : (0 < length (tokens_of L t))%nat.
Proof.
  destruct t; cbn [tokens_of length]; try lia.
  rewrite length_app. cbn [length]. lia.
Qed.

Lemma right_edge_halts_end x : right_edge_halts None x = true.
Proof. destruct x; reflexivity. Qed.

Lemma tokens_parse (L : pylib) (t : node) :
  renders_unambiguously L t ->
  exists fuel0, forall fuel, (fuel0 <= fuel)%nat ->
    parse fuel (tokens_of L t) = Ok (Some t, tokens_of L t).
Proof.
  intros Hok. set (T := tokens_of L t).
  assert (Hparses : Parses T 0%nat Operator None (t, length T, T)).
  { apply (tokens_parse_back L t Hok T 0%nat []).
    - cbn [drop]. symmetry. apply app_nil_r.
    - left. reflexivity.
    - apply continues_Operator.
    - apply right_edge_halts_end.
    - exists 0%nat. apply rest_halts.
      destruct (T !! _) as [token|] eqn:Htoken; [|reflexivity].
      apply lookup_lt_Some in Htoken. unfold T in Htoken. lia. }
  destruct Hparses as [fuel1 H1]. exists (S fuel1).
  assert (Hparse : parse (S fuel1) T = Ok (Some t, T)).
  { unfold parse. cbn [parse_loop].
    rewrite bool_decide_eq_true_2 by apply tokens_of_nonempty.
    rewrite H1. cbn [bind].
    destruct fuel1; cbn [parse_loop];
      rewrite bool_decide_eq_false_2 by lia; reflexivity. }
  intros fuel Hfuel. rewrite <- Hparse.
  apply parse_mono; [exact Hfuel|]. rewrite Hparse. discriminate.
Qed.

Lemma renders_printable (L : pylib) t :
  renders_unambiguously L t -> printable t = true.
Proof.
  induction t as [[z|f]|s|c x IHx y IHy|c x IHx|x IHx];
    cbn [renders_unambiguously printable reads_back]; try reflexivity.
  - intros [_ Hlimit]. apply Nat.leb_le. exact Hlimit.
  - intros (Hx & Hy & _). rewrite (IHx Hx), (IHy Hy). reflexivity.
  - exact IHx.
  - exact IHx.
Qed.

(** C6, amended. [__str__] puts the child of a [Negate] in parentheses
    exactly when it is an operator of lower precedence, and an operand of a
    binary operator exactly when it is an operator of lower precedence, or of
    equal precedence under an operator that is not associative on that side.
    The text parses back to the tree it renders for every tree whose numbers
    read back (non-negative integers of at most 4300 digits, the most that
    [str] writes and [int] reads; floats that [str] writes in plain decimal
    notation and [float] reads back) and whose variables have plain names,
    in which no right operand of [Add] is a sum or difference and none of
    [Multiply] a product or quotient, and in which no right operand rendered
    without parentheses begins with a minus sign: with room enough for the
    nested calls, [str] returns the text and [parse] of its tokens the tree;
    with less, the room runs out ([RecursionError]) and nothing else
    happens. *)
Theorem rendered_text_parses_back (L : pylib) :
  (forall x,
      toString L (Negate x)
      = ("-" ++ if wraps_child_of_Negate x
                then "(" ++ toString L x ++ ")" else toString L x)%string)
  /\ (forall c lhs rhs,
        toString L (Binary c lhs rhs)
        = ((if wraps_left c lhs then parenthesize (toString L lhs) else toString L lhs)
           ++ str_spacing c ++ binary_symbol c ++ str_spacing c
           ++ (if wraps_right c rhs
               then parenthesize (toString L rhs) else toString L rhs))%string)
  /\ (forall t,
        renders_unambiguously L t ->
        (exists fuel0, forall fuel, (fuel0 <= fuel)%nat ->
           str_in L fuel t = Ok (toString L t)
           /\ parse fuel (tokenize (toString L t))
              = Ok (Some t, tokenize (toString L t))
           /\ reparsed L fuel t = Ok t)
        /\ forall fuel, within (reparsed L fuel t) (Ok t)).
Proof.
  split; [exact (toString_Negate L)|]. split; [exact (toString_Binary L)|].
  intros t Hok. destruct (tokens_parse L t Hok) as [fuel0 Hparse].
  pose proof (renders_printable L t Hok) as Hprintable.
  assert (Hback : forall fuel, (fuel0 <= fuel)%nat -> parse_text fuel (toString L t) = Ok t).
  { intros fuel Hfuel. unfold parse_text. rewrite (tokens_of_text L t Hok).
    rewrite (Hparse fuel Hfuel). reflexivity. }
  split.
  - exists (fuel0 + height t)%nat. intros fuel Hfuel.
    assert (Hstr : str_in L fuel t = Ok (toString L t)).
    { rewrite str_in_enough by lia. unfold str_node. rewrite Hprintable. reflexivity. }
    split; [exact Hstr|]. split.
    + rewrite (tokens_of_text L t Hok). apply Hparse. lia.
    + unfold reparsed. rewrite Hstr. cbn [bind]. apply Hback. lia.
  - intros fuel. unfold reparsed.
    destruct (str_in_within L fuel t) as [->|Hstr]; [left; reflexivity|].
    rewrite Hstr. unfold str_node. rewrite Hprintable. cbn [bind].
    destruct (parse_text fuel (toString L t)) as [t'|e|] eqn:Htext;
      [right|right|left; reflexivity];
      rewrite <- (Hback (fuel + fuel0)%nat) by lia;
      rewrite <- Htext; symmetry; apply parse_text_mono; try lia;
      rewrite Htext; discriminate.
Qed.

(** A tree with a negation, a parenthesized sum and a tower of powers. *)
Lemma rendered_text_parses_back_witness :
  toString no_floats
    (Binary Subtract
       (Binary Multiply (Negate (Var "x")) (Binary Add (Var "y") NUMBER_2))
       (Binary Power (Var "z") (Binary Power (Unary Sine (Var "x")) NUMBER_2)))
  = "-x*(y + 2) - z^sin(x)^2"
  /\ exists fuel0, forall fuel, (fuel0 <= fuel)%nat ->
       reparsed no_floats fuel
         (Binary Subtract
            (Binary Multiply (Negate (Var "x")) (Binary Add (Var "y") NUMBER_2))
            (Binary Power (Var "z") (Binary Power (Unary Sine (Var "x")) NUMBER_2)))
       = Ok (Binary Subtract
               (Binary Multiply (Negate (Var "x")) (Binary Add (Var "y") NUMBER_2))
               (Binary Power (Var "z") (Binary Power (Unary Sine (Var "x")) NUMBER_2))).
Proof.
  split; [reflexivity|].
  assert (Hok : renders_unambiguously no_floats
                  (Binary Subtract
                     (Binary Multiply (Negate (Var "x")) (Binary Add (Var "y") NUMBER_2))
                     (Binary Power (Var "z")
                        (Binary Power (Unary Sine (Var "x")) NUMBER_2)))).
  { cbn [renders_unambiguously reads_back NUMBER_2].
    repeat split; try reflexivity; try lia; try (vm_compute; lia);
      first [left; reflexivity|right; reflexivity]. }
  destruct (proj1 (proj2 (proj2 (rendered_text_parses_back no_floats)) _ Hok))
    as [fuel0 H].
  exists fuel0. intros fuel Hfuel. exact (proj2 (proj2 (H fuel Hfuel))).
Defined.

(** ** Worked examples, and the prefix operator after an operand *)

Lemma parse_text_from fuel0 fuel s t :
  parse_text fuel0 s = Ok t -> parse_text (fuel0 + fuel) s = Ok t.
Proof.
  intros H. rewrite <- H. apply parse_text_mono; [lia|]. rewrite H. discriminate.
Qed.

(** The text "2+3*4" parses as 2 + (3*4) and evaluates to 14 under no
    bindings. *)
Example product_binds_tighter_than_sum (L : pylib) (fuel : nat) :
  parse_text (6 + fuel) "2+3*4"
  = Ok (Binary Add NUMBER_2 (Binary Multiply (Number (PyInt 3)) (Number (PyInt 4))))
  /\ (do t <- parse_text (6 + fuel) "2+3*4"; evaluate L t ∅) = Ok (PyInt 14).
Proof.
  rewrite (parse_text_from 6 fuel "2+3*4" _ eq_refl). split; reflexivity.
Qed.

(** The text "2x" parses as the product of 2 and x, and evaluates to
    10 when x is bound to 5. *)
Example juxtaposition_multiplies (L : pylib) (fuel : nat) :
  parse_text (4 + fuel) "2x" = Ok (Binary Multiply NUMBER_2 (Var "x"))
  /\ (do t <- parse_text (4 + fuel) "2x"; evaluate L t {["x" := PyInt 5]})
     = Ok (PyInt 10).
Proof.
  rewrite (parse_text_from 4 fuel "2x" _ eq_refl). split; reflexivity.
Qed.

(** The derivative of "sin(x)" in x, simplified, renders as "cos(x)". *)
Example derivative_of_sine_rendered (L : pylib) (fuel : nat) :
  rendered_derivative L (4 + fuel) "sin(x)" "x" = Ok "cos(x)".
Proof.
  unfold rendered_derivative.
  rewrite (parse_text_from 4 fuel "sin(x)" _ eq_refl). reflexivity.
Qed.

(** The text "(1+2", whose parenthesis is never closed, fails to parse
    with the assertion "Mismatched parentheses". *)
Example unclosed_parenthesis_raises (fuel : nat) :
  parse (6 + fuel) (tokenize "(1+2") = Raise (AssertionError "Mismatched parentheses").
Proof.
  rewrite (parse_mono 6 (6 + fuel)); [reflexivity|lia|]. vm_compute. discriminate.
Qed.

(** X1. With a previous operand no token is classified as the prefix
    operator: ["-"] is a key of the binary operators, looked up first. So the
    text "x*-y" parses as x * (x - y): the minus sign is taken for a
    subtraction from the operand before the product sign. *)
Theorem prefix_fallback_is_never_taken :
  (forall token, parse_primitive token true <> Ok (Class NegateClass))
  /\ (forall fuel,
        parse_text (6 + fuel) "x*-y"
        = Ok (Binary Multiply (Var "x") (Binary Subtract (Var "x") (Var "y")))).
Proof.
  split.
  - intros token. unfold parse_primitive.
    destruct (match_number token).
    + destruct (int_of_token token); [discriminate|].
      destruct (float_of_token token); discriminate.
    + destruct (binary_operators_dict token) eqn:Hbinary; [discriminate|].
      unfold prefix_operators_dict.
      destruct (String.eqb token "-") eqn:Hminus.
      * apply String.eqb_eq in Hminus. subst token. discriminate Hbinary.
      * destruct (match_name token); [|discriminate].
        destruct (unary_functions_dict token); discriminate.
  - intros fuel. apply parse_text_from. reflexivity.
Qed.

(** ** The parser comes to an end *)

Lemma weight_cons token (tokens : list string) :
  weight (token :: tokens) = (token_weight token + weight tokens)%nat.
Proof. reflexivity. Qed.

Lemma token_weight_bounds token : (1 <= token_weight token <= 2)%nat.
Proof. unfold token_weight. destruct (binary_operators_dict token); lia. Qed.

Lemma weight_drop (T : list string) i token :
  T !! i = Some token ->
  weight (drop i T) = (token_weight token + weight (drop (S i) T))%nat.
Proof.
  intros H. rewrite (drop_S _ _ _ H). reflexivity.
Qed.

Lemma weight_drop_S (T : list string) i :
  (weight (drop (S i) T) <= weight (drop i T))%nat.
Proof.
  destruct (T !! i) as [token|] eqn:H.
  - rewrite (weight_drop _ _ _ H). lia.
  - apply lookup_ge_None in H. rewrite !drop_ge by lia. reflexivity.
Qed.

Lemma weight_length (T : list string) : (weight T <= 2 * length T)%nat.
Proof.
  induction T as [|token T IH]; [reflexivity|].
  rewrite weight_cons. pose proof (token_weight_bounds token). cbn [length]. lia.
Qed.

Lemma drop_insert_at (T : list string) i token :
  (i <= length T)%nat -> drop i (insert_at i token T) = token :: drop i T.
Proof.
  intros H. unfold insert_at.
  rewrite drop_app_length'; [reflexivity|]. rewrite length_take. lia.
Qed.

(** A token that is a binary operator symbol is never read as an operand
    or as the name of a function. *)
Lemma operand_weight token has_previous p :
  parse_primitive token has_previous = Ok p ->
  (forall c, p <> Class (BinaryClass c)) -> p <> Class NegateClass ->
  token_weight token = 2%nat.
Proof.
  intros Hp Hbinary Hnegate. unfold token_weight.
  destruct (binary_operators_dict token) as [c|] eqn:Hdict; [|reflexivity].
  exfalso. unfold binary_operators_dict in Hdict.
  repeat match type of Hdict with
         | (if String.eqb token ?s then _ else _) = _ =>
             let Heq := fresh "Heq" in
             destruct (String.eqb token s) eqn:Heq;
             [apply String.eqb_eq in Heq; subst token; destruct has_previous;
              vm_compute in Hp; injection Hp as <-;
              first [exact (Hnegate eq_refl) | exact (Hbinary _ eq_refl)]|]
         end.
  discriminate Hdict.
Qed.

Lemma parse_primitive_finished token has_previous :
  finished (parse_primitive token has_previous).
Proof.
  unfold finished, parse_primitive.
  destruct (match_number token).
  - destruct (int_of_token token); [discriminate|].
    destruct (float_of_token token); discriminate.
  - destruct (if has_previous then None else prefix_operators_dict token);
      [discriminate|].
    destruct (binary_operators_dict token); [discriminate|].
    destruct (if has_previous then prefix_operators_dict token else None);
      [discriminate|].
    destruct (match_name token); [|discriminate].
    destruct (unary_functions_dict token); discriminate.
Qed.

Lemma next_operator_weight tokens new_index tokens' next :
  next_operator tokens new_index = Ok (tokens', next) ->
  (new_index <= length tokens)%nat ->
  (weight (drop new_index tokens') <= 1 + weight (drop new_index tokens))%nat.
Proof.
  intros H Hlen.
  assert (Hstar : (weight (drop new_index (insert_at new_index "*" tokens))
                   <= 1 + weight (drop new_index tokens))%nat).
  { rewrite drop_insert_at by assumption. rewrite weight_cons. reflexivity. }
  unfold next_operator in H.
  destruct (token_is tokens new_index "(").
  - cbn in H. injection H as <- _. exact Hstar.
  - destruct (tokens !! new_index) as [token|]; [|discriminate H].
    destruct (parse_primitive token true) as [[t|[c|c|]]|e|]; cbn in H;
      try discriminate H; injection H as <- _; first [exact Hstar | lia].
Qed.

Lemma advances_from (T T' : list string) i k r :
  (i <= k)%nat -> (weight (drop k T') <= weight (drop i T))%nat ->
  advances T' k r -> advances T i r.
Proof.
  intros Hik Hw. destruct r as [[[t j] T'']|e|]; cbn; [lia|trivial|trivial].
Qed.

Section Termination.

Variable rec : list string -> nat -> limit -> option node
               -> result (node * nat * list string).
Variable n : nat.
Hypothesis Hrec : advancing n rec.

Lemma parse_rest_advances (T T' : list string) i parsed k lim :
  (i < k)%nat ->
  (weight (drop k T') + 2 <= weight (drop i T))%nat ->
  (weight (drop i T) <= n)%nat ->
  advances T i (parse_rest rec parsed k T' lim).
Proof.
  intros Hik Hw Hn. unfold parse_rest.
  destruct (bool_decide (k < length T')%nat && negb (token_is T' k ")")) eqn:Hgo;
    [|cbn; lia].
  apply andb_prop in Hgo as [Hlen _]. apply bool_decide_eq_true in Hlen.
  destruct (next_operator T' k) as [[T'' next]|e|] eqn:Hnext; cbn;
    [|trivial|].
  - apply next_operator_weight in Hnext; [|lia].
    destruct (continues next lim); [|cbn; lia].
    apply (advances_from T T'' i k); [lia|lia|]. apply Hrec. lia.
  - unfold next_operator in Hnext.
    destruct (token_is T' k "("); [discriminate Hnext|].
    destruct (T' !! k) as [token|]; [|discriminate Hnext].
    pose proof (parse_primitive_finished token true) as Hfin.
    destruct (parse_primitive token true) as [[t|[c|c|]]|e|]; cbn in Hnext;
      first [discriminate Hnext | exact (Hfin eq_refl)].
Qed.

Lemma parse_partial_body_advances : advancing (S n) (parse_partial_body rec).
Proof.
  intros T i lim previous Hn. unfold parse_partial_body.
  destruct (T !! i) as [token|] eqn:Hi; [|exact I].
  pose proof (weight_drop T i token Hi) as Hsplit.
  pose proof (token_weight_bounds token) as Hbounds.
  pose proof (weight_drop_S T (S i)) as Hnext.
  unfold parse_first. destruct (String.eqb token "(") eqn:Hparen.
  - apply String.eqb_eq in Hparen. subst token.
    change (token_weight "(") with 2%nat in Hsplit.
    pose proof (Hrec T (i + 1)%nat Operator None) as Hcall.
    rewrite Nat.add_1_r in *.
    destruct (rec T (S i) Operator None) as [[[p j] T1]|e|]; cbn;
      [|trivial|apply Hcall; lia].
    destruct Hcall as [Hij Hw]; [lia|].
    destruct (token_is T1 j ")"); cbn; [|trivial].
    pose proof (weight_drop_S T1 j).
    apply parse_rest_advances; rewrite ?Nat.add_1_r; lia.
  - destruct (parse_primitive token (bool_decide (previous <> None)))
      as [p|e|] eqn:Hp; cbn; [|trivial|].
    2:{ exact (parse_primitive_finished _ _ Hp). }
    destruct p as [t|[c|c|]]; cbn.
    + assert (token_weight token = 2%nat) as Hweight
        by (apply (operand_weight _ _ _ Hp); discriminate).
      apply parse_rest_advances; rewrite ?Nat.add_1_r; lia.
    + destruct previous as [previous|]; cbn; [|trivial].
      pose proof (Hrec T (i + 1)%nat (LimitBinary c) (Some previous)) as Hcall.
      rewrite Nat.add_1_r in *.
      destruct (rec T (S i) (LimitBinary c) (Some previous)) as [[[p j] T1]|e|];
        cbn; [|trivial|apply Hcall; lia].
      destruct Hcall as [Hij Hw]; [lia|].
      apply parse_rest_advances; lia.
    + assert (token_weight token = 2%nat) as Hweight
        by (apply (operand_weight _ _ _ Hp); discriminate).
      destruct (token_is T (i + 1) "("); cbn; [|trivial].
      pose proof (Hrec T (i + 1 + 1)%nat Operator None) as Hcall.
      rewrite !Nat.add_1_r in *.
      destruct (rec T (S (S i)) Operator None) as [[[p j] T1]|e|]; cbn;
        [|trivial|apply Hcall; lia].
      destruct Hcall as [Hij Hw]; [lia|].
      destruct (token_is T1 j ")"); cbn; [|trivial].
      pose proof (weight_drop_S T1 j).
      apply parse_rest_advances; rewrite ?Nat.add_1_r; lia.
    + pose proof (Hrec T (i + 1)%nat LimitNegate None) as Hcall.
      rewrite Nat.add_1_r in *.
      destruct (rec T (S i) LimitNegate None) as [[[p j] T1]|e|]; cbn;
        [|trivial|apply Hcall; lia].
      destruct Hcall as [Hij Hw]; [lia|].
      apply parse_rest_advances; lia.
Qed.

End Termination.

Lemma parse_partial_advances fuel : advancing fuel (parse_partial fuel).
Proof.
  induction fuel as [|fuel IH].
  - intros T i lim previous H. lia.
  - exact (parse_partial_body_advances (parse_partial fuel) fuel IH).
Qed.

Lemma parse_loop_finished fuel :
  forall tokens previous index,
    (weight (drop index tokens) + 1 < fuel)%nat ->
    finished (parse_loop fuel tokens previous index).
Proof.
  induction fuel as [|fuel IH]; intros T previous i Hfuel; [lia|].
  cbn [parse_loop]. destruct (bool_decide (i < length T)%nat); [|discriminate].
  pose proof (parse_partial_advances fuel T i Operator previous) as Hcall.
  destruct (parse_partial fuel T i Operator previous) as [[[t j] T1]|e|]; cbn;
    [|discriminate|exfalso; apply Hcall; lia].
  destruct Hcall as [Hij Hw]; [lia|]. apply IH. lia.
Qed.

(** X2. [parse] comes to an end on every token list, although
    [parse_partial] lengthens the list while it walks it: with fuel
    [2 * len(tokens) + 2] the bounded recursion returns or raises, and more
    fuel gives the same outcome. *)
Theorem parse_terminates (tokens : list string) (fuel : nat) :
  (2 * length tokens + 2 <= fuel)%nat ->
  finished (parse fuel tokens)
  /\ forall fuel', (fuel <= fuel')%nat -> parse fuel' tokens = parse fuel tokens.
Proof.
  intros Hfuel.
  assert (Hfin : finished (parse fuel tokens)).
  { apply parse_loop_finished. rewrite drop_0. pose proof (weight_length tokens). lia. }
  split; [exact Hfin|]. intros fuel' Hle. apply parse_mono; assumption.
Qed.

Lemma parse_terminates_witness :
  finished (parse 14 (tokenize "2(x+1)"))
  /\ forall fuel', (14 <= fuel')%nat ->
       parse fuel' (tokenize "2(x+1)") = parse 14 (tokenize "2(x+1)").
Proof. apply (parse_terminates (tokenize "2(x+1)") 14). vm_compute. lia. Defined.

Lemma parse_loop_Some fuel :
  forall tokens previous index r tokens',
    parse_loop fuel tokens (Some previous) index = Ok (r, tokens') ->
    exists t, r = Some t.
Proof.
  induction fuel as [|fuel IH]; intros T previous i r T' H; cbn [parse_loop] in H;
    destruct (bool_decide (i < length T)%nat);
    try discriminate H; try (injection H as <- _; eauto; fail).
  destruct (parse_partial fuel T i Operator (Some previous)) as [[[t j] T1]|e|];
    cbn in H; try discriminate H.
  exact (IH _ _ _ _ _ H).
Qed.

(** X3. [parse] returns [None] for the empty token list only: whenever it
    returns for a list with a token in it, it returns a tree. *)
Theorem parse_of_tokens_is_a_tree (fuel : nat) (tokens tokens' : list string)
    (r : option node) :
  tokens <> [] ->
  parse fuel tokens = Ok (r, tokens') ->
  exists t, r = Some t.
Proof.
  intros Hne H. unfold parse in H. destruct fuel as [|fuel]; cbn [parse_loop] in H.
  - destruct tokens as [|token tokens]; [congruence|]. discriminate H.
  - destruct tokens as [|token tokens]; [congruence|].
    rewrite bool_decide_eq_true_2 in H by (cbn [length]; lia).
    destruct (parse_partial fuel (token :: tokens) 0 Operator None)
      as [[[t j] T1]|e|]; cbn in H; try discriminate H.
    exact (parse_loop_Some _ _ _ _ _ _ H).
Qed.

Lemma parse_of_tokens_is_a_tree_witness :
  exists t, Some (Binary Multiply NUMBER_2 (Var "x")) = Some t.
Proof.
  apply (parse_of_tokens_is_a_tree 4 (tokenize "2x") ["2"; "*"; "x"]).
  - discriminate.
  - reflexivity.
Defined.

(** ** What [tokenize] makes of a text *)

Lemma all_chars_app p (a b : string) :
  all_chars p (a ++ b) = all_chars p a && all_chars p b.
Proof.
  induction a as [|c a IH]; rewrite ?append_String, ?append_empty; [reflexivity|].
  cbn [all_chars]. rewrite IH, andb_assoc. reflexivity.
Qed.

Lemma filter_chars_app p (a b : string) :
  filter_chars p (a ++ b) = (filter_chars p a ++ filter_chars p b)%string.
Proof.
  induction a as [|c a IH]; rewrite ?append_String, ?append_empty; [reflexivity|].
  cbn [filter_chars]. destruct (p c); rewrite IH, ?append_String; reflexivity.
Qed.

Lemma number_token_digits c (a : string) :
  is_digit c = true -> all_chars is_digit a = true ->
  number_token (String c a) = true.
Proof.
  intros Hc Ha. unfold number_token.
  rewrite <- (append_empty_r (String c a)).
  rewrite span_all; [reflexivity| |reflexivity].
  cbn [all_chars]. rewrite Hc, Ha. reflexivity.
Qed.

Lemma number_token_point (whole fraction : string) :
  all_chars is_digit whole = true -> all_chars is_digit fraction = true ->
  (whole ++ fraction)%string <> "" ->
  number_token (whole ++ String "." fraction) = true.
Proof.
  intros Hwhole Hfraction Hne. unfold number_token.
  rewrite span_all; [|exact Hwhole|reflexivity].
  rewrite Hfraction. destruct (String.eqb_spec (whole ++ fraction) ""); [contradiction|].
  reflexivity.
Qed.

Lemma lexeme_number token : number_token token = true -> lexeme token = true.
Proof. intros H. unfold lexeme. rewrite H, orb_true_r. reflexivity. Qed.

Lemma lexeme_name token : name_token token = true -> lexeme token = true.
Proof. intros H. unfold lexeme. rewrite H, orb_true_r. reflexivity. Qed.

(** One match of the pattern: the token is a lexeme and a prefix of the
    text. *)
Lemma match_token_lexeme s token r :
  match_token s = Some (token, r) ->
  s = (token ++ r)%string /\ lexeme token = true.
Proof.
  destruct s as [|c rest]; [discriminate|]. unfold match_token.
  destruct (is_operator_char c) eqn:Ho.
  { intros [= <- <-]. split; [reflexivity|]. unfold lexeme. cbn [operator_token].
    rewrite Ho. reflexivity. }
  destruct (is_digit c) eqn:Hd.
  { pose proof (span_spec is_digit (String c rest)) as Hspan.
    destruct (span is_digit (String c rest)) as [digits r1] eqn:Hs.
    destruct Hspan as (Htext & Hdigits & _).
    assert (Hhead : exists a, digits = String c a).
    { cbn [span] in Hs. rewrite Hd in Hs. destruct (span is_digit rest) as [a b].
      injection Hs as <- _. eauto. }
    destruct Hhead as [a ->].
    assert (Hplain : lexeme (String c a) = true).
    { apply lexeme_number, number_token_digits; [exact Hd|].
      cbn [all_chars] in Hdigits. apply andb_prop in Hdigits as [_ Ha]. exact Ha. }
    destruct r1 as [|k r2]; [intros [= <- <-]; split; assumption|].
    destruct (Ascii.eqb_spec k "."%char) as [->|Hk].
    - pose proof (span_spec is_digit r2) as Hspan2.
      destruct (span is_digit r2) as [fraction r3].
      destruct Hspan2 as (-> & Hfraction & _).
      intros [= <- <-]. split.
      + rewrite Htext, ?append_assoc, ?append_String, ?append_empty. reflexivity.
      + apply lexeme_number.
        change ("." ++ fraction)%string with (String "."%char fraction).
        apply number_token_point; [exact Hdigits|exact Hfraction|].
        rewrite append_String. discriminate.
    - assert (Hother : forall x : option (string * string),
                 match k with
                 | "."%char => x
                 | _ => Some (String c a, String k r2)
                 end = Some (String c a, String k r2)).
      { intros x. destruct k as [[] [] [] [] [] [] [] []]; try reflexivity.
        contradiction Hk. reflexivity. }
      rewrite Hother. intros [= <- <-]. split; assumption. }
  destruct (Ascii.eqb_spec c "."%char) as [->|_].
  { pose proof (span_spec is_digit rest) as Hspan.
    destruct (span is_digit rest) as [fraction r2].
    destruct Hspan as (-> & Hfraction & _).
    destruct fraction as [|d fraction]; [discriminate|].
    intros [= <- <-]. split.
    - rewrite ?append_String, ?append_empty. reflexivity.
    - apply lexeme_number.
      apply (number_token_point "" (String d fraction)); [reflexivity|exact Hfraction|].
      discriminate. }
  destruct (is_letter c) eqn:Hl; [|discriminate].
  pose proof (span_spec is_letter (String c rest)) as Hspan.
  destruct (span is_letter (String c rest)) as [name r1] eqn:Hs.
  destruct Hspan as (Htext & Hname & _).
  intros [= <- <-]. split; [exact Htext|].
  apply lexeme_name. unfold name_token. rewrite Hname.
  cbn [span] in Hs. rewrite Hl in Hs. destruct (span is_letter rest) as [a b].
  injection Hs as <- _. reflexivity.
Qed.

(** Where nothing matches, the character is no operator character, digit
    or letter. *)
Lemma match_token_None c rest :
  match_token (String c rest) = None -> significant c = false.
Proof.
  unfold match_token, significant.
  destruct (is_operator_char c); [discriminate|].
  destruct (is_digit c) eqn:Hd.
  { destruct (span is_digit (String c rest)) as [digits r1].
    destruct r1 as [|k r2]; [discriminate|].
    destruct k as [[] [] [] [] [] [] [] []]; try discriminate.
    destruct (span is_digit r2); discriminate. }
  destruct (Ascii.eqb_spec c "."%char) as [->|_]; [reflexivity|].
  destruct (is_letter c); [|reflexivity].
  destruct (span is_letter (String c rest)); discriminate.
Qed.

Lemma tokenize_spec n :
  forall s, (String.length s <= n)%nat ->
    Forall (fun token => lexeme token = true) (tokenize s)
    /\ filter_chars significant (joined (tokenize s)) = filter_chars significant s.
Proof.
  induction n as [|n IH]; intros s Hlen.
  - destruct s; [|cbn in Hlen; lia]. split; [constructor|reflexivity].
  - destruct s as [|c rest]; [split; [constructor|reflexivity]|].
    cbn [String.length] in Hlen.
    destruct (match_token (String c rest)) as [[token r]|] eqn:Hm.
    + pose proof (match_token_shorter c rest token r Hm) as Hr.
      destruct (match_token_lexeme _ _ _ Hm) as [Htext Hlexeme].
      destruct (IH r) as [Hall Hjoin]; [lia|].
      rewrite (tokenize_token c rest token r Hm). split.
      * constructor; assumption.
      * cbn [joined foldr]. fold (joined (tokenize r)).
        rewrite Htext, !filter_chars_app, Hjoin. reflexivity.
    + destruct (IH rest) as [Hall Hjoin]; [lia|].
      rewrite (tokenize_skip c rest Hm). split; [exact Hall|].
      rewrite Hjoin. cbn [filter_chars].
      rewrite (match_token_None c rest Hm). reflexivity.
Qed.

(** X4. Every token of [tokenize] is of one of three kinds: one of the
    characters [( ) + - / * ^]; a number literal (digits, optionally a point
    and further digits, or a point and digits); a run of letters. An empty
    token, a lone point or a blank is never made. *)
Theorem tokenize_makes_lexemes (s : string) :
  Forall (fun token => lexeme token = true) (tokenize s)
  /\ lexeme "" = false /\ lexeme "." = false /\ lexeme " " = false.
Proof.
  split; [exact (proj1 (tokenize_spec _ s (le_n _)))|]. repeat split.
Qed.

(** X5. [tokenize] drops and invents no operator character, digit or
    letter: the tokens joined spell the text, in order, up to the
    characters that are none of these (blanks, points, anything else). *)
Theorem tokenize_keeps_significant_characters (s : string) :
  filter_chars significant (joined (tokenize s)) = filter_chars significant s.
Proof. exact (proj2 (tokenize_spec _ s (le_n _))). Qed.

(** ** [parse_primitive] on the tokens of the lexer *)

Lemma uint_of_string_digits s :
  all_chars is_digit s = true -> exists d, NilEmpty.uint_of_string s = Some d.
Proof.
  induction s as [|c s IH]; cbn [all_chars NilEmpty.uint_of_string]; [eauto|].
  intros H. apply andb_prop in H as [Hc Hs]. destruct (IH Hs) as [d ->].
  destruct c as [[] [] [] [] [] [] [] []]; try discriminate Hc; cbn; eauto.
Qed.

Lemma number_token_parts token :
  number_token token = true ->
  (exists c a, token = String c a /\ all_chars is_digit (String c a) = true)
  \/ (exists whole fraction,
        token = (whole ++ String "." fraction)%string
        /\ all_chars is_digit whole = true /\ all_chars is_digit fraction = true
        /\ exists c a, (whole ++ fraction)%string = String c a).
Proof.
  unfold number_token. pose proof (span_spec is_digit token) as Hspan.
  destruct (span is_digit token) as [whole r]. destruct Hspan as (-> & Hwhole & _).
  destruct r as [|k fraction].
  - rewrite append_empty_r. destruct whole as [|c a]; [discriminate|]. eauto.
  - destruct k as [[] [] [] [] [] [] [] []]; try discriminate.
    intros H. apply andb_prop in H as [Hfraction Hne]. right.
    exists whole, fraction. repeat split; try assumption.
    destruct (whole ++ fraction)%string as [|c a]; [discriminate Hne|]. eauto.
Qed.

(** A number literal is read as a number: [int] or, failing that, [float]
    accepts it. *)
Lemma parse_primitive_number token has_previous :
  number_token token = true ->
  exists n, parse_primitive token has_previous = Ok (Instance (Number n)).
Proof.
  intros H. destruct (number_token_parts token H)
    as [(c & a & -> & Hdigits)|(whole & fraction & -> & Hwhole & Hfraction & c & a & Hne)].
  - unfold parse_primitive. cbn [match_number].
    cbn [all_chars] in Hdigits. apply andb_prop in Hdigits as [Hc Ha].
    rewrite Hc. cbn [orb].
    assert (Hdigits : all_chars is_digit (String c a) = true).
    { cbn [all_chars]. rewrite Hc, Ha. reflexivity. }
    destruct (uint_of_string_digits (String c a) Hdigits) as [d Hd].
    unfold int_of_token. rewrite Hd.
    destruct (digit_limit <? String.length (String c a))%nat; [|cbn; eauto].
    unfold float_of_token.
    pose proof (span_all is_digit (String c a) "" Hdigits eq_refl) as Hspan.
    rewrite append_empty_r in Hspan. rewrite Hspan, Hd. eauto.
  - unfold parse_primitive.
    assert (Hmatch : match_number (whole ++ String "." fraction) = true).
    { destruct whole as [|d whole]; rewrite ?append_String, ?append_empty.
      - rewrite append_empty in Hne. subst fraction. cbn [match_number].
        cbn [all_chars] in Hfraction. apply andb_prop in Hfraction as [-> _].
        rewrite orb_true_r. reflexivity.
      - cbn [match_number]. cbn [all_chars] in Hwhole.
        apply andb_prop in Hwhole as [-> _]. reflexivity. }
    rewrite Hmatch.
    assert (Hint : int_of_token (whole ++ String "." fraction) = None).
    { unfold int_of_token. rewrite uint_of_string_point.
      destruct (whole ++ String "." fraction)%string as [|k r]; [reflexivity|].
      destruct (digit_limit <? String.length (String k r))%nat; reflexivity. }
    rewrite Hint. unfold float_of_token.
    rewrite span_all; [|exact Hwhole|reflexivity].
    pose proof (span_all is_digit fraction "" Hfraction eq_refl) as Hspan.
    rewrite append_empty_r in Hspan. rewrite Hspan.
    destruct (uint_of_string_digits (whole ++ fraction)) as [d Hd].
    { rewrite all_chars_app, Hwhole, Hfraction. reflexivity. }
    rewrite Hd, Hne. eauto.
Qed.

(** A run of letters is read as the name of a function or as a variable. *)
Lemma parse_primitive_name token has_previous :
  name_token token = true ->
  exists p, parse_primitive token has_previous = Ok p
            /\ ((exists c, p = Class (UnaryClass c)) \/ p = Instance (Var token)).
Proof.
  unfold name_token. intros H. apply andb_prop in H as [Hletters Hne].
  destruct token as [|c rest]; [discriminate Hne|].
  cbn [all_chars] in Hletters. apply andb_prop in Hletters as [Hc _].
  destruct (letter_facts c Hc) as (Hd & _ & Hdot).
  unfold parse_primitive. cbn [match_number]. rewrite Hd, Hdot. cbn [orb andb].
  unfold prefix_operators_dict, binary_operators_dict.
  rewrite !(letter_not_char c _ rest _ Hc) by reflexivity.
  cbn [match_name]. rewrite Hc.
  destruct (unary_functions_dict (String c rest)) as [u|];
    destruct has_previous; eauto.
Qed.

Lemma parse_primitive_lexeme (token : string) (has_previous : bool) :
  lexeme token = true ->
  match parse_primitive token has_previous with
  | Ok _ => token <> "(" /\ token <> ")"
  | Raise e => e = SyntaxError /\ (token = "(" \/ token = ")")
  | Unfinished => False
  end.
Proof.
  intros Hlexeme.
  destruct (parse_primitive token has_previous) as [p|e|] eqn:Hp.
  - split; intros ->; destruct has_previous; discriminate Hp.
  - unfold lexeme in Hlexeme.
    apply orb_prop in Hlexeme as [Hlexeme|Hname].
    + apply orb_prop in Hlexeme as [Hoperator|Hnumber].
      * destruct token as [|c [|d rest]]; try discriminate Hoperator.
        cbn [operator_token] in Hoperator.
        destruct c as [[] [] [] [] [] [] [] []]; try discriminate Hoperator;
          destruct has_previous; try discriminate Hp;
          injection Hp as <-; split; auto.
      * destruct (parse_primitive_number token has_previous Hnumber) as [n Hn].
        congruence.
    + destruct (parse_primitive_name token has_previous Hname) as (p & Hn & _).
      congruence.
  - exact (parse_primitive_finished _ _ Hp).
Qed.

(** X6. On a token of the lexer [parse_primitive] raises nothing but
    [SyntaxError], and that for a parenthesis only: [int] and [float] never
    reject a number literal of the lexer. *)
Theorem parse_primitive_of_lexeme (token : string) (has_previous : bool) :
  lexeme token = true ->
  match parse_primitive token has_previous with
  | Ok _ => token <> "(" /\ token <> ")"
  | Raise e => e = SyntaxError /\ (token = "(" \/ token = ")")
  | Unfinished => False
  end.
Proof. exact (parse_primitive_lexeme token has_previous). Qed.

Lemma parse_primitive_of_lexeme_witness :
  match parse_primitive "12.5" true with
  | Ok _ => "12.5" <> "(" /\ "12.5" <> ")"
  | Raise e => e = SyntaxError /\ ("12.5" = "(" \/ "12.5" = ")")
  | Unfinished => False
  end.
Proof. apply (parse_primitive_of_lexeme "12.5" true). reflexivity. Defined.

(** ** The exceptions of [parse] *)

Lemma parse_primitive_error token has_previous e :
  lexeme token = true -> parse_primitive token has_previous = Raise e ->
  parse_error e = true.
Proof.
  intros Hlexeme Hp. pose proof (parse_primitive_lexeme token has_previous Hlexeme) as H.
  rewrite Hp in H. destruct H as [-> _]. reflexivity.
Qed.

Lemma insert_at_lexemes (tokens : list string) i :
  Forall (fun token => lexeme token = true) tokens ->
  Forall (fun token => lexeme token = true) (insert_at i "*" tokens).
Proof.
  intros H. unfold insert_at. apply Forall_app. split.
  - apply Forall_take, H.
  - constructor; [reflexivity|]. apply Forall_drop, H.
Qed.

Lemma next_operator_lexemes tokens new_index :
  Forall (fun token => lexeme token = true) tokens ->
  match next_operator tokens new_index with
  | Ok (tokens', _) => Forall (fun token => lexeme token = true) tokens'
  | Raise e => parse_error e = true
  | Unfinished => True
  end.
Proof.
  intros Hall. unfold next_operator.
  destruct (token_is tokens new_index "("); cbn; [apply insert_at_lexemes, Hall|].
  destruct (tokens !! new_index) as [token|] eqn:Hi; cbn; [|reflexivity].
  assert (Hlexeme : lexeme token = true).
  { exact (proj1 (Forall_lookup _ _) Hall _ _ Hi). }
  destruct (parse_primitive token true) as [[t|[c|c|]]|e|] eqn:Hp; cbn;
    try (apply insert_at_lexemes, Hall); try exact Hall; try exact I.
  exact (parse_primitive_error _ _ _ Hlexeme Hp).
Qed.

Section ParseErrors.

Variable rec : list string -> nat -> limit -> option node
               -> result (node * nat * list string).
Hypothesis Hrec : keeps_lexemes rec.

Lemma parse_rest_lexemes parsed new_index tokens lim :
  Forall (fun token => lexeme token = true) tokens ->
  match parse_rest rec parsed new_index tokens lim with
  | Ok (_, _, tokens') => Forall (fun token => lexeme token = true) tokens'
  | Raise e => parse_error e = true
  | Unfinished => True
  end.
Proof.
  intros Hall. unfold parse_rest.
  destruct (bool_decide (new_index < length tokens)%nat
            && negb (token_is tokens new_index ")")); [|exact Hall].
  pose proof (next_operator_lexemes tokens new_index Hall) as Hnext.
  destruct (next_operator tokens new_index) as [[tokens' next]|e|]; cbn;
    [|exact Hnext|exact I].
  destruct (continues next lim); [|exact Hnext].
  apply Hrec, Hnext.
Qed.

Lemma parse_partial_body_lexemes : keeps_lexemes (parse_partial_body rec).
Proof.
  intros T i lim previous Hall. unfold parse_partial_body.
  destruct (T !! i) as [token|] eqn:Hi; [|reflexivity].
  assert (Hlexeme : lexeme token = true).
  { exact (proj1 (Forall_lookup _ _) Hall _ _ Hi). }
  unfold parse_first. destruct (String.eqb token "(").
  - pose proof (Hrec T (i + 1)%nat Operator None Hall) as Hcall.
    destruct (rec T (i + 1)%nat Operator None) as [[[p j] T1]|e|]; cbn;
      [|exact Hcall|exact I].
    destruct (token_is T1 j ")"); cbn; [|reflexivity].
    apply parse_rest_lexemes, Hcall.
  - destruct (parse_primitive token (bool_decide (previous <> None)))
      as [p|e|] eqn:Hp; cbn;
      [|exact (parse_primitive_error _ _ _ Hlexeme Hp)|exact I].
    destruct p as [t|[c|c|]]; cbn.
    + apply parse_rest_lexemes, Hall.
    + destruct previous as [previous|]; cbn; [|reflexivity].
      pose proof (Hrec T (i + 1)%nat (LimitBinary c) (Some previous) Hall) as Hcall.
      destruct (rec T (i + 1)%nat (LimitBinary c) (Some previous))
        as [[[p j] T1]|e|]; cbn; [|exact Hcall|exact I].
      apply parse_rest_lexemes, Hcall.
    + destruct (token_is T (i + 1) "("); cbn; [|reflexivity].
      pose proof (Hrec T (i + 1 + 1)%nat Operator None Hall) as Hcall.
      destruct (rec T (i + 1 + 1)%nat Operator None) as [[[p j] T1]|e|]; cbn;
        [|exact Hcall|exact I].
      destruct (token_is T1 j ")"); cbn; [|reflexivity].
      apply parse_rest_lexemes, Hcall.
    + pose proof (Hrec T (i + 1)%nat LimitNegate None Hall) as Hcall.
      destruct (rec T (i + 1)%nat LimitNegate None) as [[[p j] T1]|e|]; cbn;
        [|exact Hcall|exact I].
      apply parse_rest_lexemes, Hcall.
Qed.

End ParseErrors.

Lemma parse_partial_lexemes fuel : keeps_lexemes (parse_partial fuel).
Proof.
  induction fuel as [|fuel IH]; [intros T i lim previous _; exact I|].
  exact (parse_partial_body_lexemes (parse_partial fuel) IH).
Qed.

Lemma parse_loop_error fuel :
  forall tokens previous index e,
    Forall (fun token => lexeme token = true) tokens ->
    parse_loop fuel tokens previous index = Raise e -> parse_error e = true.
Proof.
  induction fuel as [|fuel IH]; intros T previous i e Hall H; cbn [parse_loop] in H;
    destruct (bool_decide (i < length T)%nat); try discriminate H.
  pose proof (parse_partial_lexemes fuel T i Operator previous Hall) as Hcall.
  destruct (parse_partial fuel T i Operator previous) as [[[t j] T1]|e'|];
    cbn in H; [|injection H as <-; exact Hcall|discriminate H].
  exact (IH _ _ _ _ Hcall H).
Qed.

(** X7. Whatever the text, [parse(tokenize(text))] returns, or raises
    [IndexError] (the tokens end where an operand is due), [SyntaxError] (a
    closing parenthesis stands where an operand is due) or one of the four
    assertions of [parse_partial], or runs out of room for its nested calls
    ([RecursionError]), and that only where the room is less than twice the
    number of tokens and two; it never raises the [ValueError] of [int] or
    [float]. *)
Theorem parse_raises_its_own_errors (fuel : nat) (s : string) :
  match parse fuel (tokenize s) with
  | Ok _ => True
  | Raise e => parse_error e = true /\ e <> ValueError
  | Unfinished => (fuel < 2 * length (tokenize s) + 2)%nat
  end.
Proof.
  destruct (parse fuel (tokenize s)) as [r|e|] eqn:Hparse; [exact I| |].
  - assert (He : parse_error e = true).
    { apply (parse_loop_error fuel (tokenize s) None 0%nat); [|exact Hparse].
      exact (proj1 (tokenize_spec _ s (le_n _))). }
    split; [exact He|]. intros ->. discriminate He.
  - destruct (Nat.lt_ge_cases fuel (2 * length (tokenize s) + 2)) as [Hlt|Hge];
      [exact Hlt|].
    exfalso. apply (parse_loop_finished fuel (tokenize s) None 0%nat); [|exact Hparse].
    rewrite drop_0. pose proof (weight_length (tokenize s)). lia.
Qed.

(** ** Trees without floats *)

Lemma float_free_not_float t : float_free t = true -> is_float_Number t = false.
Proof. destruct t as [[z|f]|s|c x y|c x|x]; cbn; congruence. Qed.

Lemma Function_simplify_Binary (L : pylib) c x y :
  is_float_Number x = false ->
  Function_simplify L (Binary c x y) = Ok (Binary c x y).
Proof. intros H. unfold Function_simplify. cbn [children forallb]. rewrite H. reflexivity. Qed.

Lemma Function_simplify_Unary (L : pylib) c x :
  is_float_Number x = false ->
  Function_simplify L (Unary c x) = Ok (Unary c x).
Proof. intros H. unfold Function_simplify. cbn [children forallb]. rewrite H. reflexivity. Qed.

Lemma Function_simplify_Negate (L : pylib) x :
  is_float_Number x = false ->
  Function_simplify L (Negate x) = Ok (Negate x).
Proof. intros H. unfold Function_simplify. cbn [children forallb]. rewrite H. reflexivity. Qed.

Ltac by_rules :=
  repeat match goal with
         | |- context [if ?b then _ else _] => destruct b
         | |- context [match ?x with Negate _ => _ | _ => _ end] => destruct x
         end.

Lemma class_simplify_float_free t :
  float_free t = true -> float_free (class_simplify t) = true.
Proof.
  destruct t as [n|s|c x y|c x|x]; cbn [float_free class_simplify]; try congruence.
  - intros H. apply andb_prop in H as [Hx Hy].
    destruct c; by_rules; cbn [float_free NUMBER_0 NUMBER_1]; rewrite ?Hx, ?Hy; reflexivity.
  - intros H. destruct c; by_rules; cbn [float_free NUMBER_0 NUMBER_1]; rewrite ?H; reflexivity.
  - intros H. destruct x as [n|s|c x y|c x|x]; by_rules; cbn [float_free] in *; congruence.
Qed.

Lemma simplify_float_free (L : pylib) t :
  float_free t = true ->
  exists t', simplify L t = Ok t' /\ float_free t' = true.
Proof.
  induction t as [n|s|c x IHx y IHy|c x IHx|x IHx]; cbn [float_free simplify];
    intros H; eauto.
  - apply andb_prop in H as [Hx Hy].
    destruct (IHx Hx) as (x' & -> & Hx'). destruct (IHy Hy) as (y' & -> & Hy').
    cbn [bind]. rewrite Function_simplify_Binary by (apply float_free_not_float, Hx').
    cbn [bind]. eexists. split; [reflexivity|].
    apply class_simplify_float_free. cbn [float_free]. rewrite Hx', Hy'. reflexivity.
  - destruct (IHx H) as (x' & -> & Hx').
    cbn [bind]. rewrite Function_simplify_Unary by (apply float_free_not_float, Hx').
    cbn [bind]. eexists. split; [reflexivity|].
    apply class_simplify_float_free. exact Hx'.
  - destruct (IHx H) as (x' & -> & Hx').
    cbn [bind]. rewrite Function_simplify_Negate by (apply float_free_not_float, Hx').
    cbn [bind]. eexists. split; [reflexivity|].
    apply class_simplify_float_free. exact Hx'.
Qed.

Lemma derivative_float_free (L : pylib) t v :
  float_free t = true ->
  exists d, derivative L t v = Ok d /\ float_free d = true.
Proof.
  induction t as [n|s|c x IHx y IHy|c x IHx|x IHx]; cbn [float_free derivative];
    intros H.
  - eauto.
  - destruct (String.eqb s v); eauto.
  - apply andb_prop in H as [Hx Hy].
    destruct (IHx Hx) as (x' & -> & Hx'). destruct (IHy Hy) as (y' & -> & Hy').
    destruct c; cbn [bind]; apply simplify_float_free;
      cbn [float_free NUMBER_2]; rewrite ?Hx, ?Hy, ?Hx', ?Hy'; reflexivity.
  - destruct (IHx H) as (x' & -> & Hx').
    destruct c; cbn [bind unary_derivative]; eauto; apply simplify_float_free;
      cbn [float_free NUMBER_1 NUMBER_2]; rewrite ?H, ?Hx'; reflexivity.
  - destruct (IHx H) as (x' & -> & Hx'). cbn [bind].
    apply simplify_float_free. exact Hx'.
Qed.

(** *** The numbers of the trees that [simplify] and [derivative] return *)

Lemma printable_constants :
  printable NUMBER_0 = true /\ printable NUMBER_1 = true /\ printable NUMBER_2 = true.
Proof. repeat split; vm_compute; reflexivity. Qed.

Lemma class_simplify_printable t :
  printable t = true -> printable (class_simplify t) = true.
Proof.
  destruct printable_constants as (H0 & H1 & _).
  destruct t as [n|s|c x y|c x|x]; cbn [printable class_simplify]; try congruence.
  - intros H. apply andb_prop in H as [Hx Hy].
    destruct c; by_rules; cbn [printable] in *; rewrite ?Hx, ?Hy; assumption || reflexivity.
  - intros H. destruct c; by_rules; cbn [printable] in *; assumption.
  - intros H. destruct x as [n|s|c x y|c x|x]; by_rules; cbn [printable] in *; congruence.
Qed.

Lemma simplify_printable (L : pylib) t :
  float_free t = true -> printable t = true ->
  forall t', simplify L t = Ok t' -> printable t' = true.
Proof.
  induction t as [n|s|c x IHx y IHy|c x IHx|x IHx];
    cbn [float_free simplify printable]; intros Hf Hp t' H.
  - injection H as <-. exact Hp.
  - injection H as <-. exact Hp.
  - apply andb_prop in Hf as [Hfx Hfy]. apply andb_prop in Hp as [Hpx Hpy].
    destruct (simplify_float_free L x Hfx) as (x' & Hx' & Hfx').
    destruct (simplify_float_free L y Hfy) as (y' & Hy' & Hfy').
    rewrite Hx', Hy' in H. cbn [bind] in H.
    rewrite Function_simplify_Binary in H by (apply float_free_not_float, Hfx').
    cbn [bind] in H. injection H as <-.
    change (printable (class_simplify (Binary c x' y')) = true).
    apply class_simplify_printable.
    cbn [printable]. rewrite (IHx Hfx Hpx x' Hx'), (IHy Hfy Hpy y' Hy'). reflexivity.
  - destruct (simplify_float_free L x Hf) as (x' & Hx' & Hfx').
    rewrite Hx' in H. cbn [bind] in H.
    rewrite Function_simplify_Unary in H by (apply float_free_not_float, Hfx').
    cbn [bind] in H. injection H as <-.
    change (printable (class_simplify (Unary c x')) = true).
    apply class_simplify_printable.
    cbn [printable]. exact (IHx Hf Hp x' Hx').
  - destruct (simplify_float_free L x Hf) as (x' & Hx' & Hfx').
    rewrite Hx' in H. cbn [bind] in H.
    rewrite Function_simplify_Negate in H by (apply float_free_not_float, Hfx').
    cbn [bind] in H. injection H as <-.
    change (printable (class_simplify (Negate x')) = true).
    apply class_simplify_printable.
    cbn [printable]. exact (IHx Hf Hp x' Hx').
Qed.

Lemma derivative_printable (L : pylib) t v :
  float_free t = true -> printable t = true ->
  forall d, derivative L t v = Ok d -> printable d = true.
Proof.
  destruct printable_constants as (H0 & H1 & H2).
  induction t as [n|s|c x IHx y IHy|c x IHx|x IHx];
    cbn [float_free derivative printable]; intros Hf Hp d H.
  - injection H as <-. exact H0.
  - destruct (String.eqb s v); injection H as <-; assumption.
  - apply andb_prop in Hf as [Hfx Hfy]. apply andb_prop in Hp as [Hpx Hpy].
    destruct (derivative_float_free L x v Hfx) as (x' & Hx' & Hfx').
    destruct (derivative_float_free L y v Hfy) as (y' & Hy' & Hfy').
    pose proof (IHx Hfx Hpx x' Hx') as Hpx'.
    pose proof (IHy Hfy Hpy y' Hy') as Hpy'.
    rewrite Hx', Hy' in H.
    destruct c; cbn [bind] in H;
      (refine (simplify_printable L _ _ _ d H);
       [cbn [float_free NUMBER_2]; rewrite ?Hfx, ?Hfy, ?Hfx', ?Hfy'; reflexivity
       |cbn [printable]; rewrite ?Hpx, ?Hpy, ?Hpx', ?Hpy', ?H2; reflexivity]).
  - destruct (derivative_float_free L x v Hf) as (x' & Hx' & Hfx').
    pose proof (IHx Hf Hp x' Hx') as Hpx'.
    rewrite Hx' in H.
    destruct c; cbn [bind unary_derivative] in H;
      try (injection H as <-; exact H0);
      (refine (simplify_printable L _ _ _ d H);
       [cbn [float_free NUMBER_1 NUMBER_2]; rewrite ?Hf, ?Hfx'; reflexivity
       |cbn [printable]; rewrite ?Hp, ?Hpx', ?H1, ?H2; reflexivity]).
  - destruct (derivative_float_free L x v Hf) as (x' & Hx' & Hfx').
    rewrite Hx' in H. cbn [bind] in H.
    refine (simplify_printable L _ _ _ d H).
    + exact Hfx'.
    + exact (IHx Hf Hp x' Hx').
Qed.

Lemma float_free_settles (L : pylib) t v :
  float_free t = true ->
  exists t' d,
    float_free t' = true /\ float_free d = true
    /\ simplify L t = Ok t' /\ derivative L t v = Ok d
    /\ (forall depth,
          within (simplify_in L depth t) (Ok t')
          /\ within (derivative_in L depth t v) (Ok d))
    /\ exists depth0, forall depth, (depth0 <= depth)%nat ->
         simplify_in L depth t = Ok t' /\ derivative_in L depth t v = Ok d.
Proof.
  intros H.
  destruct (simplify_float_free L t H) as (t' & Ht' & Hfree').
  destruct (derivative_float_free L t v H) as (d & Hd & Hfreed).
  exists t', d. repeat split; try assumption.
  - rewrite <- Ht'. apply simplify_in_within.
  - rewrite <- Hd. apply derivative_in_within.
  - destruct (simplify_in_settles L t) as [ds Hs].
    destruct (derivative_in_settles L v t) as [dd Hdd].
    exists (ds + dd)%nat. intros depth Hdepth.
    rewrite Hs, Hdd by lia. split; assumption.
Qed.

(** X8. On a tree without a float, [simplify] and [derivative] return a
    tree without a float, the same whatever the room for their nested calls:
    with room enough they return it, with less the room runs out
    ([RecursionError]), and they raise nothing else. An arithmetic error
    arises only where a constant is folded, as in [simplify] of
    [1.0/0.0]. *)
Theorem float_free_trees_never_raise (L : pylib) :
  (forall t v, float_free t = true ->
     exists t' d,
       float_free t' = true /\ float_free d = true
       /\ simplify L t = Ok t' /\ derivative L t v = Ok d
       /\ (forall depth,
             within (simplify_in L depth t) (Ok t')
             /\ within (derivative_in L depth t v) (Ok d))
       /\ exists depth0, forall depth, (depth0 <= depth)%nat ->
            simplify_in L depth t = Ok t' /\ derivative_in L depth t v = Ok d)
  /\ (forall depth, (3 <= depth)%nat ->
        simplify_in L depth (Binary Divide (Number (PyFloat 1)) (Number (PyFloat 0)))
        = Raise ZeroDivisionError).
Proof.
  split.
  - intros t v H. exact (float_free_settles L t v H).
  - intros depth Hdepth. rewrite simplify_in_enough by (cbn [height]; lia).
    reflexivity.
Qed.

Lemma float_free_trees_never_raise_witness :
  exists t' d,
    float_free t' = true /\ float_free d = true
    /\ simplify no_floats (Binary Power (Var "x") (Unary Sine (Var "x"))) = Ok t'
    /\ derivative no_floats (Binary Power (Var "x") (Unary Sine (Var "x"))) "x" = Ok d.
Proof.
  destruct (proj1 (float_free_trees_never_raise no_floats)
              (Binary Power (Var "x") (Unary Sine (Var "x"))) "x" eq_refl)
    as (t' & d & Ht' & Hd & Hs & Hdd & _).
  exists t', d. repeat split; assumption.
Defined.

(** ** [simplify] makes no tree larger *)

Lemma Function_simplify_cases (L : pylib) self s :
  Function_simplify L self = Ok s -> s = self \/ exists n, s = Number n.
Proof.
  unfold Function_simplify. destruct (forallb is_float_Number (children self)).
  - destruct (evaluate L self ∅) as [n| |]; cbn; [|discriminate..].
    intros [= <-]. eauto.
  - intros [= <-]. auto.
Qed.

Lemma class_simplify_size t : (size (class_simplify t) <= size t)%nat.
Proof.
  destruct t as [n|s|c x y|c x|x]; cbn [class_simplify]; try lia.
  - destruct c; by_rules; cbn [size NUMBER_0 NUMBER_1]; lia.
  - destruct c; by_rules; cbn [size NUMBER_0 NUMBER_1]; lia.
  - destruct x as [n|s|c x y|c x|x]; by_rules; cbn [size]; lia.
Qed.

Lemma class_simplify_variables t : variables (class_simplify t) ⊆ variables t.
Proof.
  destruct t as [n|s|c x y|c x|x]; cbn [class_simplify]; try set_solver.
  - destruct c; by_rules; cbn [variables NUMBER_0 NUMBER_1]; set_solver.
  - destruct c; by_rules; cbn [variables NUMBER_0 NUMBER_1]; set_solver.
  - destruct x as [n|s|c x y|c x|x]; by_rules; cbn [variables]; set_solver.
Qed.

Lemma subseteq_app (a a' b b' : list string) :
  a ⊆ a' -> b ⊆ b' -> (a ++ b)%list ⊆ (a' ++ b')%list.
Proof.
  intros Ha Hb s Hs. apply elem_of_app in Hs. apply elem_of_app.
  destruct Hs as [Hs|Hs]; [left; apply Ha|right; apply Hb]; exact Hs.
Qed.

Lemma subseteq_nil (a : list string) : [] ⊆ a.
Proof. intros s Hs. inversion Hs. Qed.

Lemma simplify_shrinks (L : pylib) t :
  forall t', simplify L t = Ok t' ->
    (size t' <= size t)%nat /\ variables t' ⊆ variables t.
Proof.
  induction t as [n|s|c x IHx y IHy|c x IHx|x IHx]; cbn [simplify]; intros t' H.
  - injection H as <-. split; [lia|intros k Hk; exact Hk].
  - injection H as <-. split; [lia|intros k Hk; exact Hk].
  - destruct (simplify L x) as [x'| |]; cbn [bind] in H; [|discriminate..].
    destruct (simplify L y) as [y'| |]; cbn [bind] in H; [|discriminate..].
    destruct (IHx x' eq_refl) as [Hsx Hvx]. destruct (IHy y' eq_refl) as [Hsy Hvy].
    destruct (Function_simplify L (Binary c x' y')) as [self| |] eqn:Hself;
      cbn [bind] in H; [|discriminate..].
    injection H as <-.
    pose proof (class_simplify_size self). pose proof (class_simplify_variables self).
    destruct (Function_simplify_cases L _ _ Hself) as [->|[n ->]];
      cbn [size variables class_simplify] in *; (split; [lia|]);
      [|apply subseteq_nil].
    intros k Hk. exact (subseteq_app _ _ _ _ Hvx Hvy k (H0 k Hk)).
  - destruct (simplify L x) as [x'| |]; cbn [bind] in H; [|discriminate..].
    destruct (IHx x' eq_refl) as [Hsx Hvx].
    destruct (Function_simplify L (Unary c x')) as [self| |] eqn:Hself;
      cbn [bind] in H; [|discriminate..].
    injection H as <-.
    pose proof (class_simplify_size self). pose proof (class_simplify_variables self).
    destruct (Function_simplify_cases L _ _ Hself) as [->|[n ->]];
      cbn [size variables class_simplify] in *; (split; [lia|]);
      [|apply subseteq_nil].
    intros k Hk. exact (Hvx k (H0 k Hk)).
  - destruct (simplify L x) as [x'| |]; cbn [bind] in H; [|discriminate..].
    destruct (IHx x' eq_refl) as [Hsx Hvx].
    destruct (Function_simplify L (Negate x')) as [self| |] eqn:Hself;
      cbn [bind] in H; [|discriminate..].
    injection H as <-.
    pose proof (class_simplify_size self). pose proof (class_simplify_variables self).
    destruct (Function_simplify_cases L _ _ Hself) as [->|[n ->]];
      cbn [size variables class_simplify] in *; (split; [lia|]);
      [|apply subseteq_nil].
    intros k Hk. exact (Hvx k (H0 k Hk)).
Qed.

(** X9. [simplify] never returns a tree with more nodes than it was
    given, nor one with a variable that the given tree lacks. *)
Theorem simplify_never_grows (L : pylib) (t t' : node) :
  simplify L t = Ok t' ->
  (size t' <= size t)%nat /\ forall s, s ∈ variables t' -> s ∈ variables t.
Proof. exact (simplify_shrinks L t t'). Qed.

Lemma simplify_never_grows_witness :
  (size (Var "y") <= size (Binary Add (Binary Multiply NUMBER_0 (Var "x")) (Var "y")))%nat
  /\ forall s, s ∈ variables (Var "y")
       -> s ∈ variables (Binary Add (Binary Multiply NUMBER_0 (Var "x")) (Var "y")).
Proof.
  apply (simplify_never_grows no_floats
           (Binary Add (Binary Multiply NUMBER_0 (Var "x")) (Var "y")) (Var "y")).
  reflexivity.
Defined.

(** ** [simplify] on integer arithmetic *)





Section IntegerValues.

Variable L : pylib.
Variable bindings : gmap string number.



Lemma evaluate_Binary_of_ints c x y vx vy :
  arithmetic_class c = true ->
  evaluate L x bindings = Ok (PyInt vx) -> evaluate L y bindings = Ok (PyInt vy) ->
  evaluate L (Binary c x y) bindings = Ok (PyInt (int_operation c vx vy)).
Proof.
  intros Hc Hx Hy. cbn [evaluate]. rewrite Hx, Hy.
  destruct c; try discriminate Hc; reflexivity.
Qed.

Lemma evaluate_Negate_of_int x vx :
  evaluate L x bindings = Ok (PyInt vx) ->
  evaluate L (Negate x) bindings = Ok (PyInt (- vx)).
Proof.
  intros Hx. cbn [evaluate]. rewrite Hx. cbn [bind py_mul].
  replace (-1 * vx) with (- vx) by lia. reflexivity.
Qed.



End IntegerValues.

Section SimplifyValue.

Variable L : pylib.
Variable bindings : gmap string number.





End SimplifyValue.








(** ** The derivative of a constant *)








(** ** Bindings *)


Lemma Variable_evaluate_lookup s (b : gmap string number) :
  Variable_evaluate s b
  = match default_bindings !! s with
    | Some n => Ok n
    | None =>
        match b !! s with
        | Some n => Ok n
        | None => Raise (AssertionError "Cannot evaluate unbound variable")
        end
    end.
Proof.
  unfold Variable_evaluate, dict_or. rewrite lookup_union.
  destruct (default_bindings !! s), (b !! s); reflexivity.
Qed.

(** X14. The value of a tree depends on the caller's bindings only
    through the variables of the tree other than [Pi] and [E]: two
    environments that agree on those give the same outcome, be it a value or
    an exception. *)
Theorem evaluate_depends_on_its_variables (L : pylib) (t : node)
    (b1 b2 : gmap string number) :
  (forall s, s ∈ variables t -> s <> "Pi" -> s <> "E" -> b1 !! s = b2 !! s) ->
  evaluate L t b1 = evaluate L t b2.
Proof.
  induction t as [n|s|c x IHx y IHy|c x IHx|x IHx]; cbn [variables evaluate]; intros H.
  - reflexivity.
  - rewrite !Variable_evaluate_lookup.
    destruct (default_bindings !! s) as [n|] eqn:Hdefault; [reflexivity|].
    rewrite (H s).
    + reflexivity.
    + apply list_elem_of_here.
    + intros ->. discriminate Hdefault.
    + intros ->. discriminate Hdefault.
  - rewrite IHx, IHy; [reflexivity| |];
      intros s Hs; apply H; apply elem_of_app; auto.
  - rewrite (IHx H). reflexivity.
  - rewrite (IHx H). reflexivity.
Qed.

Lemma evaluate_depends_on_its_variables_witness :
  evaluate no_floats (Binary Multiply (Var "x") (Var "Pi")) {["x" := PyInt 2]}
  = evaluate no_floats (Binary Multiply (Var "x") (Var "Pi"))
      {["x" := PyInt 2; "y" := PyInt 7; "Pi" := PyInt 3]}.
Proof.
  apply (evaluate_depends_on_its_variables no_floats
           (Binary Multiply (Var "x") (Var "Pi"))).
  intros s Hs HPi HE. cbn [variables app] in Hs.
  apply elem_of_cons in Hs as [->|Hs]; [reflexivity|].
  apply list_elem_of_singleton in Hs. contradiction.
Defined.

(** X15. A tree with an [Abs] node never has a value: [Abs.evaluate]
    reads [math.abs], which the [math] module lacks, so it raises
    [AttributeError] before its operand is evaluated, whatever the bindings. *)
Theorem Abs_never_evaluates (L : pylib) (bindings : gmap string number) :
  (forall x, evaluate L (Unary Abs x) bindings = Raise AttributeError)
  /\ (forall t, has_Abs t = true -> returns (evaluate L t bindings) = false).
Proof.
  split; [reflexivity|].
  induction t as [n|s|c x IHx y IHy|c x IHx|x IHx]; cbn [has_Abs evaluate];
    intros H; try discriminate H.
  - apply orb_prop in H as [H|H].
    + specialize (IHx H). destruct (evaluate L x bindings); [discriminate IHx|..]; reflexivity.
    + specialize (IHy H). destruct (evaluate L x bindings); [|reflexivity..].
      cbn [bind]. destruct (evaluate L y bindings); [discriminate IHy|..]; reflexivity.
  - destruct c; try reflexivity; specialize (IHx H);
      (destruct (evaluate L x bindings); [discriminate IHx|..]; reflexivity).
  - specialize (IHx H). destruct (evaluate L x bindings); [discriminate IHx|..]; reflexivity.
Qed.

Lemma Abs_never_evaluates_witness :
  returns (evaluate no_floats (Binary Add NUMBER_1 (Unary Abs NUMBER_2)) ∅) = false.
Proof.
  apply (proj2 (Abs_never_evaluates no_floats ∅)
           (Binary Add NUMBER_1 (Unary Abs NUMBER_2))).
  reflexivity.
Defined.

(** ** The derivative of a polynomial *)





Section PolynomialDerivative.

Variable L : pylib.
Variable bindings : gmap string number.
Variable v : string.
Variables a h : Z.


End PolynomialDerivative.



(** ** A closing parenthesis too many *)

Lemma bind_Ok {A B : Type} (r : result A) (k : A -> result B) b :
  bind r k = Ok b -> exists a, r = Ok a /\ k a = Ok b.
Proof. destruct r as [a| |]; cbn; [eauto|discriminate..]. Qed.

Lemma continues_at_top next : continues next Operator = true.
Proof. destruct next; reflexivity. Qed.

(** At the outermost level [parse_partial] returns only at the end of the
    tokens or in front of a closing parenthesis. *)
Lemma parse_partial_stops fuel :
  forall tokens index previous t j tokens',
    parse_partial fuel tokens index Operator previous = Ok (t, j, tokens') ->
    tokens' !! j = Some ")" \/ (length tokens' <= j)%nat.
Proof.
  induction fuel as [|fuel IH]; intros T i previous t j T' H; [discriminate H|].
  cbn [parse_partial] in H. unfold parse_partial_body in H.
  destruct (T !! i) as [token|]; [|discriminate H].
  apply bind_Ok in H as ([[p1 k1] T1] & _ & H).
  apply bind_Ok in H as ([[p2 k2] T2] & _ & H).
  unfold parse_rest in H.
  destruct (bool_decide (k2 < length T2)%nat && negb (token_is T2 k2 ")")) eqn:Hgo.
  - apply bind_Ok in H as ([T3 next] & _ & H).
    rewrite continues_at_top in H. exact (IH _ _ _ _ _ _ H).
  - injection H as <- <- <-.
    apply andb_false_iff in Hgo as [Hend|Hclose].
    + right. apply bool_decide_eq_false in Hend. lia.
    + left. apply negb_false_iff in Hclose. unfold token_is in Hclose.
      destruct (T2 !! k2) as [token'|]; [|discriminate Hclose].
      apply String.eqb_eq in Hclose. congruence.
Qed.

(** X17. Where the first call of [parse_partial] returns before the end
    of the tokens, it stands in front of a closing parenthesis that closes
    nothing, and [parse] raises [SyntaxError] on its second round: when
    [parse] returns, its loop has run once. *)
Theorem unmatched_closing_parenthesis_raises (fuel : nat) (tokens tokens' : list string)
    (t : node) (j : nat) :
  parse_partial fuel tokens 0 Operator None = Ok (t, j, tokens') ->
  (j < length tokens')%nat ->
  tokens' !! j = Some ")"
  /\ forall fuel', (fuel + 2 <= fuel')%nat -> parse fuel' tokens = Raise SyntaxError.
Proof.
  intros H Hj.
  assert (Hclose : tokens' !! j = Some ")").
  { destruct (parse_partial_stops _ _ _ _ _ _ _ H) as [Hclose|Hend]; [exact Hclose|lia]. }
  split; [exact Hclose|]. intros fuel' Hfuel.
  destruct fuel as [|fuel]; [discriminate H|].
  destruct fuel' as [|[|[|fuel']]]; try lia.
  unfold parse. cbn [parse_loop].
  assert (Hsome : (0 < length tokens)%nat).
  { cbn [parse_partial] in H. unfold parse_partial_body in H.
    destruct tokens; [discriminate H|cbn [length]; lia]. }
  rewrite bool_decide_eq_true_2 by exact Hsome.
  rewrite (parse_partial_more _ (S (S fuel')) _ _ _ _ _ H) by lia. cbn [bind].
  rewrite bool_decide_eq_true_2 by exact Hj.
  cbn [parse_partial]. unfold parse_partial_body. rewrite Hclose. reflexivity.
Qed.

Lemma unmatched_closing_parenthesis_raises_witness :
  tokenize "(x))+1" !! 3%nat = Some ")"
  /\ forall fuel', (4 + 2 <= fuel')%nat ->
       parse fuel' (tokenize "(x))+1") = Raise SyntaxError.
Proof.
  apply (unmatched_closing_parenthesis_raises 4 (tokenize "(x))+1") (tokenize "(x))+1")
           (Var "x") 3).
  - reflexivity.
  - vm_compute. lia.
Defined.

(** ** What the parser builds from which tokens *)

Section Builds.

Variable P : string -> Prop.
Variable Q : node -> Prop.
Hypothesis star : P "*".
Hypothesis primitives :
  forall token has_previous p,
    P token -> parse_primitive token has_previous = Ok p -> allowed Q p.

Lemma insert_at_star (tokens : list string) i :
  Forall P tokens -> Forall P (insert_at i "*" tokens).
Proof.
  intros H. unfold insert_at. apply Forall_app. split.
  - apply Forall_take, H.
  - constructor; [exact star|]. apply Forall_drop, H.
Qed.

Lemma next_operator_tokens tokens new_index tokens' next :
  Forall P tokens -> next_operator tokens new_index = Ok (tokens', next) ->
  Forall P tokens'.
Proof.
  intros Hall H. unfold next_operator in H.
  apply bind_Ok in H as (classified & _ & H).
  destruct classified as [[t|[c|c|]]|]; injection H as <- _;
    first [exact Hall | apply insert_at_star, Hall].
Qed.

Variable rec : list string -> nat -> limit -> option node
               -> result (node * nat * list string).
Hypothesis Hrec : builds P Q rec.

Lemma parse_rest_builds parsed new_index tokens lim :
  Q parsed -> Forall P tokens ->
  match parse_rest rec parsed new_index tokens lim with
  | Ok (t, _, tokens') => Q t /\ Forall P tokens'
  | _ => True
  end.
Proof.
  intros Hparsed Hall. unfold parse_rest.
  destruct (bool_decide (new_index < length tokens)%nat
            && negb (token_is tokens new_index ")")); [|auto].
  destruct (next_operator tokens new_index) as [[tokens' next]| |] eqn:Hnext;
    cbn [bind]; [|exact I..].
  pose proof (next_operator_tokens _ _ _ _ Hall Hnext) as Hall'.
  destruct (continues next lim); [|auto].
  apply Hrec; [exact Hall'|]. intros p [= <-]. exact Hparsed.
Qed.

Lemma parse_partial_body_builds : builds P Q (parse_partial_body rec).
Proof.
  intros T i lim previous Hall Hprevious. unfold parse_partial_body.
  destruct (T !! i) as [token|] eqn:Hi; [|exact I].
  pose proof (proj1 (Forall_lookup _ _) Hall _ _ Hi) as Htoken.
  assert (Hnone : forall p : node, None = Some p -> Q p) by discriminate.
  unfold parse_first. destruct (String.eqb token "(").
  - pose proof (Hrec T (i + 1)%nat Operator None Hall Hnone) as Hcall.
    destruct (rec T (i + 1)%nat Operator None) as [[[p j] T1]| |]; cbn;
      [|exact I..].
    destruct Hcall as [Hp Hall1].
    destruct (token_is T1 j ")"); cbn; [|exact I].
    apply parse_rest_builds; assumption.
  - destruct (parse_primitive token (bool_decide (previous <> None)))
      as [p| |] eqn:Hp; cbn; [|exact I..].
    pose proof (primitives _ _ _ Htoken Hp) as Hallowed.
    destruct p as [t|[c|c|]]; cbn [allowed] in Hallowed; cbn.
    + apply parse_rest_builds; assumption.
    + destruct previous as [previous|]; cbn; [|exact I].
      pose proof (Hrec T (i + 1)%nat (LimitBinary c) (Some previous) Hall Hprevious)
        as Hcall.
      destruct (rec T (i + 1)%nat (LimitBinary c) (Some previous))
        as [[[p j] T1]| |]; cbn; [|exact I..].
      destruct Hcall as [Hp' Hall1].
      apply parse_rest_builds; [|exact Hall1].
      apply Hallowed; [apply Hprevious; reflexivity|exact Hp'].
    + destruct (token_is T (i + 1) "("); cbn; [|exact I].
      pose proof (Hrec T (i + 1 + 1)%nat Operator None Hall Hnone) as Hcall.
      destruct (rec T (i + 1 + 1)%nat Operator None) as [[[p j] T1]| |]; cbn;
        [|exact I..].
      destruct Hcall as [Hp' Hall1].
      destruct (token_is T1 j ")"); cbn; [|exact I].
      apply parse_rest_builds; [|exact Hall1]. apply Hallowed, Hp'.
    + pose proof (Hrec T (i + 1)%nat LimitNegate None Hall Hnone) as Hcall.
      destruct (rec T (i + 1)%nat LimitNegate None) as [[[p j] T1]| |]; cbn;
        [|exact I..].
      destruct Hcall as [Hp' Hall1].
      apply parse_rest_builds; [|exact Hall1]. apply Hallowed, Hp'.
Qed.

End Builds.

Lemma parse_partial_builds P Q fuel :
  P "*" ->
  (forall token has_previous p,
      P token -> parse_primitive token has_previous = Ok p -> allowed Q p) ->
  builds P Q (parse_partial fuel).
Proof.
  intros star primitives. induction fuel as [|fuel IH].
  - intros T i lim previous _ _. exact I.
  - exact (parse_partial_body_builds P Q star primitives (parse_partial fuel) IH).
Qed.

Lemma parse_text_builds P Q fuel s t :
  P "*" ->
  (forall token has_previous p,
      P token -> parse_primitive token has_previous = Ok p -> allowed Q p) ->
  Forall P (tokenize s) ->
  parse_text fuel s = Ok t -> Q t.
Proof.
  intros star primitives Hall H. unfold parse_text in H.
  apply bind_Ok in H as ([r T'] & Hparse & H).
  destruct r as [t'|]; [injection H as <-|discriminate H].
  assert (Hloop : forall fuel T previous i,
             Forall P T -> (forall p, previous = Some p -> Q p) ->
             parse_loop fuel T previous i = Ok (Some t', T') -> Q t').
  { clear - star primitives. intros fuel0.
    induction fuel0 as [|fuel0 IH]; intros T previous i HT Hprev H;
      cbn [parse_loop] in H; destruct (bool_decide (i < length T)%nat);
      try discriminate H.
    - injection H as -> _. apply Hprev. reflexivity.
    - pose proof (parse_partial_builds P Q fuel0 star primitives T i Operator previous
                    HT Hprev) as Hcall.
      destruct (parse_partial fuel0 T i Operator previous) as [[[p j] T1]| |];
        cbn [bind] in H; try discriminate H.
      destruct Hcall as [Hp HT1].
      apply (IH T1 (Some p) j HT1); [|exact H]. intros p' [= <-]. exact Hp.
    - injection H as -> _. apply Hprev. reflexivity. }
  apply (Hloop fuel (tokenize s) None 0%nat Hall); [discriminate|exact Hparse].
Qed.

(** The tokens of a text hold characters of the text only. *)
Lemma tokenize_all_chars p n :
  forall s, (String.length s <= n)%nat -> all_chars p s = true ->
    Forall (fun token => all_chars p token = true) (tokenize s).
Proof.
  induction n as [|n IH]; intros s Hlen Hs.
  - destruct s; [constructor|cbn in Hlen; lia].
  - destruct s as [|c rest]; [constructor|]. cbn [String.length] in Hlen.
    destruct (match_token (String c rest)) as [[token r]|] eqn:Hm.
    + pose proof (match_token_shorter c rest token r Hm) as Hr.
      destruct (match_token_lexeme _ _ _ Hm) as [Htext _].
      rewrite Htext, all_chars_app in Hs. apply andb_prop in Hs as [Htoken Hrest].
      rewrite (tokenize_token c rest token r Hm).
      constructor; [exact Htoken|]. apply IH; [lia|exact Hrest].
    + rewrite (tokenize_skip c rest Hm). cbn [all_chars] in Hs.
      apply andb_prop in Hs as [_ Hrest]. apply IH; [lia|exact Hrest].
Qed.

Lemma all_chars_impl (p q : ascii -> bool) s :
  (forall c, p c = true -> q c = true) ->
  all_chars p s = true -> all_chars q s = true.
Proof.
  intros Hpq. induction s as [|c s IH]; cbn [all_chars]; [reflexivity|].
  intros H. apply andb_prop in H as [Hc Hs]. rewrite (Hpq c Hc), (IH Hs). reflexivity.
Qed.

(** *** Whole numbers within the digits that [int] reads *)

Lemma uint_of_string_length s :
  forall d, NilEmpty.uint_of_string s = Some d -> Decimal.nb_digits d = String.length s.
Proof.
  induction s as [|c s IH]; cbn [NilEmpty.uint_of_string String.length]; intros d H.
  - injection H as <-. reflexivity.
  - destruct (NilEmpty.uint_of_string s) as [d'|]; [|discriminate H].
    specialize (IH d' eq_refl).
    destruct c as [[] [] [] [] [] [] [] []]; try discriminate H;
      injection H as <-; cbn [Decimal.nb_digits]; rewrite IH; reflexivity.
Qed.

Lemma string_of_uint_length d :
  String.length (NilEmpty.string_of_uint d) = Decimal.nb_digits d.
Proof. induction d; cbn; congruence. Qed.

Lemma NilZero_string_of_uint_length u :
  (String.length (NilZero.string_of_uint u) <= Nat.max 1 (Decimal.nb_digits u))%nat.
Proof.
  unfold NilZero.string_of_uint.
  destruct u; try (rewrite string_of_uint_length; lia). cbn. lia.
Qed.

(** [int] of a text of digits has no more digits than the text. *)
Lemma int_digits_of_uint d :
  (int_digits (Z.of_uint d) <= Nat.max 1 (Decimal.nb_digits d))%nat.
Proof.
  unfold int_digits, int_str.
  assert (Hnn : 0 <= Z.of_uint d).
  { unfold Z.of_uint. apply N2Z.is_nonneg. }
  rewrite Z.abs_eq by exact Hnn.
  change (Z.of_uint d) with (Z.of_int (Decimal.Pos d)).
  rewrite DecimalZ.to_of. cbn [Decimal.norm NilZero.string_of_int].
  pose proof (NilZero_string_of_uint_length (Decimal.unorm d)) as Hlen.
  destruct d as [|d|d|d|d|d|d|d|d|d|d];
    try (cbn in Hlen |- *; lia);
    match type of Hlen with
    | context [Decimal.unorm ?u] =>
        pose proof (DecimalFacts.nb_digits_unorm u ltac:(discriminate)); lia
    end.
Qed.

Lemma uint_of_string_other (whole : string) k rest :
  is_digit k = false -> NilEmpty.uint_of_string (whole ++ String k rest) = None.
Proof.
  intros Hk.
  induction whole as [|c whole IH]; rewrite ?append_String, ?append_empty;
    cbn [NilEmpty.uint_of_string].
  - destruct (NilEmpty.uint_of_string rest); [|reflexivity].
    destruct k as [[] [] [] [] [] [] [] []]; try reflexivity; discriminate Hk.
  - rewrite IH. reflexivity.
Qed.

Lemma forallb_Forall {A : Type} (f : A -> bool) (l : list A) :
  forallb f l = true -> Forall (fun a => f a = true) l.
Proof.
  induction l as [|a l IH]; cbn [forallb]; [constructor|].
  intros H. apply andb_prop in H as [Ha Hl]. constructor; [exact Ha|exact (IH Hl)].
Qed.

(** A number literal without a point is read by [int] where it has no more
    digits than the limit: [float] is not asked. *)
Lemma parse_primitive_whole token has_previous p :
  no_point token = true -> short_literal token = true -> match_number token = true ->
  parse_primitive token has_previous = Ok p ->
  exists z, p = Instance (Number (PyInt z)) /\ (int_digits z <= digit_limit)%nat.
Proof.
  intros Hpoint Hshort Hmatch Hp. unfold parse_primitive in Hp. rewrite Hmatch in Hp.
  pose proof (span_spec is_digit token) as Hspan.
  destruct (span is_digit token) as [whole r] eqn:Hsp.
  destruct Hspan as (Htoken & Hwhole & Hr).
  destruct r as [|k r2].
  - rewrite append_empty_r in Htoken. subst whole.
    unfold short_literal in Hshort. rewrite Hwhole in Hshort. cbn [negb orb] in Hshort.
    apply Nat.leb_le in Hshort.
    destruct (uint_of_string_digits token Hwhole) as [d Hd].
    unfold int_of_token in Hp. rewrite Hd, (proj2 (Nat.ltb_ge _ _) Hshort) in Hp.
    destruct token as [|c rest]; [discriminate Hmatch|].
    cbn [option_map] in Hp. injection Hp as <-.
    exists (Z.of_uint d). split; [reflexivity|].
    pose proof (int_digits_of_uint d) as Hdigits.
    rewrite (uint_of_string_length _ d Hd) in Hdigits.
    unfold digit_limit in *. lia.
  - apply negb_true_iff in Hr.
    assert (Hint : int_of_token token = None).
    { assert (Hu : NilEmpty.uint_of_string token = None)
        by (rewrite Htoken; apply uint_of_string_other, Hr).
      unfold int_of_token. rewrite Hu.
      destruct token as [|c rest]; [reflexivity|].
      destruct (digit_limit <? String.length (String c rest))%nat; reflexivity. }
    rewrite Hint in Hp. unfold float_of_token in Hp. rewrite Hsp in Hp.
    unfold no_point in Hpoint. rewrite Htoken, all_chars_app in Hpoint.
    apply andb_prop in Hpoint as [_ Hpoint].
    cbn [all_chars] in Hpoint. apply andb_prop in Hpoint as [Hk _].
    destruct k as [[] [] [] [] [] [] [] []]; try discriminate Hp. discriminate Hk.
Qed.

Lemma primitives_float_free token has_previous p :
  no_point token = true /\ short_literal token = true ->
  parse_primitive token has_previous = Ok p ->
  allowed (fun t => float_free t = true /\ printable t = true) p.
Proof.
  intros [Hpoint Hshort] Hp.
  destruct (match_number token) eqn:Hmatch.
  { destruct (parse_primitive_whole token has_previous p Hpoint Hshort Hmatch Hp)
      as (z & -> & Hz).
    cbn [allowed float_free printable]. split; [reflexivity|apply Nat.leb_le, Hz]. }
  destruct p as [t|[c|c|]]; cbn [allowed float_free printable].
  - unfold parse_primitive in Hp. rewrite Hmatch in Hp.
    destruct (if has_previous then None else prefix_operators_dict token);
      [discriminate Hp|].
    destruct (binary_operators_dict token); [discriminate Hp|].
    destruct (if has_previous then prefix_operators_dict token else None);
      [discriminate Hp|].
    destruct (match_name token); [|discriminate Hp].
    destruct (unary_functions_dict token); [discriminate Hp|].
    injection Hp as <-. split; reflexivity.
  - intros x y [Hx Hx'] [Hy Hy']. rewrite Hx, Hy, Hx', Hy'. split; reflexivity.
  - intros x Hx. exact Hx.
  - intros x Hx. exact Hx.
Qed.

Lemma integer_char_no_point c :
  integer_char c = true -> negb (Ascii.eqb c ".") = true.
Proof. destruct c as [[] [] [] [] [] [] [] []]; vm_compute; congruence. Qed.

Lemma integer_char_not_letter c : integer_char c = true -> is_letter c = false.
Proof. destruct c as [[] [] [] [] [] [] [] []]; vm_compute; congruence. Qed.

Lemma primitives_integer token has_previous p :
  all_chars integer_char token = true /\ short_literal token = true ->
  parse_primitive token has_previous = Ok p ->
  allowed (fun t => integer_arithmetic t = true) p.
Proof.
  intros [Hchars Hshort] Hp.
  pose proof (all_chars_impl _ _ token integer_char_no_point Hchars) as Hpoint.
  destruct (match_number token) eqn:Hmatch.
  { destruct (parse_primitive_whole token has_previous p Hpoint Hshort Hmatch Hp)
      as (z & -> & _).
    reflexivity. }
  unfold parse_primitive in Hp. rewrite Hmatch in Hp.
  assert (Hnegate : allowed (fun t => integer_arithmetic t = true) (Class NegateClass)).
  { intros x Hx. exact Hx. }
  assert (Hbinary : forall c, binary_operators_dict token = Some c ->
             allowed (fun t => integer_arithmetic t = true) (Class (BinaryClass c))).
  { intros c Hc x y Hx Hy. cbn [integer_arithmetic]. rewrite Hx, Hy.
    unfold binary_operators_dict in Hc.
    repeat match type of Hc with
           | (if String.eqb token ?s then _ else _) = _ =>
               let Heq := fresh "Heq" in
               destruct (String.eqb token s) eqn:Heq;
               [apply String.eqb_eq in Heq; subst token; injection Hc as <-;
                first [reflexivity | discriminate Hchars]|]
           end.
    discriminate Hc. }
  destruct (if has_previous then None else prefix_operators_dict token) as [c|] eqn:H1.
  { injection Hp as <-. destruct has_previous; [discriminate H1|].
    unfold prefix_operators_dict in H1.
    destruct (String.eqb token "-"); [injection H1 as <-|discriminate H1].
    exact Hnegate. }
  destruct (binary_operators_dict token) as [c|] eqn:H2.
  { injection Hp as <-. apply Hbinary. reflexivity. }
  destruct (if has_previous then prefix_operators_dict token else None) as [c|] eqn:H3.
  { injection Hp as <-. destruct has_previous; [|discriminate H3].
    unfold prefix_operators_dict in H3.
    destruct (String.eqb token "-"); [injection H3 as <-|discriminate H3].
    exact Hnegate. }
  destruct token as [|c rest]; [discriminate Hp|].
  cbn [all_chars] in Hchars. apply andb_prop in Hchars as [Hc _].
  cbn [match_name] in Hp. rewrite (integer_char_not_letter c Hc) in Hp. discriminate Hp.
Qed.

Lemma integer_arithmetic_value (L : pylib) (bindings : gmap string number) t :
  integer_arithmetic t = true -> exists z, evaluate L t bindings = Ok (PyInt z).
Proof.
  induction t as [[z|f]|s|c x IHx y IHy|c x IHx|x IHx]; cbn [integer_arithmetic];
    try discriminate.
  - eauto.
  - intros H. apply andb_prop in H as [H Hy]. apply andb_prop in H as [Hc Hx].
    destruct (IHx Hx) as [vx Hvx]. destruct (IHy Hy) as [vy Hvy].
    exists (int_operation c vx vy).
    apply evaluate_Binary_of_ints; assumption.
  - intros H. destruct (IHx H) as [vx Hvx]. exists (- vx).
    apply evaluate_Negate_of_int. exact Hvx.
Qed.

Lemma whole_line_tokens s :
  whole_line s ->
  Forall (fun token => no_point token = true /\ short_literal token = true) (tokenize s).
Proof.
  intros [Hpoint Hshort]. apply Forall_and. split.
  - exact (tokenize_all_chars _ _ s (le_n _) Hpoint).
  - exact (forallb_Forall _ _ Hshort).
Qed.

Lemma integer_line_tokens s :
  integer_line s ->
  Forall (fun token => all_chars integer_char token = true /\ short_literal token = true)
    (tokenize s).
Proof.
  intros [Hchars Hshort]. apply Forall_and. split.
  - exact (tokenize_all_chars _ _ s (le_n _) Hchars).
  - exact (forallb_Forall _ _ Hshort).
Qed.

(** The tree of a line without a point, of whole numbers that [int]
    reads: no float in it, and no [int] that [str] refuses. *)
Lemma whole_line_tree fuel s t :
  whole_line s -> parse_text fuel s = Ok t ->
  float_free t = true /\ printable t = true.
Proof.
  intros Hs Hparse.
  apply (parse_text_builds
           (fun token => no_point token = true /\ short_literal token = true)
           (fun t => float_free t = true /\ printable t = true) fuel s t).
  - split; reflexivity.
  - exact primitives_float_free.
  - exact (whole_line_tokens s Hs).
  - exact Hparse.
Qed.

Lemma integer_line_tree fuel s t :
  integer_line s -> parse_text fuel s = Ok t -> integer_arithmetic t = true.
Proof.
  intros Hs Hparse.
  apply (parse_text_builds
           (fun token => all_chars integer_char token = true /\ short_literal token = true)
           (fun t => integer_arithmetic t = true) fuel s t).
  - split; reflexivity.
  - exact primitives_integer.
  - exact (integer_line_tokens s Hs).
  - exact Hparse.
Qed.

(** X18. A text without a decimal point, whose whole numbers have at most
    4300 digits each (beyond them [int] fails and [float] reads the
    literal), parses to a tree without a float; so once such a text has
    parsed, [simplify] and [derivative] return a tree without a float: with
    room enough for their nested calls they return it, with less the room
    runs out ([RecursionError]), and they raise nothing else. *)
Theorem text_without_point_is_float_free (L : pylib) (fuel : nat) (s v : string)
    (t : node) :
  no_point s = true ->
  short_literals s = true ->
  parse_text fuel s = Ok t ->
  float_free t = true
  /\ exists t' d,
       float_free t' = true /\ float_free d = true
       /\ simplify L t = Ok t' /\ derivative L t v = Ok d
       /\ (forall depth,
             within (simplify_in L depth t) (Ok t')
             /\ within (derivative_in L depth t v) (Ok d))
       /\ exists depth0, forall depth, (depth0 <= depth)%nat ->
            simplify_in L depth t = Ok t' /\ derivative_in L depth t v = Ok d.
Proof.
  intros Hs Hshort Hparse.
  destruct (whole_line_tree fuel s t (conj Hs Hshort) Hparse) as [Ht _].
  split; [exact Ht|]. exact (float_free_settles L t v Ht).
Qed.

Lemma text_without_point_is_float_free_witness :
  float_free (Binary Power (Var "x") (Unary Sine (Var "x"))) = true
  /\ exists t' d,
       float_free t' = true /\ float_free d = true
       /\ simplify no_floats (Binary Power (Var "x") (Unary Sine (Var "x"))) = Ok t'
       /\ derivative no_floats (Binary Power (Var "x") (Unary Sine (Var "x"))) "x" = Ok d.
Proof.
  destruct (text_without_point_is_float_free no_floats 6 "x^sin(x)" "x"
              (Binary Power (Var "x") (Unary Sine (Var "x")))
              eq_refl eq_refl eq_refl)
    as (Ht & t' & d & Ht' & Hd & Hs & Hdd & _).
  split; [exact Ht|]. exists t', d. repeat split; assumption.
Defined.

(** X19. A text made of digits, [+ - * ( )] and blanks only, whose whole
    numbers have at most 4300 digits each, once it has parsed, evaluates to
    an [int] under any bindings: with room for as many nested calls as the
    tree is high [evaluate] returns it, with less the room runs out
    ([RecursionError]), and nothing else is raised. *)
Theorem integer_text_evaluates (L : pylib) (bindings : gmap string number)
    (fuel : nat) (s : string) (t : node) :
  all_chars integer_char s = true ->
  short_literals s = true ->
  parse_text fuel s = Ok t ->
  exists z,
    evaluate L t bindings = Ok (PyInt z)
    /\ (forall depth, within (evaluate_in L depth t bindings) (Ok (PyInt z)))
    /\ (forall depth, (height t <= depth)%nat ->
          evaluate_in L depth t bindings = Ok (PyInt z)).
Proof.
  intros Hs Hshort Hparse.
  pose proof (integer_line_tree fuel s t (conj Hs Hshort) Hparse) as Ht.
  destruct (integer_arithmetic_value L bindings t Ht) as [z Hz].
  exists z. split; [exact Hz|]. split.
  - intros depth. rewrite <- Hz. apply evaluate_in_within.
  - intros depth Hdepth. rewrite <- Hz. apply evaluate_in_enough. exact Hdepth.
Qed.

Lemma integer_text_evaluates_witness :
  exists z,
    evaluate no_floats
      (Binary Subtract (Negate NUMBER_2)
         (Binary Multiply (Number (PyInt 3)) (Binary Add NUMBER_1 NUMBER_2))) ∅
    = Ok (PyInt z).
Proof.
  destruct (integer_text_evaluates no_floats ∅ 12 "-2 - 3(1 + 2)"
              (Binary Subtract (Negate NUMBER_2)
                 (Binary Multiply (Number (PyInt 3)) (Binary Add NUMBER_1 NUMBER_2)))
              eq_refl eq_refl eq_refl)
    as (z & Hz & _).
  exists z. exact Hz.
Defined.

(** ** The prompts *)

Lemma prompt_loop_ends_within errors prompt body (P : string -> Prop) lines :
  answers_within errors P body -> Forall P lines ->
  ends_within errors (snd (prompt_loop prompt body lines)).
Proof.
  intros Hbody Hlines. induction Hlines as [|text lines Htext _ IH]; [exact I|].
  cbn [prompt_loop]. destruct (String.eqb text "exit()"); [exact I|].
  specialize (Hbody text Htext). unfold replies_within in Hbody.
  destruct (body text) as [printed [u|e|]]; cbn [snd] in Hbody.
  - destruct (prompt_loop prompt body lines) as [rest e]. exact IH.
  - exact Hbody.
  - exact I.
Qed.

(** With room enough for every line, no line is left unanswered. *)
Lemma prompt_loop_settles errors prompt (body : nat -> string -> reply)
    (P : string -> Prop) lines :
  (forall text, P text ->
     exists room0, forall room, (room0 <= room)%nat -> replies errors (body room text)) ->
  Forall P lines ->
  exists room0, forall room, (room0 <= room)%nat ->
    ends_with errors (snd (prompt_loop prompt (body room) lines)).
Proof.
  intros Hbody Hlines. induction Hlines as [|text lines Htext _ IH].
  - exists 0%nat. intros room _. exact I.
  - destruct IH as [rest0 IH]. destruct (Hbody text Htext) as [text0 Hreply].
    exists (text0 + rest0)%nat. intros room Hroom.
    cbn [prompt_loop]. destruct (String.eqb text "exit()"); [exact I|].
    specialize (Hreply room ltac:(lia)). specialize (IH room ltac:(lia)).
    unfold replies in Hreply.
    destruct (body room text) as [printed [u|e|]]; cbn [snd] in Hreply.
    + destruct (prompt_loop prompt (body room) lines) as [rest e]. exact IH.
    + exact Hreply.
    + destruct Hreply.
Qed.

Lemma after_within {A : Type} errors printed (r : result A) (a : A) (k : A -> reply) :
  within r (Ok a) -> replies_within errors (k a) ->
  replies_within errors (after printed r k).
Proof. intros [->| ->] H; [exact I|exact H]. Qed.

Lemma str_node_printable (L : pylib) t :
  printable t = true -> str_node L t = Ok (toString L t).
Proof. intros H. unfold str_node. rewrite H. reflexivity. Qed.

Lemma repr_node_printable (L : pylib) t :
  printable t = true -> repr_node L t = Ok (toRepr L t).
Proof. intros H. unfold repr_node. rewrite H. reflexivity. Qed.

(** [parse] at a prompt, on the tokens of a line. *)
Lemma parse_tokens_within room s :
  match parse_tokens room (tokenize s) with
  | Ok (Some t) => parse_text room s = Ok t
  | Ok None => True
  | Raise e => parse_error e = true
  | Unfinished => True
  end.
Proof.
  unfold parse_tokens, parse_text.
  destruct (parse room (tokenize s)) as [[r T']|e|] eqn:Hparse; cbn [bind].
  - destruct r; [reflexivity|exact I].
  - apply (parse_loop_error _ _ _ _ _ (proj1 (tokenize_spec _ s (le_n _))) Hparse).
  - exact I.
Qed.

(** With room for twice the tokens and two, [parse] comes to its end, and
    more room changes nothing. *)
Lemma parse_tokens_settles s room :
  (2 * length (tokenize s) + 2 <= room)%nat ->
  finished (parse_tokens room (tokenize s))
  /\ parse_tokens room (tokenize s)
     = parse_tokens (2 * length (tokenize s) + 2) (tokenize s).
Proof.
  intros Hroom.
  assert (Hfin : finished (parse (2 * length (tokenize s) + 2) (tokenize s))).
  { apply parse_loop_finished. rewrite drop_0.
    pose proof (weight_length (tokenize s)). lia. }
  assert (Hsame : parse room (tokenize s)
                  = parse (2 * length (tokenize s) + 2) (tokenize s))
    by (apply parse_mono; assumption).
  unfold parse_tokens. rewrite Hsame. split; [|reflexivity].
  destruct (parse (2 * length (tokenize s) + 2) (tokenize s)) as [[r T']|e|];
    cbn [bind]; [discriminate|discriminate|exfalso; exact (Hfin eq_refl)].
Qed.

Lemma ddx_body_within (L : pylib) room :
  answers_within parse_error whole_line (ddx_body L room).
Proof.
  intros text Htext. unfold ddx_body.
  pose proof (parse_tokens_within room text) as Hparse.
  destruct (parse_tokens room (tokenize text)) as [[t|]|e|]; cbn [after];
    [|exact I|exact Hparse|exact I].
  destruct (whole_line_tree room text t Htext Hparse) as [Hf Hp].
  destruct (derivative_float_free L t "x" Hf) as (d & Hd & _).
  pose proof (derivative_printable L t "x" Hf Hp d Hd) as Hpd.
  apply (after_within _ _ _ d); [rewrite <- Hd; apply derivative_in_within|].
  apply (after_within _ _ _ (toString L d)); [|exact I].
  rewrite <- (str_node_printable L d Hpd). apply str_in_within.
Qed.

Lemma ddx_body_settles (L : pylib) text :
  whole_line text ->
  exists room0, forall room, (room0 <= room)%nat ->
    replies parse_error (ddx_body L room text).
Proof.
  intros Htext.
  pose proof (parse_tokens_within (2 * length (tokenize text) + 2) text) as Hparse.
  pose proof (parse_tokens_settles text) as Hsettles.
  destruct (parse_tokens (2 * length (tokenize text) + 2) (tokenize text))
    as [[t|]|e|] eqn:Htokens.
  - destruct (whole_line_tree _ text t Htext Hparse) as [Hf Hp].
    destruct (derivative_float_free L t "x" Hf) as (d & Hd & _).
    pose proof (derivative_printable L t "x" Hf Hp d Hd) as Hpd.
    destruct (derivative_in_settles L "x" t) as [dd Hdd].
    exists (2 * length (tokenize text) + 2 + dd + height d)%nat. intros room Hroom.
    unfold ddx_body. rewrite (proj2 (Hsettles room ltac:(lia))). cbn [after].
    rewrite Hdd, Hd by lia. cbn [after].
    rewrite str_in_enough, (str_node_printable L d Hpd) by lia. exact I.
  - exists (2 * length (tokenize text) + 2)%nat. intros room Hroom.
    unfold ddx_body. rewrite (proj2 (Hsettles room Hroom)). exact I.
  - exists (2 * length (tokenize text) + 2)%nat. intros room Hroom.
    unfold ddx_body. rewrite (proj2 (Hsettles room Hroom)). exact Hparse.
  - exfalso. apply (proj1 (Hsettles _ (le_n _))). exact Htokens.
Qed.

(** X20. At the prompt of [ddx_prompt.py], lines without a decimal point,
    whose whole numbers have at most 4300 digits each, end the session by
    [exit()], at the end of the input, with an exception of the parser, or
    where a line finds no room for its nested calls ([RecursionError]), and
    in no other way; and with room enough for the lines entered, no
    session ends for the lack of it. [derivative] and [str] raise nothing
    else there. *)
Theorem ddx_prompt_fails_in_the_parser_only (L : pylib) (lines : list string) :
  Forall whole_line lines ->
  (forall room, ends_within parse_error (snd (ddx_prompt L room lines)))
  /\ exists room0, forall room, (room0 <= room)%nat ->
       ends_well (snd (ddx_prompt L room lines)).
Proof.
  intros Hlines. split.
  - intros room. exact (prompt_loop_ends_within _ _ _ _ _ (ddx_body_within L room) Hlines).
  - exact (prompt_loop_settles parse_error "ddx> " (ddx_body L) whole_line lines
             (ddx_body_settles L) Hlines).
Qed.

Lemma ddx_prompt_fails_in_the_parser_only_witness :
  exists room0, forall room, (room0 <= room)%nat ->
    ends_well (snd (ddx_prompt no_floats room ["x^2"; "sin(x"; "exit()"])).
Proof.
  apply (ddx_prompt_fails_in_the_parser_only no_floats ["x^2"; "sin(x"; "exit()"]).
  repeat constructor.
Defined.

Lemma eval_body_within (L : pylib) room :
  answers_within eval_error integer_line (eval_body L room).
Proof.
  intros text Htext. unfold eval_body.
  pose proof (parse_tokens_within room text) as Hparse.
  destruct (parse_tokens room (tokenize text)) as [[t|]|e|]; cbn [after];
    [|exact I| |exact I].
  - pose proof (integer_line_tree room text t Htext Hparse) as Ht.
    destruct (integer_arithmetic_value L ∅ t Ht) as (z & Hz).
    apply (after_within _ _ _ (PyInt z)); [rewrite <- Hz; apply evaluate_in_within|].
    cbn [str_number]. unfold str_int.
    destruct (digit_limit <? int_digits z)%nat; [reflexivity|exact I].
  - unfold replies_within, eval_error. cbn [snd]. rewrite Hparse. reflexivity.
Qed.

Lemma eval_body_settles (L : pylib) text :
  integer_line text ->
  exists room0, forall room, (room0 <= room)%nat ->
    replies eval_error (eval_body L room text).
Proof.
  intros Htext.
  pose proof (parse_tokens_within (2 * length (tokenize text) + 2) text) as Hparse.
  pose proof (parse_tokens_settles text) as Hsettles.
  destruct (parse_tokens (2 * length (tokenize text) + 2) (tokenize text))
    as [[t|]|e|] eqn:Htokens.
  - pose proof (integer_line_tree _ text t Htext Hparse) as Ht.
    destruct (integer_arithmetic_value L ∅ t Ht) as (z & Hz).
    exists (2 * length (tokenize text) + 2 + height t)%nat. intros room Hroom.
    unfold eval_body. rewrite (proj2 (Hsettles room ltac:(lia))). cbn [after].
    rewrite evaluate_in_enough, Hz by lia. cbn [after str_number]. unfold str_int.
    destruct (digit_limit <? int_digits z)%nat; [reflexivity|exact I].
  - exists (2 * length (tokenize text) + 2)%nat. intros room Hroom.
    unfold eval_body. rewrite (proj2 (Hsettles room Hroom)). exact I.
  - exists (2 * length (tokenize text) + 2)%nat. intros room Hroom.
    unfold eval_body. rewrite (proj2 (Hsettles room Hroom)).
    unfold replies, eval_error. cbn [after snd]. rewrite Hparse. reflexivity.
  - exfalso. apply (proj1 (Hsettles _ (le_n _))). exact Htokens.
Qed.

(** X21. At the prompt of [eval_prompt.py], lines made of digits,
    [+ - * ( )] and blanks, whose whole numbers have at most 4300 digits
    each, end the session at the end of the input, with an exception of the
    parser, with the [ValueError] of [str] on a result of more than 4300
    digits, or where a line finds no room for its nested calls
    ([RecursionError]), and in no other way; and with room enough for the
    lines entered, no session ends for the lack of it. The evaluation of
    such a line raises nothing else. *)
Theorem eval_prompt_fails_in_the_parser_or_in_print (L : pylib) (lines : list string) :
  Forall integer_line lines ->
  (forall room, ends_within eval_error (snd (eval_prompt L room lines)))
  /\ exists room0, forall room, (room0 <= room)%nat ->
       ends_with eval_error (snd (eval_prompt L room lines)).
Proof.
  intros Hlines. split.
  - intros room. exact (prompt_loop_ends_within _ _ _ _ _ (eval_body_within L room) Hlines).
  - exact (prompt_loop_settles eval_error "evl> " (eval_body L) integer_line lines
             (eval_body_settles L) Hlines).
Qed.

Lemma eval_prompt_fails_in_the_parser_or_in_print_witness :
  exists room0, forall room, (room0 <= room)%nat ->
    ends_with eval_error (snd (eval_prompt no_floats room ["2(3 + 4)"; "1 -"; "5"])).
Proof.
  apply (eval_prompt_fails_in_the_parser_or_in_print no_floats ["2(3 + 4)"; "1 -"; "5"]).
  repeat constructor.
Defined.

Lemma debug_body_within (L : pylib) room :
  answers_within debug_error whole_line (debug_body L room).
Proof.
  intros text Htext. unfold debug_body.
  pose proof (parse_tokens_within room text) as Hparse.
  destruct (parse_tokens room (tokenize text)) as [[t|]|e|]; cbn [after];
    [|reflexivity| |exact I].
  - destruct (whole_line_tree room text t Htext Hparse) as [Hf Hp].
    destruct (simplify_float_free L t Hf) as (t' & Ht' & _).
    pose proof (simplify_printable L t Hf Hp t' Ht') as Hpt'.
    destruct (derivative_float_free L t "x" Hf) as (d & Hd & _).
    pose proof (derivative_printable L t "x" Hf Hp d Hd) as Hpd.
    apply (after_within _ _ _ (toRepr L t));
      [rewrite <- (repr_node_printable L t Hp); apply repr_in_within|].
    apply (after_within _ _ _ (toString L t));
      [rewrite <- (str_node_printable L t Hp); apply str_in_within|].
    apply (after_within _ _ _ t'); [rewrite <- Ht'; apply simplify_in_within|].
    apply (after_within _ _ _ (toString L t'));
      [rewrite <- (str_node_printable L t' Hpt'); apply str_in_within|].
    apply (after_within _ _ _ d); [rewrite <- Hd; apply derivative_in_within|].
    apply (after_within _ _ _ (toString L d)); [|exact I].
    rewrite <- (str_node_printable L d Hpd). apply str_in_within.
  - unfold replies_within, debug_error. cbn [snd]. rewrite Hparse. reflexivity.
Qed.

Lemma debug_body_settles (L : pylib) text :
  whole_line text ->
  exists room0, forall room, (room0 <= room)%nat ->
    replies debug_error (debug_body L room text).
Proof.
  intros Htext.
  pose proof (parse_tokens_within (2 * length (tokenize text) + 2) text) as Hparse.
  pose proof (parse_tokens_settles text) as Hsettles.
  destruct (parse_tokens (2 * length (tokenize text) + 2) (tokenize text))
    as [[t|]|e|] eqn:Htokens.
  - destruct (whole_line_tree _ text t Htext Hparse) as [Hf Hp].
    destruct (simplify_float_free L t Hf) as (t' & Ht' & _).
    pose proof (simplify_printable L t Hf Hp t' Ht') as Hpt'.
    destruct (derivative_float_free L t "x" Hf) as (d & Hd & _).
    pose proof (derivative_printable L t "x" Hf Hp d Hd) as Hpd.
    destruct (derivative_in_settles L "x" t) as [dd Hdd].
    exists (2 * length (tokenize text) + 2 + S (height t) + height t' + dd + height d)%nat.
    intros room Hroom.
    unfold debug_body. rewrite (proj2 (Hsettles room ltac:(lia))). cbn [after].
    rewrite repr_in_enough, (repr_node_printable L t Hp) by lia. cbn [after].
    rewrite str_in_enough, (str_node_printable L t Hp) by lia. cbn [after].
    rewrite simplify_in_enough, Ht' by lia. cbn [after].
    rewrite str_in_enough, (str_node_printable L t' Hpt') by lia. cbn [after].
    rewrite Hdd, Hd by lia. cbn [after].
    rewrite str_in_enough, (str_node_printable L d Hpd) by lia. exact I.
  - exists (2 * length (tokenize text) + 2)%nat. intros room Hroom.
    unfold debug_body. rewrite (proj2 (Hsettles room Hroom)). reflexivity.
  - exists (2 * length (tokenize text) + 2)%nat. intros room Hroom.
    unfold debug_body. rewrite (proj2 (Hsettles room Hroom)).
    unfold replies, debug_error. cbn [after snd]. rewrite Hparse. reflexivity.
  - exfalso. apply (proj1 (Hsettles _ (le_n _))). exact Htokens.
Qed.

(** X22. At the prompt of [debug_prompt.py], lines without a decimal
    point, whose whole numbers have at most 4300 digits each, end the
    session by [exit()], at the end of the input, with an exception of the
    parser, with the [AttributeError] of a line without tokens, or where a
    line finds no room for its nested calls ([RecursionError]), and in no
    other way; and with room enough for the lines entered, no session ends
    for the lack of it. [repr], [str], [simplify] and [derivative] raise
    nothing else there. *)
Theorem debug_prompt_fails_in_the_parser_or_on_None (L : pylib) (lines : list string) :
  Forall whole_line lines ->
  (forall room, ends_within debug_error (snd (debug_prompt L room lines)))
  /\ exists room0, forall room, (room0 <= room)%nat ->
       ends_with debug_error (snd (debug_prompt L room lines)).
Proof.
  intros Hlines. split.
  - intros room. exact (prompt_loop_ends_within _ _ _ _ _ (debug_body_within L room) Hlines).
  - exact (prompt_loop_settles debug_error "> " (debug_body L) whole_line lines
             (debug_body_settles L) Hlines).
Qed.

Lemma debug_prompt_fails_in_the_parser_or_on_None_witness :
  exists room0, forall room, (room0 <= room)%nat ->
    ends_with debug_error (snd (debug_prompt no_floats room ["2x"; ""; "exit()"])).
Proof.
  apply (debug_prompt_fails_in_the_parser_or_on_None no_floats ["2x"; ""; "exit()"]).
  repeat constructor.
Defined.

Lemma blank_is_not_exit text :
  all_chars skipped_char text = true -> String.eqb text "exit()" = false.
Proof.
  destruct text as [|c rest]; [reflexivity|]. cbn [all_chars String.eqb].
  intros H. apply andb_prop in H as [Hc _].
  destruct (Ascii.eqb_spec c "e"%char) as [->|_]; [discriminate Hc|reflexivity].
Qed.

(** X23. A line without a token (empty, or of blanks and other characters
    the lexer skips) is passed over by [eval_prompt.py] and
    [ddx_prompt.py], which print nothing and prompt again; it ends the
    session of [debug_prompt.py], which prints the empty token list and
    ["None"] twice and then fails with [AttributeError] on
    [parsed.simplify()]. *)
Theorem blank_line_at_the_prompts (L : pylib) (room : nat) (text : string)
    (lines : list string) :
  all_chars skipped_char text = true ->
  eval_prompt L room (text :: lines)
  = ("evl> " :: fst (eval_prompt L room lines), snd (eval_prompt L room lines))
  /\ ddx_prompt L room (text :: lines)
     = ("ddx> " :: fst (ddx_prompt L room lines), snd (ddx_prompt L room lines))
  /\ debug_prompt L room (text :: lines)
     = (["> "; "tok >> []"; "prs >> None"; "str >> None"], Failed AttributeError).
Proof.
  intros Hblank.
  pose proof (blank_is_not_exit text Hblank) as Hexit.
  assert (Htokens : tokenize text = []) by (apply findall_skipped, Hblank).
  assert (Hparse : parse_tokens room [] = Ok None) by (destruct room; reflexivity).
  assert (Heval : eval_body L room text = ([], Ok tt))
    by (unfold eval_body; rewrite Htokens, Hparse; reflexivity).
  assert (Hddx : ddx_body L room text = ([], Ok tt))
    by (unfold ddx_body; rewrite Htokens, Hparse; reflexivity).
  assert (Hdebug : debug_body L room text
                   = (["tok >> []"; "prs >> None"; "str >> None"], Raise AttributeError))
    by (unfold debug_body; rewrite Htokens, Hparse; reflexivity).
  unfold eval_prompt, ddx_prompt, debug_prompt. cbn [prompt_loop].
  rewrite Hexit, Heval, Hddx, Hdebug. repeat split.
  - destruct (prompt_loop "evl> " (eval_body L room) lines). reflexivity.
  - destruct (prompt_loop "ddx> " (ddx_body L room) lines). reflexivity.
Qed.

Lemma blank_line_at_the_prompts_witness :
  eval_prompt no_floats 20 ["  "; "1 + 1"]
  = ("evl> " :: fst (eval_prompt no_floats 20 ["1 + 1"]),
     snd (eval_prompt no_floats 20 ["1 + 1"]))
  /\ ddx_prompt no_floats 20 ["  "; "1 + 1"]
     = ("ddx> " :: fst (ddx_prompt no_floats 20 ["1 + 1"]),
        snd (ddx_prompt no_floats 20 ["1 + 1"]))
  /\ debug_prompt no_floats 20 ["  "; "1 + 1"]
     = (["> "; "tok >> []"; "prs >> None"; "str >> None"], Failed AttributeError).
Proof.
  apply (blank_line_at_the_prompts no_floats 20 "  " ["1 + 1"]). reflexivity.
Defined.

(** ** Parentheses balance *)

Lemma count_token_app s (a b : list string) :
  count_token s (a ++ b) = (count_token s a + count_token s b)%nat.
Proof. unfold count_token. rewrite List.filter_app, length_app. reflexivity. Qed.

Lemma count_token_cons s token (l : list string) :
  count_token s (token :: l)
  = ((if String.eqb s token then 1 else 0) + count_token s l)%nat.
Proof. unfold count_token. cbn [List.filter]. destruct (String.eqb s token); reflexivity. Qed.

Lemma segment_split i k j (T : list string) :
  (i <= k <= j)%nat -> (k <= length T)%nat ->
  segment i j T = (segment i k T ++ segment k j T)%list.
Proof.
  intros Hk Hlen. unfold segment.
  rewrite <- (take_drop k (take j T)) at 1.
  rewrite take_take, Nat.min_l by lia.
  rewrite drop_app_le by (rewrite length_take; lia). reflexivity.
Qed.

Lemma segment_one i (T : list string) token :
  T !! i = Some token -> segment i (S i) T = [token].
Proof.
  intros H. unfold segment. rewrite (take_S_r _ _ _ H).
  rewrite drop_app_length'; [reflexivity|].
  rewrite length_take. apply lookup_lt_Some in H. lia.
Qed.

Lemma segment_empty i (T : list string) : segment i i T = [].
Proof. unfold segment. apply drop_ge. rewrite length_take. lia. Qed.

Lemma take_prefix i k (T T' : list string) :
  (i <= k)%nat -> take k T' = take k T -> take i T' = take i T.
Proof.
  intros Hik H. rewrite <- (Nat.min_l i k) by lia. rewrite <- !take_take, H. reflexivity.
Qed.

Lemma segment_prefix i k (T T' : list string) :
  take k T' = take k T -> segment i k T' = segment i k T.
Proof. intros H. unfold segment. rewrite H. reflexivity. Qed.

Lemma lookup_prefix i k (T T' : list string) :
  (i < k)%nat -> take k T' = take k T -> T' !! i = T !! i.
Proof.
  intros Hik H. rewrite <- (lookup_take_lt T' k i), <- (lookup_take_lt T k i) by lia.
  rewrite H. reflexivity.
Qed.

Lemma take_insert_at k (T : list string) token :
  (k <= length T)%nat -> take k (insert_at k token T) = take k T.
Proof.
  intros H. unfold insert_at. rewrite take_app_le by (rewrite length_take; lia).
  rewrite take_take, Nat.min_id. reflexivity.
Qed.

Lemma reached_start (T : list string) i : (i <= length T)%nat -> reached T i T i.
Proof.
  intros H. repeat split; try lia. rewrite segment_empty. reflexivity.
Qed.

Lemma reached_token (T T1 : list string) i k token :
  reached T i T1 k -> T1 !! k = Some token -> token <> "(" -> token <> ")" ->
  reached T i T1 (S k).
Proof.
  intros (Hk & Htake & Hbalanced) Htoken Hopen Hclose.
  pose proof (lookup_lt_Some _ _ _ Htoken) as Hlen.
  repeat split; try lia; [exact Htake|].
  unfold balanced in *.
  rewrite (segment_split i k (S k)) by lia.
  rewrite (segment_one k T1 token Htoken), !count_token_app, !count_token_cons.
  destruct (String.eqb_spec "(" token) as [<-|_]; [contradiction|].
  destruct (String.eqb_spec ")" token) as [<-|_]; [contradiction|].
  rewrite Hbalanced. reflexivity.
Qed.

Lemma reached_call (T T1 T2 : list string) i k j :
  reached T i T1 k -> reached T1 k T2 j -> reached T i T2 j.
Proof.
  intros (Hk & Htake & Hbalanced) (Hj & Htake' & Hbalanced').
  repeat split; try lia.
  - rewrite <- Htake. apply (take_prefix i k); [lia|exact Htake'].
  - unfold balanced in *. rewrite (segment_split i k j) by lia.
    rewrite (segment_prefix i k T1 T2 Htake'), !count_token_app.
    rewrite Hbalanced, Hbalanced'. reflexivity.
Qed.

Lemma reached_enclosed (T T1 T2 : list string) i k j :
  reached T i T1 k -> T1 !! k = Some "(" -> reached T1 (S k) T2 j ->
  T2 !! j = Some ")" ->
  reached T i T2 (S j).
Proof.
  intros (Hk & Htake & Hbalanced) Hopen (Hj & Htake' & Hbalanced') Hclose.
  pose proof (lookup_lt_Some _ _ _ Hclose) as Hlen.
  assert (Hopen' : T2 !! k = Some "(").
  { rewrite (lookup_prefix k (S k) T1 T2) by (try lia; exact Htake'). exact Hopen. }
  assert (Hprefix : take k T2 = take k T1).
  { apply (take_prefix k (S k)); [lia|exact Htake']. }
  repeat split; try lia.
  - rewrite <- Htake. apply (take_prefix i (S k)); [lia|exact Htake'].
  - unfold balanced in *.
    rewrite (segment_split i k (S j)) by lia.
    rewrite (segment_split k (S k) (S j)) by lia.
    rewrite (segment_split (S k) j (S j)) by lia.
    rewrite (segment_prefix i k T1 T2 Hprefix).
    rewrite (segment_one k T2 _ Hopen'), (segment_one j T2 _ Hclose).
    rewrite !count_token_app, !count_token_cons. cbn [String.eqb Ascii.eqb].
    rewrite Hbalanced, Hbalanced'. cbn. lia.
Qed.

Lemma reached_star (T T1 : list string) i k :
  reached T i T1 k -> reached T i (insert_at k "*" T1) k.
Proof.
  intros (Hk & Htake & Hbalanced).
  pose proof (take_insert_at k T1 "*" (proj2 Hk)) as Hprefix.
  repeat split; try lia.
  - unfold insert_at. rewrite length_app, length_take. cbn [length].
    rewrite length_drop. lia.
  - rewrite <- Htake. apply (take_prefix i k); [lia|exact Hprefix].
  - rewrite (segment_prefix i k T1 _ Hprefix). exact Hbalanced.
Qed.

Lemma parse_primitive_not_parenthesis token has_previous p :
  parse_primitive token has_previous = Ok p -> token <> "(" /\ token <> ")".
Proof. intros Hp. split; intros ->; destruct has_previous; discriminate Hp. Qed.

Lemma next_operator_cases tokens new_index tokens' next :
  next_operator tokens new_index = Ok (tokens', next) ->
  tokens' = tokens \/ tokens' = insert_at new_index "*" tokens.
Proof.
  intros H. unfold next_operator in H.
  apply bind_Ok in H as (classified & _ & H).
  destruct classified as [[t|[c|c|]]|]; injection H as <- _; auto.
Qed.

Lemma token_is_lookup (tokens : list string) i s :
  token_is tokens i s = true -> tokens !! i = Some s.
Proof.
  unfold token_is. destruct (tokens !! i) as [token|]; [|discriminate].
  intros H. apply String.eqb_eq in H. congruence.
Qed.

Section Spanning.

Variable rec : list string -> nat -> limit -> option node
               -> result (node * nat * list string).
Hypothesis Hrec : spanning rec.

Lemma spans_from (T T1 : list string) i k r :
  reached T i T1 k -> spans T1 k r -> spans T i r.
Proof.
  intros Hreached. destruct r as [[[t j] T2]| |]; cbn [spans]; auto.
  apply reached_call, Hreached.
Qed.

Lemma parse_rest_spans (T T1 : list string) i parsed k lim :
  reached T i T1 k -> spans T i (parse_rest rec parsed k T1 lim).
Proof.
  intros Hreached. unfold parse_rest.
  destruct (bool_decide (k < length T1)%nat && negb (token_is T1 k ")"));
    [|exact Hreached].
  destruct (next_operator T1 k) as [[T2 next]| |] eqn:Hnext; cbn [bind];
    [|exact I..].
  assert (Hreached' : reached T i T2 k).
  { destruct (next_operator_cases _ _ _ _ Hnext) as [->| ->];
      [exact Hreached|apply reached_star, Hreached]. }
  destruct (continues next lim); [|exact Hreached'].
  apply (spans_from T T2 i k); [exact Hreached'|apply Hrec].
Qed.

Lemma parse_partial_body_spans : spanning (parse_partial_body rec).
Proof.
  intros T i lim previous. unfold parse_partial_body.
  destruct (T !! i) as [token|] eqn:Hi; [|exact I].
  pose proof (lookup_lt_Some _ _ _ Hi) as Hlen.
  pose proof (reached_start T i (Nat.lt_le_incl _ _ Hlen)) as Hstart.
  unfold parse_first. destruct (String.eqb_spec token "(") as [->|_].
  - pose proof (Hrec T (i + 1)%nat Operator None) as Hcall.
    rewrite Nat.add_1_r in *.
    destruct (rec T (S i) Operator None) as [[[p j] T1]| |]; cbn; [|exact I..].
    destruct (token_is T1 j ")") eqn:Hclose; cbn; [|exact I].
    apply parse_rest_spans. rewrite Nat.add_1_r.
    exact (reached_enclosed T T T1 i i j Hstart Hi Hcall (token_is_lookup _ _ _ Hclose)).
  - destruct (parse_primitive token (bool_decide (previous <> None)))
      as [p| |] eqn:Hp; cbn; [|exact I..].
    destruct (parse_primitive_not_parenthesis _ _ _ Hp) as [Hopen Hclose].
    pose proof (reached_token T T i i token Hstart Hi Hopen Hclose) as Hnext.
    rewrite Nat.add_1_r.
    destruct p as [t|[c|c|]]; cbn.
    + apply parse_rest_spans, Hnext.
    + destruct previous as [previous|]; cbn; [|exact I].
      pose proof (Hrec T (S i) (LimitBinary c) (Some previous)) as Hcall.
      destruct (rec T (S i) (LimitBinary c) (Some previous)) as [[[p j] T1]| |];
        cbn; [|exact I..].
      apply parse_rest_spans. exact (reached_call T T T1 i (S i) j Hnext Hcall).
    + destruct (token_is T (S i) "(") eqn:Hparen; cbn; [|exact I].
      pose proof (Hrec T (S i + 1)%nat Operator None) as Hcall.
      rewrite Nat.add_1_r in *.
      destruct (rec T (S (S i)) Operator None) as [[[p j] T1]| |]; cbn; [|exact I..].
      destruct (token_is T1 j ")") eqn:Hend; cbn; [|exact I].
      apply parse_rest_spans. rewrite Nat.add_1_r.
      exact (reached_enclosed T T T1 i (S i) j Hnext (token_is_lookup _ _ _ Hparen)
               Hcall (token_is_lookup _ _ _ Hend)).
    + pose proof (Hrec T (S i) LimitNegate None) as Hcall.
      destruct (rec T (S i) LimitNegate None) as [[[p j] T1]| |]; cbn; [|exact I..].
      apply parse_rest_spans. exact (reached_call T T T1 i (S i) j Hnext Hcall).
Qed.

End Spanning.

Lemma parse_partial_spans fuel : spanning (parse_partial fuel).
Proof.
  induction fuel as [|fuel IH]; [intros T i lim previous; exact I|].
  exact (parse_partial_body_spans (parse_partial fuel) IH).
Qed.

Lemma star_inserted_count s (l l' : list string) :
  star_inserted l l' -> s <> "*" -> count_token s l' = count_token s l.
Proof.
  intros H Hs. induction H as [|t l l' _ IH|l l' _ IH].
  - reflexivity.
  - rewrite !count_token_cons, IH. reflexivity.
  - rewrite count_token_cons, IH.
    destruct (String.eqb_spec s "*") as [->|_]; [contradiction|reflexivity].
Qed.

Lemma parse_loop_balanced fuel (T0 : list string) :
  forall T previous i r T',
    reached T0 0 T i ->
    parse_loop fuel T previous i = Ok (r, T') -> balanced T'.
Proof.
  induction fuel as [|fuel IH]; intros T previous i r T' Hreached H;
    cbn [parse_loop] in H;
    destruct (bool_decide (i < length T)%nat) eqn:Hi; try discriminate H.
  - injection H as _ <-. apply bool_decide_eq_false in Hi.
    destruct Hreached as (Hlen & _ & Hbalanced).
    unfold segment in Hbalanced. rewrite drop_0, take_ge in Hbalanced by lia.
    exact Hbalanced.
  - pose proof (parse_partial_spans fuel T i Operator previous) as Hcall.
    destruct (parse_partial fuel T i Operator previous) as [[[t j] T1]| |];
      cbn [bind] in H; try discriminate H.
    apply (IH T1 (Some t) j r T'); [|exact H].
    exact (reached_call T0 T T1 0 i j Hreached Hcall).
  - injection H as _ <-. apply bool_decide_eq_false in Hi.
    destruct Hreached as (Hlen & _ & Hbalanced).
    unfold segment in Hbalanced. rewrite drop_0, take_ge in Hbalanced by lia.
    exact Hbalanced.
Qed.

(** X24. [parse] returns only for tokens with as many opening as closing
    parentheses; as it comes to an end on every token list, it raises on
    any other. *)
Theorem parse_returns_on_balanced_parentheses_only (fuel : nat)
    (tokens tokens' : list string) (r : option node) :
  parse fuel tokens = Ok (r, tokens') ->
  count_token "(" tokens = count_token ")" tokens.
Proof.
  intros H.
  pose proof (parse_loop_stars _ _ _ _ _ _ H) as Hstars.
  pose proof (parse_loop_balanced fuel tokens tokens None 0%nat r tokens'
                (reached_start tokens 0 (Nat.le_0_l _)) H) as Hbalanced.
  unfold balanced in Hbalanced.
  rewrite !(star_inserted_count _ _ _ Hstars) in Hbalanced by discriminate.
  exact Hbalanced.
Qed.

Lemma parse_returns_on_balanced_parentheses_only_witness :
  count_token "(" (tokenize "2(x + sin(x))") = count_token ")" (tokenize "2(x + sin(x))").
Proof.
  apply (parse_returns_on_balanced_parentheses_only 12 (tokenize "2(x + sin(x))")
           ["2"; "*"; "("; "x"; "+"; "sin"; "("; "x"; ")"; ")"]
           (Some (Binary Multiply NUMBER_2
                    (Binary Add (Var "x") (Unary Sine (Var "x")))))).
  reflexivity.
Defined.

(** ** Blanks between tokens *)

Lemma span_before_blank p (a b : string) :
  p " "%char = false ->
  span p (a ++ String " " b)
  = (fst (span p a), (snd (span p a) ++ String " " b)%string).
Proof.
  intros Hblank. induction a as [|c a IH]; rewrite ?append_String, ?append_empty.
  - cbn [span]. rewrite Hblank. reflexivity.
  - cbn [span]. destruct (p c); [|reflexivity].
    rewrite IH. destruct (span p a) as [x r]. reflexivity.
Qed.

Lemma match_token_before_blank (a b : string) :
  a <> "" ->
  match_token (a ++ String " " b)
  = match match_token a with
    | Some (token, r) => Some (token, (r ++ String " " b)%string)
    | None => None
    end.
Proof.
  destruct a as [|c rest]; [congruence|]. intros _.
  rewrite append_String. unfold match_token.
  destruct (is_operator_char c); [reflexivity|].
  destruct (is_digit c) eqn:Hd.
  { rewrite <- append_String, (span_before_blank is_digit) by reflexivity.
    destruct (span is_digit (String c rest)) as [digits r1]. cbn [fst snd].
    destruct r1 as [|k r2]; rewrite ?append_String, ?append_empty; [reflexivity|].
    destruct (Ascii.eqb_spec k "."%char) as [->|Hk].
    - rewrite (span_before_blank is_digit) by reflexivity.
      destruct (span is_digit r2) as [fraction r3]. reflexivity.
    - destruct k as [[] [] [] [] [] [] [] []]; try reflexivity.
      contradiction Hk. reflexivity. }
  destruct (Ascii.eqb c ".").
  { rewrite (span_before_blank is_digit) by reflexivity.
    destruct (span is_digit rest) as [fraction r2]. cbn [fst snd].
    destruct fraction; reflexivity. }
  destruct (is_letter c) eqn:Hl; [|reflexivity].
  rewrite <- append_String, (span_before_blank is_letter) by reflexivity.
  destruct (span is_letter (String c rest)) as [name r1]. reflexivity.
Qed.

Lemma tokenize_before_blank n :
  forall a b, (String.length a <= n)%nat ->
    tokenize (a ++ String " " b) = (tokenize a ++ tokenize b)%list.
Proof.
  induction n as [|n IH]; intros a b Hlen.
  - destruct a; [|cbn in Hlen; lia]. rewrite append_empty.
    apply tokenize_skip. reflexivity.
  - destruct a as [|c rest]; [rewrite append_empty; apply tokenize_skip; reflexivity|].
    cbn [String.length] in Hlen.
    pose proof (match_token_before_blank (String c rest) b) as Hm.
    rewrite append_String in *.
    destruct (match_token (String c rest)) as [[token r]|] eqn:Ha.
    + pose proof (match_token_shorter c rest token r Ha) as Hr.
      rewrite (tokenize_token c _ token _ (Hm ltac:(discriminate))).
      rewrite (tokenize_token c rest token r Ha), (IH r b) by lia. reflexivity.
    + rewrite (tokenize_skip c _ (Hm ltac:(discriminate))).
      rewrite (tokenize_skip c rest Ha). apply IH. lia.
Qed.

(** X25. A blank between two texts separates their tokens and means
    nothing else: the tokens of [a + " " + b] are the tokens of [a]
    followed by the tokens of [b]. *)
Theorem blank_separates_tokens (a b : string) :
  tokenize (a ++ " " ++ b) = (tokenize a ++ tokenize b)%list.
Proof. exact (tokenize_before_blank _ a b (le_n _)). Qed.

(** ** The variables of a derivative *)

Lemma simplify_variables (L : pylib) t t' (vs : list string) :
  simplify L t = Ok t' -> variables t ⊆ vs -> variables t' ⊆ vs.
Proof.
  intros H Hvs s Hs. apply Hvs. exact (proj2 (simplify_shrinks L t t' H) s Hs).
Qed.

Lemma derivative_variables (L : pylib) v t :
  forall d, derivative L t v = Ok d -> variables d ⊆ variables t.
Proof.
  induction t as [n|s|c x IHx y IHy|c x IHx|x IHx]; intros d H; cbn [derivative] in H.
  - injection H as <-. apply subseteq_nil.
  - destruct (String.eqb s v); injection H as <-; apply subseteq_nil.
  - assert (Hparts : exists x' y',
               derivative L x v = Ok x' /\ derivative L y v = Ok y').
    { destruct c; destruct (derivative L x v) as [x'| |];
        destruct (derivative L y v) as [y'| |]; try discriminate H; eauto. }
    destruct Hparts as (x' & y' & Hx & Hy).
    specialize (IHx x' Hx). specialize (IHy y' Hy).
    rewrite Hx, Hy in H.
    destruct c; cbn [bind] in H; apply (simplify_variables L _ _ _ H);
      cbn [variables NUMBER_2]; intros s Hs;
      rewrite ?elem_of_app in Hs; rewrite elem_of_app;
      repeat match goal with
             | Hs : _ \/ _ |- _ => destruct Hs as [Hs|Hs]
             | Hs : s ∈ variables x' |- _ => apply IHx in Hs
             | Hs : s ∈ variables y' |- _ => apply IHy in Hs
             | Hs : s ∈ [] |- _ => inversion Hs
             end; auto.
  - destruct c; try (injection H as <-; apply subseteq_nil);
      (destruct (derivative L x v) as [x'| |] eqn:Hx; [|discriminate H..]);
      specialize (IHx x' eq_refl); cbn [bind unary_derivative] in H;
      apply (simplify_variables L _ _ _ H);
      cbn [variables NUMBER_1 NUMBER_2]; intros s Hs;
      rewrite ?elem_of_app in Hs;
      repeat match goal with
             | Hs : _ \/ _ |- _ => destruct Hs as [Hs|Hs]
             | Hs : s ∈ variables x' |- _ => apply IHx in Hs
             | Hs : s ∈ [] |- _ => inversion Hs
             end; auto.
  - destruct (derivative L x v) as [x'| |] eqn:Hx; [|discriminate H..].
    cbn [bind] in H. apply (simplify_variables L _ _ _ H). exact (IHx x' eq_refl).
Qed.

(** X26. The derivative of a tree mentions no variable that the tree
    lacks. *)
Theorem derivative_introduces_no_variable (L : pylib) (t d : node) (v s : string) :
  derivative L t v = Ok d -> s ∈ variables d -> s ∈ variables t.
Proof. intros H. exact (derivative_variables L v t d H s). Qed.

Lemma derivative_introduces_no_variable_witness :
  "y" ∈ variables (Binary Multiply (Var "x") (Var "y")).
Proof.
  apply (derivative_introduces_no_variable no_floats
           (Binary Multiply (Var "x") (Var "y")) (Var "y") "x" "y").
  - reflexivity.
  - apply list_elem_of_here.
Defined.
